(** * ipcalc.py: address arithmetic, VLSM allocation, prefix transitions

    A shallow embedding of [src/ipcalc.py].  Addresses are the integers
    Python's [ipaddress] objects carry ([int(addr)]), networks are pairs of a
    base address and a prefix length, and every Python exception that can
    escape a modelled call is a value of [exn] threaded through the [result]
    monad.  Printing is modelled by the data that is printed; the code that
    formats and colours the lines is modelled on its own, as functions that
    pass the module's mutable state along and return the text. *)

From Stdlib Require Import ZArith Lia String Ascii List Sorted Permutation.
From Stdlib Require Import DecimalString.
From stdpp Require Import base list.
Import ListNotations.
Local Open Scope Z_scope.

(** ** Exceptions and the error monad *)

Inductive exn : Type :=
| AddressValueError      (* ipaddress: integer outside the family's range *)
| NetmaskValueError      (* ipaddress: prefix length outside 0..max_prefixlen *)
| HostBitsSet            (* ValueError: '... has host bits set' *)
| NotANetwork            (* ValueError: '... does not appear to be an IPv4 or IPv6 network' *)
| MathDomainError        (* ValueError: math domain error, from math.log2 *)
| LastBeforeFirst        (* ValueError: 'last IP address must be greater than first' *)
| NewPrefixMustBeLonger  (* ValueError raised by subnets *)
| NewPrefixMustBeShorter (* ValueError raised by supernet *)
| PrefixDiffInvalid      (* ValueError: prefix length diff out of range *)
| PrefixOutOfRange       (* ValueError: 'Prefix must be between 0 and 32.' *)
| IntParseError          (* ValueError: invalid literal for int() *)
| TextParseError         (* ValueError: malformed address or network text *)
| VersionMismatch        (* TypeError: '... are not of the same version' *)
| IndexError             (* list index out of range *)
| AttributeError         (* attribute access on None *)
| LoopBudgetExhausted.   (* the bounded unrolling of a while loop ran out *)

Inductive result (A : Type) : Type :=
| Ok (a : A)
| Raise (e : exn).
Arguments Ok {A} a.
Arguments Raise {A} e.

Definition rbind {A B : Type} (r : result A) (k : A -> result B) : result B :=
  match r with
  | Ok a => k a
  | Raise e => Raise e
  end.

Notation "x <- r ;; k" := (rbind r (fun x => k))
  (at level 100, r at next level, right associativity).

Fixpoint rmap {A B : Type} (f : A -> result B) (l : list A) : result (list B) :=
  match l with
  | [] => Ok []
  | a :: l' => b <- f a ;; bs <- rmap f l' ;; Ok (b :: bs)
  end.

(** ** The [ipaddress] objects the program manipulates *)

(** Modelled from the spec: the address and network objects are those of
    Python's standard [ipaddress] module, which is not under src/.  Section 3
    of the specification gives their data: a family and a value that fits the
    family's width; a base address and a prefix length, with netmask,
    hostmask, broadcast address and address count derived from them.  The
    operations below are the ones the program calls, with the exceptions the
    module raises. *)
Inductive version : Type := V4 | V6.

Definition version_eqb (a b : version) : bool :=
  match a, b with
  | V4, V4 | V6, V6 => true
  | _, _ => false
  end.

Definition max_prefixlen (v : version) : Z :=
  match v with V4 => 32 | V6 => 128 end.

Definition ALL_ONES (v : version) : Z := 2 ^ max_prefixlen v - 1.

(** An address object: its family and [int(address)]. *)
Record IPAddress : Type := mkAddr { addr_version : version; ip : Z }.

(** A network object: family, [int(network_address)] and [prefixlen]. *)
Record IPNetwork : Type :=
  mkNet { net_version : version; network_address : Z; prefixlen : Z }.

(** Modelled from the spec: the constructor of an address from an integer
    (the module's [_check_int_address]); the value must fit the family's
    width. *)
Definition check_int_address (v : version) (a : Z) : result Z :=
  if a <? 0 then Raise AddressValueError
  else if ALL_ONES v <? a then Raise AddressValueError
  else Ok a.

(** Modelled from the spec: [address + n] and [address - n] (the module's
    [__add__] and [__sub__]) build a new address object from the integer
    sum, so they raise outside the family's range. *)
Definition address_add (v : version) (a n : Z) : result Z :=
  check_int_address v (a + n).

Definition address_sub (v : version) (a n : Z) : result Z :=
  check_int_address v (a - n).

(** Modelled from the spec: the netmask has the top [p] bits set; the module
    computes it as [ALL_ONES ^ (ALL_ONES >> p)]. *)
Definition ip_int_from_prefix (v : version) (p : Z) : Z :=
  Z.lxor (ALL_ONES v) (Z.shiftr (ALL_ONES v) p).

Definition netmask (n : IPNetwork) : Z :=
  ip_int_from_prefix (net_version n) (prefixlen n).

(** Modelled from the spec: the hostmask is the complement of the netmask,
    the broadcast address the base with the low bits set, and the address
    count what lies between them. *)
Definition hostmask (n : IPNetwork) : Z :=
  Z.lxor (netmask n) (ALL_ONES (net_version n)).

Definition broadcast_address (n : IPNetwork) : Z :=
  Z.lor (network_address n) (hostmask n).

Definition num_addresses (n : IPNetwork) : Z :=
  broadcast_address n - network_address n + 1.

(** Modelled from the spec: the network constructor on an (address, prefix)
    pair, for one family.  The prefix must be in range; with [strict] the
    address may have no bit set below the prefix, and without it those bits
    are cleared (the loose normalisation of section 3). *)
Definition make_network (strict : bool) (v : version) (a p : Z)
  : result IPNetwork :=
  packed <- check_int_address v a ;;
  if negb ((0 <=? p) && (p <=? max_prefixlen v)) then Raise NetmaskValueError
  else
    let mask := ip_int_from_prefix v p in
    if Z.land packed mask =? packed then Ok (mkNet v packed p)
    else if strict then Raise HostBitsSet
    else Ok (mkNet v (Z.land packed mask) p).

(** Modelled from the spec: [ipaddress.ip_network((address, prefix))],
    strict, where [address] is an IPv4 address object.  The factory tries
    the IPv4 constructor first; a prefix it rejects makes the factory try
    IPv6, which rejects the IPv4 address, and the factory then raises its
    own ValueError.  Host bits raise at once. *)
Definition ip_network_v4 (a p : Z) : result IPNetwork :=
  match make_network true V4 a p with
  | Raise NetmaskValueError => Raise NotANetwork
  | Raise AddressValueError => Raise NotANetwork
  | r => r
  end.

(** Membership of an address in a network. *)
Definition in_network (x : Z) (n : IPNetwork) : Prop :=
  network_address n <= x <= broadcast_address n.

(** A network object as the constructors build it: prefix in range and no
    host bits in the base. *)
Definition valid_network (n : IPNetwork) : Prop :=
  0 <= prefixlen n <= max_prefixlen (net_version n) /\
  0 <= network_address n <= ALL_ONES (net_version n) /\
  Z.land (network_address n) (netmask n) = network_address n.

(** ** [get_class] and the classful default prefix *)

Inductive addr_class : Type := ClassA | ClassB | ClassC | ClassD | ClassE.

(** [address.packed[0]]: the most significant of the four bytes. *)
Definition first_octet (a : Z) : Z := Z.land (Z.shiftr a 24) 255.

(** The tests [get_class] makes on the first octet. *)
Definition class_of_octet (first_octet : Z) : addr_class :=
  if Z.land first_octet 128 =? 0 then ClassA
  else if Z.land first_octet 192 =? 128 then ClassB
  else if Z.land first_octet 224 =? 192 then ClassC
  else if Z.land first_octet 240 =? 224 then ClassD
  else ClassE.

Definition get_class (a : Z) : addr_class := class_of_octet (first_octet a).

(** [main], lines 432-441: the suffix appended to an IPv4 address given
    without a mask. *)
Definition classful_suffix (c : addr_class) : string :=
  match c with
  | ClassA => "/8"
  | ClassB => "/16"
  | _ => "/24"
  end%string.

(** The prefix length that suffix denotes. *)
Definition classful_prefix (c : addr_class) : Z :=
  match c with
  | ClassA => 8
  | ClassB => 16
  | _ => 24
  end.

(** ** [print_network_info]

    The lines printed for a network: the labelled addresses, in order, the
    Hosts/Net count and the class.  The description of well-known netblocks
    printed beside the class is left out. *)
Record network_info : Type :=
  mkInfo { info_lines : list (string * Z); hosts_count : Z; info_class : addr_class }.

Definition print_network_info (n : IPNetwork) : result network_info :=
  let v := net_version n in
  let line_network := ("Network"%string, network_address n) in
  host_lines <-
    (if prefixlen n <? 31 then
       hmin <- address_add v (network_address n) 1 ;;
       hmax <- address_sub v (broadcast_address n) 1 ;;
       Ok [("HostMin"%string, hmin); ("HostMax"%string, hmax);
           ("Broadcast"%string, broadcast_address n)]
     else if prefixlen n =? 31 then
       Ok [("HostMin"%string, network_address n);
           ("HostMax"%string, broadcast_address n)]
     else Ok []) ;;
  let hosts_count := num_addresses n in
  let hosts_count := if prefixlen n <? 31 then hosts_count - 2 else hosts_count in
  let hosts_count := if hosts_count <? 0 then 0 else hosts_count in
  Ok (mkInfo (line_network :: host_lines) hosts_count
             (get_class (network_address n))).

(** ** [handle_split_network]: VLSM allocation *)

(** [math.ceil(math.log2(n))] on a Python int.  [math.log2] raises a
    ValueError (math domain error) on [n <= 0].  The logarithm is a double:
    its ceiling is the integer ceiling for every positive [n] up to 2^48,
    far above the 2^32 addresses an IPv4 parent can hold, and falls one
    short of it just above the larger powers of two (at 2^49 + 1 the
    double is 49.0).  The definition describes the code up to 2^48 only;
    the theorems on the sizes of the blocks keep the host counts there, by
    a bound of their own or because the blocks fit an IPv4 parent. *)
Definition ceil_log2 (n : Z) : result Z :=
  if n <=? 0 then Raise MathDomainError else Ok (Z.log2_up n).

(** [int(math.log2(n))]. *)
Definition int_log2 (n : Z) : result Z :=
  if n <=? 0 then Raise MathDomainError else Ok (Z.log2 n).

(** One dictionary of [needed_blocks]. *)
Record needed_block : Type :=
  mkBlock { original_size : Z; block_size : Z; original_index : nat }.

(** Lines 304-310: [for i, size in enumerate(sizes)], counting from [i]. *)
Fixpoint needed_blocks_from (i : nat) (sizes : list Z) : result (list needed_block) :=
  match sizes with
  | [] => Ok []
  | size :: rest =>
      let actual_size := size + 2 in
      power <- ceil_log2 actual_size ;;
      let block_size := 2 ^ power in
      blocks <- needed_blocks_from (S i) rest ;;
      Ok (mkBlock size block_size i :: blocks)
  end.

(** Line 313: [sort(key=block_size, reverse=True)].  Python's sort is stable
    also when reversed: blocks of equal size keep their order.  The stable
    descending order is unique; it is computed here by insertion. *)
Fixpoint insert_block (b : needed_block) (l : list needed_block) : list needed_block :=
  match l with
  | [] => [b]
  | c :: l' =>
      if block_size b <? block_size c then c :: insert_block b l'
      else b :: l
  end.

Definition sort_blocks (l : list needed_block) : list needed_block :=
  foldr insert_block [] l.

Definition sum_block_sizes (l : list needed_block) : Z :=
  foldr (fun b acc => block_size b + acc) 0 l.

(** [allocated_subnets[i] = x]: Python raises on an index out of range. *)
Definition list_assign {A : Type} (l : list A) (i : nat) (x : A) : result (list A) :=
  if (i <? length l)%nat then Ok (<[i := x]> l) else Raise IndexError.

(** Lines 324-328: the placement loop, threading [current_address] and
    [allocated_subnets]. *)
Fixpoint place_blocks (blocks : list needed_block) (current_address : Z)
    (allocated_subnets : list (option IPNetwork))
  : result (list (option IPNetwork)) :=
  match blocks with
  | [] => Ok allocated_subnets
  | block :: rest =>
      l <- int_log2 (block_size block) ;;
      let prefix := 32 - l in
      subnet <- ip_network_v4 current_address prefix ;;
      allocated_subnets <- list_assign allocated_subnets (original_index block) (Some subnet) ;;
      current_address <- address_add V4 current_address (block_size block) ;;
      place_blocks rest current_address allocated_subnets
  end.

(** One numbered entry of the listing printed at lines 331-334. *)
Record split_entry : Type :=
  mkEntry { entry_number : Z; requested_size : Z; entry_subnet : IPNetwork;
            entry_block : Z; entry_info : network_info }.

Fixpoint print_allocated (i : nat) (sizes : list Z)
    (allocated_subnets : list (option IPNetwork)) : result (list split_entry) :=
  match allocated_subnets with
  | [] => Ok []
  | o :: rest =>
      size <- match sizes with s :: _ => Ok s | [] => Raise IndexError end ;;
      subnet <- match o with Some s => Ok s | None => Raise AttributeError end ;;
      info <- print_network_info subnet ;;
      entries <- print_allocated (S i) (tl sizes) rest ;;
      Ok (mkEntry (Z.of_nat i + 1) size subnet (num_addresses subnet) info :: entries)
  end.

(** What a run of [handle_split_network] that raises nothing does: either
    the capacity message (with the two numbers it reports) and a plain
    return, or the listing. *)
Inductive split_outcome : Type :=
| CapacityExceeded (total_needed available : Z)
| Allocated (entries : list split_entry).

Definition handle_split_network (network : IPNetwork) (sizes : list Z)
  : result split_outcome :=
  needed_blocks <- needed_blocks_from 0 sizes ;;
  let needed_blocks := sort_blocks needed_blocks in
  let total_needed := sum_block_sizes needed_blocks in
  if num_addresses network <? total_needed then
    Ok (CapacityExceeded total_needed (num_addresses network))
  else
    let current_address := network_address network in
    let allocated_subnets := replicate (length sizes) None in
    allocated_subnets <- place_blocks needed_blocks current_address allocated_subnets ;;
    entries <- print_allocated 0 sizes allocated_subnets ;;
    Ok (Allocated entries).

(** ** Prefix transitions: [subnets], [supernet] and the second netmask *)

(** [range(start, stop, step)] for a positive step (the step of the one
    call below is a power of two). *)
Definition py_range (start stop step : Z) : list Z :=
  map (fun k => start + Z.of_nat k * step)
      (seq 0 (Z.to_nat ((stop - start + step - 1) / step))).

(** Modelled from the spec: [network.subnets(new_prefix=new_prefix)] of the
    standard library, which is not under src/, materialised by [list(...)]:
    every subnet of the network at the new prefix, in ascending order of
    address (section 4.2, narrow), with the checks the library makes. *)
Definition subnets (n : IPNetwork) (new_prefix : Z) : result (list IPNetwork) :=
  let v := net_version n in
  if prefixlen n =? max_prefixlen v then Ok [n]
  else if new_prefix <? prefixlen n then Raise NewPrefixMustBeLonger
  else
    let prefixlen_diff := new_prefix - prefixlen n in
    if prefixlen_diff <? 0 then Raise PrefixDiffInvalid
    else
      let new_prefixlen := prefixlen n + prefixlen_diff in
      if max_prefixlen v <? new_prefixlen then Raise PrefixDiffInvalid
      else
        let start := network_address n in
        let stop := broadcast_address n + 1 in
        let step := Z.shiftr (hostmask n + 1) prefixlen_diff in
        rmap (fun new_addr => make_network true v new_addr new_prefixlen)
             (py_range start stop step).

(** Modelled from the spec: [network.supernet(new_prefix=new_prefix)] of the
    standard library, which is not under src/: the supernet at the new
    prefix, obtained by clearing the additional low-order bits of the base
    (section 4.2, widen), with the checks the library makes. *)
Definition supernet (n : IPNetwork) (new_prefix : Z) : result IPNetwork :=
  if prefixlen n =? 0 then Ok n
  else if prefixlen n <? new_prefix then Raise NewPrefixMustBeShorter
  else
    let prefixlen_diff := prefixlen n - new_prefix in
    let new_prefixlen := prefixlen n - prefixlen_diff in
    if new_prefixlen <? 0 then Raise PrefixDiffInvalid
    else
      make_network true (net_version n)
        (Z.land (network_address n) (Z.shiftl (netmask n) prefixlen_diff))
        new_prefixlen.

(** What lines 478-501 of [main] do with the second netmask. *)
Inductive transition_outcome : Type :=
| SubnetListing (shown : list (Z * network_info)) (stopped_at_1000 : bool)
| SupernetInfo (super : IPNetwork) (info : network_info)
| NoTransition            (* neither branch ran: nothing printed, no error *)
| InvalidSecondNetmask (e : exn).  (* the message on stderr, exit status 1 *)

(** The subnet loop: numbered from 1, cut after 1000 entries. *)
Fixpoint print_subnets (i : nat) (l : list IPNetwork)
  : result (list (Z * network_info) * bool) :=
  match l with
  | [] => Ok ([], false)
  | subnet :: rest =>
      if (1000 <=? i)%nat then Ok ([], true)
      else
        info <- print_network_info subnet ;;
        r <- print_subnets (S i) rest ;;
        Ok ((Z.of_nat i + 1, info) :: fst r, snd r)
  end.

(** The body of the [try] at lines 479-497, on the integer [int(...)] gave.
    Line 486 builds the whole list of subnets, 2^(new_prefix - prefixlen)
    network objects, before the loop prints the first of them; here the
    list is a value.  A list too large for the memory of the process ends
    the program in a MemoryError that nothing catches; that outcome is not
    described, and the statements about the listing bound the span (see
    [max_listed_span]). *)
Definition transition_body (initial_network : IPNetwork) (new_prefix : Z)
  : result transition_outcome :=
  if negb ((0 <=? new_prefix) && (new_prefix <=? 32)) then Raise PrefixOutOfRange
  else if prefixlen initial_network <? new_prefix then
    l <- subnets initial_network new_prefix ;;
    r <- print_subnets 0 l ;;
    Ok (SubnetListing (fst r) (snd r))
  else if new_prefix <? prefixlen initial_network then
    s <- supernet initial_network new_prefix ;;
    info <- print_network_info s ;;
    Ok (SupernetInfo s info)
  else Ok NoTransition.

(** The exceptions an [except ValueError] clause catches
    ([AddressValueError] and [NetmaskValueError] are subclasses). *)
Definition is_value_error (e : exn) : bool :=
  match e with
  | VersionMismatch | IndexError | AttributeError | LoopBudgetExhausted => false
  | _ => true
  end.

(** Lines 478-501: the [try] and its [except ValueError], on the outcome of
    [int(netmask2_arg)]. *)
Definition second_netmask (initial_network : IPNetwork) (new_prefix : result Z)
  : result transition_outcome :=
  match (p <- new_prefix ;; transition_body initial_network p) with
  | Ok o => Ok o
  | Raise e => if is_value_error e then Ok (InvalidSecondNetmask e) else Raise e
  end.

(** ** Range summarisation: [ipaddress.summarize_address_range] *)

(** [int.bit_length] of Python's integers. *)
Definition bit_length (x : Z) : Z :=
  if x =? 0 then 0 else Z.log2 (Z.abs x) + 1.

(** Modelled from the spec: the count of trailing zero bits of the cursor,
    capped at the full width when the cursor is 0 (section 4.4); the
    library's [_count_righthand_zero_bits]. *)
Definition count_righthand_zero_bits (number bits : Z) : Z :=
  if number =? 0 then bits
  else Z.min bits (bit_length (Z.land (Z.lnot number) (number - 1))).

(** Modelled from the spec: the greedy loop of section 4.4, as the library
    writes it ([while first_int <= last_int]), unrolled at most [budget]
    times; it collects the networks the generator yields. *)
Fixpoint summarize_loop (budget : nat) (v : version) (first_int last_int : Z)
  : result (list IPNetwork) :=
  if first_int <=? last_int then
    match budget with
    | O => Raise LoopBudgetExhausted
    | S budget' =>
        let ip_bits := max_prefixlen v in
        let nbits := Z.min (count_righthand_zero_bits first_int ip_bits)
                           (bit_length (last_int - first_int + 1) - 1) in
        net <- make_network true v first_int (ip_bits - nbits) ;;
        let first_int := first_int + Z.shiftl 1 nbits in
        if first_int - 1 =? ALL_ONES v then Ok [net]
        else
          rest <- summarize_loop budget' v first_int last_int ;;
          Ok (net :: rest)
    end
  else Ok [].

(** Modelled from the spec: the program calls the standard library's
    [summarize_address_range], which is not under src/; this is the greedy
    algorithm of section 4.4 (alignment of the cursor against the largest
    power of two that fits the remainder), with the library's failure on
    mixed families or a reversed range.  The loop runs at most twice per bit
    of the family's width, which the budget allows for. *)
Definition summarize_address_range (first last : IPAddress)
  : result (list IPNetwork) :=
  if negb (version_eqb (addr_version first) (addr_version last))
  then Raise VersionMismatch
  else if ip last <? ip first then Raise LastBeforeFirst
  else summarize_loop (Z.to_nat (2 * (max_prefixlen (addr_version first) + 1)))
                      (addr_version first) (ip first) (ip last).

(** ** [main]: which handler a command line reaches *)

(** The text layer [main] relies on: [ipaddress.ip_address(text)],
    [ipaddress.ip_network(text, strict=False)] and [int(text)], each [None]
    where Python raises ValueError. *)
Record text_layer : Type :=
  mkText { ip_address : string -> option IPAddress;
           ip_network_loose : string -> option IPNetwork;
           int_of_text : string -> option Z }.

Definition parsed {A : Type} (e : exn) (o : option A) : result A :=
  match o with Some a => Ok a | None => Raise e end.

(** The parsed command line ([argparse] is outside the model). *)
Record Args : Type :=
  mkArgs { params : list string; version_flag : bool; nobinary : bool;
           print_class : bool; split : option (list Z) }.

(** ['/' in s] and [s.split('/')[0]]. *)
Fixpoint has_slash (s : string) : bool :=
  match s with
  | EmptyString => false
  | String c s' => if Ascii.eqb c "/" then true else has_slash s'
  end.

Fixpoint before_slash (s : string) : string :=
  match s with
  | EmptyString => EmptyString
  | String c s' => if Ascii.eqb c "/" then EmptyString else String c (before_slash s')
  end.

Inductive main_outcome : Type :=
| PrintedVersion                                       (* exit status 0 *)
| PrintedHelp                                          (* exit status 1 *)
| RangeListing (first last : IPAddress) (nets : list IPNetwork)  (* 0 *)
| InvalidRange (e : exn)                               (* exit status 1 *)
| IPv6Info (network : IPNetwork) (address : IPAddress) (* exit status 0 *)
| InvalidAddress (e : exn)                             (* exit status 1 *)
| PrintedClass (c : addr_class)                        (* exit status 0 *)
| SplitMode (o : split_outcome)                        (* exit status 0 *)
| DefaultMode (address : IPAddress) (network : IPNetwork)
    (info : network_info) (transition : option transition_outcome).

(** An [except (ValueError, IndexError)] clause. *)
Definition is_value_or_index_error (e : exn) : bool :=
  match e with
  | IndexError => true
  | _ => is_value_error e
  end.

(** Lines 381-391. *)
Definition range_mode (T : text_layer) (ps : list string) : result main_outcome :=
  let body :=
    start_ip <- parsed TextParseError (ip_address T (nth 0 ps EmptyString)) ;;
    end_text <- parsed IndexError (ps !! 2%nat) ;;
    end_ip <- parsed TextParseError (ip_address T end_text) ;;
    nets <- summarize_address_range start_ip end_ip ;;
    Ok (RangeListing start_ip end_ip nets) in
  match body with
  | Ok o => Ok o
  | Raise e => if is_value_or_index_error e then Ok (InvalidRange e) else Raise e
  end.

(** What the [try] of lines 394-444 hands to the rest of [main]. *)
Inductive resolved : Type :=
| Exited (o : main_outcome)        (* the IPv6 path ran and called sys.exit *)
| Resolved4 (initial_network : IPNetwork) (initial_address : IPAddress)
            (netmask2_arg : option string).

Definition resolve_address (T : text_layer) (ps : list string) : result resolved :=
  let p0 := nth 0 ps EmptyString in
  test_addr <- parsed TextParseError (ip_address T (before_slash p0)) ;;
  match addr_version test_addr with
  | V6 =>
      let address_part := p0 in
      let network_str :=
        if negb (has_slash address_part) then
          match ps !! 1%nat with
          | Some p1 => (address_part ++ "/" ++ p1)%string
          | None => (address_part ++ "/64")%string
          end
        else address_part in
      initial_network <- parsed TextParseError (ip_network_loose T network_str) ;;
      initial_address <- parsed TextParseError (ip_address T (before_slash address_part)) ;;
      Ok (Exited (IPv6Info initial_network initial_address))
  | V4 =>
      let address_part := p0 in
      r <- (if has_slash address_part then
              Ok (address_part, ps !! 1%nat)
            else
              match ps !! 1%nat with
              | Some p1 => Ok ((address_part ++ "/" ++ p1)%string, ps !! 2%nat)
              | None =>
                  temp_addr <- parsed TextParseError (ip_address T address_part) ;;
                  let addr_class := get_class (ip temp_addr) in
                  Ok ((address_part ++ classful_suffix addr_class)%string, None)
              end) ;;
      initial_network <- parsed TextParseError (ip_network_loose T (fst r)) ;;
      initial_address <- parsed TextParseError (ip_address T (before_slash address_part)) ;;
      Ok (Resolved4 initial_network initial_address (snd r))
  end.

Definition main (T : text_layer) (args : Args) : result main_outcome :=
  if version_flag args then Ok PrintedVersion
  else
    match params args with
    | [] => Ok PrintedHelp
    | _ :: _ =>
        if match params args !! 1%nat with
           | Some p1 => String.eqb p1 "-"
           | None => false
           end
        then range_mode T (params args)
        else
          match resolve_address T (params args) with
          | Raise e =>
              if is_value_or_index_error e then Ok (InvalidAddress e) else Raise e
          | Ok (Exited o) => Ok o
          | Ok (Resolved4 initial_network initial_address netmask2_arg) =>
              if print_class args then
                Ok (PrintedClass (get_class (ip initial_address)))
              else
                match split args with
                | Some (s :: sizes) =>
                    o <- handle_split_network initial_network (s :: sizes) ;;
                    Ok (SplitMode o)
                | _ =>
                    info <- print_network_info initial_network ;;
                    match netmask2_arg with
                    | Some (String c t) =>
                        tr <- second_netmask initial_network
                                (parsed IntParseError (int_of_text T (String c t))) ;;
                        Ok (DefaultMode initial_address initial_network info (Some tr))
                    | _ => Ok (DefaultMode initial_address initial_network info None)
                    end
                end
          end
    end.

(** ** [get_netblock_description] *)

(** Modelled from the spec: [address in network] of the standard library,
    which is not under src/: false across families, and otherwise the test
    that the address masked by the netmask is the base of the network. *)
Definition contains (n : IPNetwork) (v : version) (x : Z) : bool :=
  version_eqb (net_version n) v && (Z.land x (netmask n) =? network_address n).

(** Modelled from the spec: [self.overlaps(other)] of the standard library:
    one of the two networks holds the first or the last address of the
    other (the partial-overlap relation of section 4.1). *)
Definition overlaps (self other : IPNetwork) : bool :=
  contains other (net_version self) (network_address self)
  || contains other (net_version self) (broadcast_address self)
  || contains self (net_version other) (network_address other)
  || contains self (net_version other) (broadcast_address other).

(** Modelled from the spec: [a.subnet_of(b)] of the standard library (the
    containment relation of section 4.1); a TypeError across families. *)
Definition is_subnet_of (a b : IPNetwork) : result bool :=
  if negb (version_eqb (net_version a) (net_version b)) then Raise VersionMismatch
  else Ok ((network_address b <=? network_address a)
           && (broadcast_address a <=? broadcast_address b)).

(** The integer of the IPv4 address [a.b.c.d]. *)
Definition dotted (a b c d : Z) : Z := ((a * 256 + b) * 256 + c) * 256 + d.

(** Lines 99-106: the table, in the order the dictionary lists it, with the
    network each key denotes. *)
Definition descriptions : list (IPNetwork * (string * string)) :=
  [ (mkNet V4 (dotted 10 0 0 0) 8,
     ("Private Internet", "http://www.ietf.org/rfc/rfc1918.txt"));
    (mkNet V4 (dotted 172 16 0 0) 12,
     ("Private Internet", "http://www.ietf.org/rfc/rfc1918.txt"));
    (mkNet V4 (dotted 192 168 0 0) 16,
     ("Private Internet", "http://www.ietf.org/rfc/rfc1918.txt"));
    (mkNet V4 (dotted 127 0 0 0) 8,
     ("Loopback", "http://www.ietf.org/rfc/rfc1700.txt"));
    (mkNet V4 (dotted 169 254 0 0) 16,
     ("APIPA", "http://www.ietf.org/rfc/rfc3330.txt"));
    (mkNet V4 (dotted 224 0 0 0) 4,
     ("Multicast", "http://www.ietf.org/rfc/rfc3171.txt")) ]%string.

(** Lines 107-113: the loop over the table; [(None, None)] when no block
    overlaps the network. *)
Fixpoint netblock_lookup (network : IPNetwork)
    (table : list (IPNetwork * (string * string)))
  : result (option string * option string) :=
  match table with
  | [] => Ok (None, None)
  | (block, (desc, url)) :: rest =>
      if overlaps network block then
        sub <- is_subnet_of network block ;;
        if sub then Ok (Some desc, Some url)
        else Ok (Some ("Partially overlaps with " ++ desc)%string, Some url)
      else netblock_lookup network rest
  end.

Definition get_netblock_description (network : IPNetwork)
  : result (option string * option string) :=
  netblock_lookup network descriptions.

(** ** Output colours: [Colors], [Html] and [set_color] *)

(** The characters a Rocq string literal cannot hold: escape ("\033"), the
    double quote and the end of line. *)
Definition ESC : string := String (ascii_of_nat 27) EmptyString.
Definition DQUOTE : string := String (ascii_of_nat 34) EmptyString.
Definition NEWLINE : string := String (ascii_of_nat 10) EmptyString.

(** The class attributes of [Colors] and of [Html]; [disable] rewrites
    them, so they are part of the state. *)
Record Colors_class : Type :=
  mkColors { Colors_BLUE : string; Colors_NORMAL : string; Colors_YELLOW : string;
             Colors_RED : string; Colors_MAGENTA : string; Colors_GREEN : string;
             Colors_ERROR : string }.

Record Html_class : Type :=
  mkHtml { Html_BLUE : string; Html_NORMAL : string; Html_YELLOW : string;
           Html_RED : string; Html_MAGENTA : string; Html_GREEN : string;
           Html_FONT_END : string; Html_BREAK : string }.

Definition Colors_initial : Colors_class :=
  mkColors (ESC ++ "[34m") (ESC ++ "[m") (ESC ++ "[33m") (ESC ++ "[31m")
           (ESC ++ "[35m") (ESC ++ "[32m") (ESC ++ "[31m")%string.

Definition font (color : string) : string :=
  ("<font color=" ++ DQUOTE ++ color ++ DQUOTE ++ ">")%string.

Definition Html_initial : Html_class :=
  mkHtml (font "#0000ff") (font "#000000") (font "#909090") (font "#ff0000")
         (font "#009900") (font "#663366") "</font>" "<br>".

(** One step of the loops of the two [disable] methods: an attribute that
    starts with the mark is emptied.  The other string attributes [dir]
    lists ([__doc__], [__module__]) start with neither mark. *)
Definition disable_attribute (mark value : string) : string :=
  if String.prefix mark value then EmptyString else value.

Definition Colors_disable (c : Colors_class) : Colors_class :=
  mkColors (disable_attribute ESC (Colors_BLUE c))
           (disable_attribute ESC (Colors_NORMAL c))
           (disable_attribute ESC (Colors_YELLOW c))
           (disable_attribute ESC (Colors_RED c))
           (disable_attribute ESC (Colors_MAGENTA c))
           (disable_attribute ESC (Colors_GREEN c))
           (disable_attribute ESC (Colors_ERROR c)).

Definition Html_disable (h : Html_class) : Html_class :=
  mkHtml (disable_attribute "<" (Html_BLUE h))
         (disable_attribute "<" (Html_NORMAL h))
         (disable_attribute "<" (Html_YELLOW h))
         (disable_attribute "<" (Html_RED h))
         (disable_attribute "<" (Html_MAGENTA h))
         (disable_attribute "<" (Html_GREEN h))
         (disable_attribute "<" (Html_FONT_END h))
         (disable_attribute "<" (Html_BREAK h)).

(** The module's mutable state: [_COLOR_MODE], [_CURRENT_COLOR] and the
    attributes of the two classes. *)
Inductive color_mode : Type := ModeText | ModeColor | ModeHtml.

Record globals : Type :=
  mkGlobals { COLOR_MODE : color_mode; CURRENT_COLOR : string;
              Colors : Colors_class; Html : Html_class }.

Definition globals_initial : globals :=
  mkGlobals ModeText EmptyString Colors_initial Html_initial.

(** Code that reads and writes the state and returns a value. *)
Definition printer (A : Type) : Type := globals -> A * globals.

Definition pret {A : Type} (a : A) : printer A := fun g => (a, g).

Definition pbind {A B : Type} (m : printer A) (k : A -> printer B) : printer B :=
  fun g => let (a, g') := m g in k a g'.

Notation "x <~ m ;; k" := (pbind m (fun x => k))
  (at level 100, m at next level, right associativity).

Definition get_globals : printer globals := fun g => (g, g).

Definition is_html (m : color_mode) : bool :=
  match m with ModeHtml => true | _ => false end.

(** Lines 66-82. *)
Definition set_color (new_color_code : string) : printer string :=
  fun g =>
    if String.eqb new_color_code (CURRENT_COLOR g) then (EmptyString, g)
    else
      let output := EmptyString in
      let output :=
        if is_html (COLOR_MODE g) && negb (String.eqb (CURRENT_COLOR g) EmptyString)
        then (output ++ Html_FONT_END (Html g))%string
        else output in
      ((output ++ new_color_code)%string,
       mkGlobals (COLOR_MODE g) new_color_code (Colors g) (Html g)).

(** [main], lines 369-378: the choice of the output mode, on the options
    [--html], [--color], [--nocolor] and on [sys.stdout.isatty()].  The
    line of HTML printed in the first case is left out. *)
Definition setup_output_mode (html color nocolor isatty : bool) (g : globals)
  : globals :=
  if html then mkGlobals ModeHtml (CURRENT_COLOR g) (Colors g) (Html g)
  else if color || (isatty && negb nocolor)
  then mkGlobals ModeColor (CURRENT_COLOR g) (Colors g) (Html g)
  else mkGlobals ModeText (CURRENT_COLOR g) (Colors_disable (Colors g)) (Html g).

(** ** Text of numbers and addresses *)

(** [str] of an integer. *)
Definition str_int (z : Z) : string := NilZero.string_of_int (Z.to_int z).

(** Modelled from the spec: [str] of an IPv4 address object of the standard
    library, which is not under src/: the four octets in decimal, joined by
    dots. *)
Definition str_ipv4 (a : Z) : string :=
  String.concat "."
    (map (fun k => str_int (Z.land (Z.shiftr a (8 * k)) 255)) [3; 2; 1; 0]).

(** The [n] low bits of [a] as digits, the most significant first. *)
Fixpoint binary_digits (n : nat) (a : Z) : string :=
  match n with
  | O => EmptyString
  | S n' =>
      String (if Z.testbit a (Z.of_nat n') then "1" else "0")%char
             (binary_digits n' a)
  end.

(** [f"{a:0WIDTHb}"] on an integer that is not negative: the digits of [a]
    in base two ("0" for 0), with zeros in front up to the width. *)
Definition format_b (width : nat) (a : Z) : string :=
  binary_digits (Nat.max width (Nat.max 1 (Z.to_nat (bit_length a)))) a.

(** [s[:p]] and [s[p:]] for an index that is not negative. *)
Definition slice_to (p : Z) (s : string) : string :=
  substring 0 (Z.to_nat p) s.

Definition slice_from (p : Z) (s : string) : string :=
  substring (Z.to_nat p) (String.length s - Z.to_nat p) s.

(** [f"{s:<WIDTHs}"]: spaces after [s] up to the width. *)
Fixpoint spaces (n : nat) : string :=
  match n with
  | O => EmptyString
  | S n' => String " " (spaces n')
  end.

Definition ljust (width : nat) (s : string) : string :=
  (s ++ spaces (width - String.length s))%string.

(** [s.lower()] on ASCII text. *)
Definition lower_char (c : ascii) : ascii :=
  let n := nat_of_ascii c in
  if ((65 <=? n) && (n <=? 90))%nat then ascii_of_nat (n + 32) else c.

Fixpoint lower (s : string) : string :=
  match s with
  | EmptyString => EmptyString
  | String c s' => String (lower_char c) (lower s')
  end.

(** ** [print_line] *)

(** An element of [bits_out], marked by where it comes from: what
    [set_color] returned, or the digits and separators themselves.
    ["".join(bits_out)] is [join]; [plain] keeps the digits and
    separators only. *)
Inductive piece : Type :=
| Markup (code : string)
| Plain (text : string).

Definition piece_text (p : piece) : string :=
  match p with Markup s => s | Plain s => s end.

Definition join (l : list piece) : string :=
  foldr (fun p acc => (piece_text p ++ acc)%string) EmptyString l.

Definition plain (l : list piece) : string :=
  foldr (fun p acc => match p with
                      | Markup _ => acc
                      | Plain s => (s ++ acc)%string
                      end) EmptyString l.

Definition at_prefix (i : Z) (n : option IPNetwork) : bool :=
  match n with Some o => i =? prefixlen o | None => false end.

(** Lines 158-176: the loop over the digits, from digit [i] on; [previous]
    is [binary_str[i-1]].  It returns the pieces appended. *)
Fixpoint color_bits (rest : string) (i : Z) (previous : ascii)
    (show_class_bits is_netmask : bool)
    (network : IPNetwork) (old_network : option IPNetwork)
    (c_normal c_binary c_subnet current_color : string)
  : printer (list piece) :=
  match rest with
  | EmptyString => pret []
  | String bit rest' =>
      class_end <~
        (if show_class_bits && (0 <? i) && Ascii.eqb previous "1"
            && Ascii.eqb bit "0"
         then c <~ set_color c_binary ;; pret (false, [Markup c])
         else pret (show_class_bits, [])) ;;
      let show_class_bits := fst class_end in
      boundary <~
        (if (i =? prefixlen network) || at_prefix i old_network then
           colour <~
             (if negb is_netmask then
                if (i =? prefixlen network)
                   && match old_network with
                      | Some o => prefixlen o <? prefixlen network
                      | None => false
                      end
                then c <~ set_color c_subnet ;; pret [Markup c]
                else if at_prefix i old_network
                then c <~ set_color c_binary ;; pret [Markup c]
                else pret []
              else pret []) ;;
           pret (Plain " " :: colour)
         else pret []) ;;
      dot <~
        (if ((i + 1) mod 8 =? 0) && (i <? 31) then
           a <~ set_color c_normal ;;
           b <~ set_color current_color ;;
           pret [Markup a; Plain "."; Markup b]
         else pret []) ;;
      others <~ color_bits rest' (i + 1) bit show_class_bits is_netmask
                  network old_network c_normal c_binary c_subnet current_color ;;
      pret (snd class_end ++ boundary ++ [Plain (String bit EmptyString)]
            ++ dot ++ others)
  end.

(** Lines 134-182: [bits_out]. *)
Definition bits_out (is_netmask : bool) (addr : Z) (network : IPNetwork)
    (old_network : option IPNetwork) (show_class_bits : bool)
  : printer (list piece) :=
  let binary_str := format_b 32 addr in
  g <~ get_globals ;;
  match COLOR_MODE g with
  | ModeText =>
      pret [Plain (slice_to (prefixlen network) binary_str); Plain " ";
            Plain (slice_from (prefixlen network) binary_str)]
  | mode =>
      let html := is_html mode in
      let c_normal := if html then Html_NORMAL (Html g) else Colors_NORMAL (Colors g) in
      let c_binary := if html then Html_YELLOW (Html g) else Colors_YELLOW (Colors g) in
      let c_mask := if html then Html_RED (Html g) else Colors_RED (Colors g) in
      let c_class := if html then Html_MAGENTA (Html g) else Colors_MAGENTA (Colors g) in
      let c_subnet := if html then Html_GREEN (Html g) else Colors_GREEN (Colors g) in
      let current_color := if is_netmask then c_mask else c_binary in
      let current_color := if show_class_bits then c_class else current_color in
      first <~ set_color current_color ;;
      digits <~ color_bits binary_str 0 "0" show_class_bits is_netmask
                  network old_network c_normal c_binary c_subnet current_color ;;
      last <~ set_color c_normal ;;
      pret (Markup first :: digits ++ [Markup last])
  end.

(** Lines 115-194; the value returned is the text written to the standard
    output.  [addr] is an IPv4 address object in every call. *)
Definition print_line (label : string) (addr : Z) (network : IPNetwork)
    (old_network : option IPNetwork) (show_class_bits show_binary : bool)
  : printer string :=
  let is_netmask := String.eqb (lower label) "netmask" in
  let addr_str := str_ipv4 addr in
  let addr_str :=
    if is_netmask then (addr_str ++ " = " ++ str_int (prefixlen network))%string
    else addr_str in
  let addr_str :=
    if String.eqb (lower label) "network"
    then (addr_str ++ "/" ++ str_int (prefixlen network))%string
    else addr_str in
  g <~ get_globals ;;
  let html := is_html (COLOR_MODE g) in
  head <~
    (if html then
       a <~ set_color (Html_NORMAL (Html g)) ;;
       b <~ set_color (Html_BLUE (Html g)) ;;
       pret ("<tr>" ++ NEWLINE
             ++ "  <td><tt>" ++ a ++ ljust 11 (label ++ ":")
             ++ Html_FONT_END (Html g) ++ "</tt></td>" ++ NEWLINE
             ++ "  <td><tt>" ++ b ++ ljust 21 addr_str
             ++ Html_FONT_END (Html g) ++ "</tt></td>" ++ NEWLINE)%string
     else
       a <~ set_color (Colors_NORMAL (Colors g)) ;;
       b <~ set_color (Colors_BLUE (Colors g)) ;;
       pret (a ++ ljust 11 (label ++ ":") ++ " " ++ b ++ ljust 21 addr_str)%string) ;;
  binary <~
    (if show_binary then
       bits <~ bits_out is_netmask addr network old_network show_class_bits ;;
       if html then pret ("  <td><tt>" ++ join bits ++ "</tt></td>" ++ NEWLINE)%string
       else pret (" " ++ join bits ++ NEWLINE)%string
     else pret EmptyString) ;;
  let tail :=
    if html then ("</tr>" ++ NEWLINE)%string
    else if negb show_binary then NEWLINE else EmptyString in
  pret (head ++ binary ++ tail)%string.

(** ** IPv6 binary text *)

(** [":".join([binary_str[i:i+16] for i in range(0, 128, 16)])], lines
    260-261 and 283. *)
Definition colon_groups (binary_str : string) : string :=
  String.concat ":"
    (map (fun i => substring (Z.to_nat i) 16 binary_str) (py_range 0 128 16)).

(** Lines 257-261. *)
Definition format_ipv6_binary (address : Z) : string :=
  colon_groups (format_b 128 address).

(** Lines 282-283 of [handle_ipv6_calculation]: the netmask in binary. *)
Definition netmask_bin_formatted (network : IPNetwork) : string :=
  colon_groups (format_b 128 (netmask network)).

(** * Vocabulary of the statements

    The notions the specification words its claims with, and the
    intermediate quantities of their proofs. *)

(** ** Networks as blocks of addresses *)

(** The number of addresses of a prefix in a family. *)
Definition block_of (n : IPNetwork) : Z :=
  2 ^ (max_prefixlen (net_version n) - prefixlen n).

Definition subnet_of (a parent : IPNetwork) : Prop :=
  forall x, in_network x a -> in_network x parent.

Definition disjoint_networks (a b : IPNetwork) : Prop :=
  forall x, ~ (in_network x a /\ in_network x b).

Definition pairwise_disjoint (l : list IPNetwork) : Prop :=
  forall (i j : nat) a b, i <> j -> l !! i = Some a -> l !! j = Some b ->
    disjoint_networks a b.

Definition overlap (P Q : IPNetwork) : Prop :=
  exists x, in_network x P /\ in_network x Q.

Definition within (a b : Z) (P : IPNetwork) : Prop :=
  a <= network_address P /\ broadcast_address P <= b.

Definition of_family (v : version) (n : IPNetwork) : Prop :=
  net_version n = v /\ valid_network n.

(** ** Address classes *)

(** The class as the leading bits of the first octet spell it. *)
Definition class_of_bits (b7 b6 b5 b4 : bool) : addr_class :=
  if negb b7 then ClassA
  else if negb b6 then ClassB
  else if negb b5 then ClassC
  else if negb b4 then ClassD
  else ClassE.

Definition octet_agrees (k : nat) : bool :=
  let o := Z.of_nat k in
  match class_of_octet o,
        class_of_bits (Z.testbit o 7) (Z.testbit o 6) (Z.testbit o 5) (Z.testbit o 4) with
  | ClassA, ClassA | ClassB, ClassB | ClassC, ClassC
  | ClassD, ClassD | ClassE, ClassE => true
  | _, _ => false
  end.

(** ** VLSM allocation *)

(** The block size the specification asks for: the smallest power of two
    that holds the requested hosts and the two reserved addresses. *)
Definition rounded_block (h : Z) : Z := 2 ^ Z.log2_up (h + 2).

Definition total_rounded (sizes : list Z) : Z :=
  foldr (fun h acc => rounded_block h + acc) 0 sizes.

(** The dictionary built for requirement [i] asking for [h] hosts. *)
Definition block_for (i : nat) (h : Z) : needed_block :=
  mkBlock h (rounded_block h) i.

(** The order the sort establishes. *)
Definition larger_first (a b : needed_block) : Prop :=
  block_size b <= block_size a.

Definition pow2_block (b : needed_block) : Prop :=
  exists k, 0 <= k <= 32 /\ block_size b = 2 ^ k.

(** Where the loop puts each block of an already sorted list: the cursor
    starts at [cur] and advances by every block placed. *)
Fixpoint placements (cur : Z) (blocks : list needed_block)
  : list (needed_block * IPNetwork) :=
  match blocks with
  | [] => []
  | b :: rest =>
      (b, mkNet V4 cur (32 - Z.log2 (block_size b)))
        :: placements (cur + block_size b) rest
  end.

Definition assign_all (alloc : list (option IPNetwork))
    (ps : list (needed_block * IPNetwork)) : list (option IPNetwork) :=
  foldl (fun acc p => <[original_index (fst p) := Some (snd p)]> acc) alloc ps.

(** What the specification asks of one allocated block. *)
Definition entry_fits (network : IPNetwork) (e : split_entry) : Prop :=
  let n := entry_subnet e in
  net_version n = V4 /\ valid_network n /\
  num_addresses n = rounded_block (requested_size e) /\
  entry_block e = num_addresses n /\
  network_address n mod num_addresses n = 0 /\
  subnet_of n network.

(** ** Range summarisation *)

(** The networks of [l] follow one another without a gap from [c] up to and
    including [b]. *)
Fixpoint tiles (v : version) (c : Z) (l : list IPNetwork) (b : Z) : Prop :=
  match l with
  | [] => c = b + 1
  | n :: r =>
      net_version n = v /\ valid_network n /\ network_address n = c /\
      tiles v (broadcast_address n + 1) r b
  end.

(** The union of the networks of [l] is exactly [a..b]. *)
Definition exact_cover (l : list IPNetwork) (a b : Z) : Prop :=
  forall x, a <= x <= b <-> exists n, In n l /\ in_network x n.

(** No network of the family inside [a..b] that meets [g] is larger than [g]. *)
Definition maximal_in (v : version) (a b : Z) (g : IPNetwork) : Prop :=
  forall P, net_version P = v -> valid_network P -> within a b P ->
            overlap P g -> subnet_of P g.

(** No network of the family inside [a..b] starts before [c] and ends at or
    after it. *)
Definition no_straddle (v : version) (a b c : Z) : Prop :=
  forall P, net_version P = v -> valid_network P -> within a b P ->
            ~ (network_address P < c <= broadcast_address P).

(** The exponent the loop picks at cursor [c] when the range ends at [b]. *)
Definition greedy_bits (v : version) (b c : Z) : Z :=
  Z.min (count_righthand_zero_bits c (max_prefixlen v))
        (bit_length (b - c + 1) - 1).

(** What every turn of the loop lowers: twice the bit length of what
    remains of the range, less the smaller of that bit length and the number
    of low zero bits of the cursor. *)
Definition potential (v : version) (b c : Z) : Z :=
  2 * bit_length (b - c + 1)
  - Z.min (count_righthand_zero_bits c (max_prefixlen v)) (bit_length (b - c + 1)).

(** The network of [G] that holds the first address of [P]. *)
Definition holds_base (P g : IPNetwork) : bool :=
  (network_address g <=? network_address P) &&
  (network_address P <=? broadcast_address g).

Definition owner (G : list IPNetwork) (P : IPNetwork) : IPNetwork :=
  match find (holds_base P) G with
  | Some g => g
  | None => P
  end.

(** ** Prefix transitions *)

(** The longest span of a prefix transition, in bits, for which the list of
    subnets that line 486 builds in full (2^span network objects, here up
    to 65536) is taken to fit in the memory of the process. *)
Definition max_listed_span : Z := 16.

(** ** Command lines *)

(** The same command line with another [-s] option. *)
Definition with_split (s : option (list Z)) (args : Args) : Args :=
  mkArgs (params args) (version_flag args) (nobinary args) (print_class args) s.

(** The text [main] hands to the network constructor on the IPv6 path. *)
Definition ipv6_network_text (p0 : string) (rest : list string) : string :=
  if has_slash p0 then p0
  else match rest with
       | p1 :: _ => (p0 ++ "/" ++ p1)%string
       | [] => (p0 ++ "/64")%string
       end.

(** Two text layers to run [main] on: every text read as 10.0.0.1 inside
    10.0.0.0/8, and every text read as ::1 inside ::/64. *)
Definition text_layer_example : text_layer :=
  mkText (fun _ => Some (mkAddr V4 167772161))
         (fun _ => Some (mkNet V4 167772160 8))
         (fun _ => None).

Definition text_layer_v6 : text_layer :=
  mkText (fun _ => Some (mkAddr V6 1))
         (fun _ => Some (mkNet V6 0 64))
         (fun _ => None).

(** A text layer that reads [::1] as an address and [::1/64] as a network,
    and nothing else: in particular not [::1/200], whose prefix the library
    refuses with a ValueError. *)
Definition text_layer_strict_v6 : text_layer :=
  mkText (fun s => if String.eqb s "::1" then Some (mkAddr V6 1) else None)
         (fun s => if String.eqb s "::1/64" then Some (mkNet V6 0 64) else None)
         (fun _ => None).

(** The first of the text layers, with every integer text read as 12. *)
Definition text_layer_prefix_12 : text_layer :=
  mkText (fun _ => Some (mkAddr V4 167772161))
         (fun _ => Some (mkNet V4 167772160 8))
         (fun _ => Some 12).

(** Closes the side conditions of a concrete network. *)
Ltac concrete_network :=
  unfold valid_network; simpl; repeat split; vm_compute; congruence.

(** ** The order of the allocated blocks *)

(** The needed blocks of a list of requirements, as the sort leaves them. *)
Definition sorted_blocks (sizes : list Z) : list needed_block :=
  sort_blocks (imap (fun k h => block_for (0 + k) h) sizes).

(** The order a stable descending sort by block size establishes among the
    requirements: a larger block first, and of two equal blocks the one the
    caller named first. *)
Definition placed_before (a b : needed_block) : Prop :=
  block_size b < block_size a \/
  (block_size a = block_size b /\ (original_index a < original_index b)%nat).

(** ** Address classes as ranges of addresses *)

(** The class an address has by the range it lies in: A below 128.0.0.0,
    B below 192.0.0.0, C below 224.0.0.0, D below 240.0.0.0, E above. *)
Definition class_of_range (a : Z) : addr_class :=
  if a <? 2147483648 then ClassA
  else if a <? 3221225472 then ClassB
  else if a <? 3758096384 then ClassC
  else if a <? 4026531840 then ClassD
  else ClassE.

Definition octet_in_range (k : nat) : bool :=
  let o := Z.of_nat k in
  match class_of_octet o, class_of_range (o * 16777216) with
  | ClassA, ClassA | ClassB, ClassB | ClassC, ClassC
  | ClassD, ClassD | ClassE, ClassE => true
  | _, _ => false
  end.

(** ** Well-known netblocks *)

(** Two networks with no address in common, as a test. *)
Definition apart (a b : IPNetwork) : bool :=
  (broadcast_address a <? network_address b)
  || (broadcast_address b <? network_address a).

(** ** Parameters *)

(** The same command line with other parameters. *)
Definition with_params (ps : list string) (args : Args) : Args :=
  mkArgs ps (version_flag args) (nobinary args) (print_class args) (split args).

(** ** Printed text *)

(** The state text mode leaves the module in: the mode is 'text', no
    colour is current and every attribute of [Colors] is empty. *)
Definition text_ready (g : globals) : Prop :=
  COLOR_MODE g = ModeText /\ CURRENT_COLOR g = EmptyString /\
  Colors g = mkColors EmptyString EmptyString EmptyString EmptyString
                      EmptyString EmptyString EmptyString.

(** The colour codes a run of calls of [set_color] returns, and the state
    it ends in. *)
Fixpoint set_colors (codes : list string) : printer (list string) :=
  match codes with
  | [] => pret []
  | c :: rest =>
      o <~ set_color c ;;
      os <~ set_colors rest ;;
      pret (o :: os)
  end.

(** The codes of a list that differ from the code before them, [current]
    being the code before the first; each with the text that ends the colour
    before it. *)
Fixpoint changes (closing : string -> string) (current : string)
    (codes : list string) : list string :=
  match codes with
  | [] => []
  | c :: rest =>
      (if String.eqb c current then EmptyString else (closing current ++ c)%string)
        :: changes closing c rest
  end.

(** What ends a colour: nothing on a terminal, the closing tag in HTML
    unless no colour is current. *)
Definition closing_of (g : globals) (current : string) : string :=
  if is_html (COLOR_MODE g) && negb (String.eqb current EmptyString)
  then Html_FONT_END (Html g) else EmptyString.

(** A digit repeated. *)
Fixpoint repeated (c : ascii) (n : nat) : string :=
  match n with
  | O => EmptyString
  | S n' => String c (repeated c n')
  end.

(** The number a text spells in base two, whatever stands between its
    digits. *)
Fixpoint read_binary_from (acc : Z) (s : string) : Z :=
  match s with
  | EmptyString => acc
  | String c s' =>
      read_binary_from
        (if Ascii.eqb c "0" then 2 * acc
         else if Ascii.eqb c "1" then 2 * acc + 1
         else acc) s'
  end.

Definition read_binary (s : string) : Z := read_binary_from 0 s.

(** The digits of a text, without what stands between them. *)
Fixpoint digits_only (s : string) : string :=
  match s with
  | EmptyString => EmptyString
  | String c s' =>
      if Ascii.eqb c "0" || Ascii.eqb c "1" then String c (digits_only s')
      else digits_only s'
  end.

(** The digits from digit [i] on, with a space before every digit at a
    boundary and a dot after every eighth digit but the last. *)
Fixpoint grouped (digits : string) (i : Z) (boundary : Z -> bool) : string :=
  match digits with
  | EmptyString => EmptyString
  | String bit rest =>
      let space := if boundary i then " "%string else EmptyString in
      let dot := if ((i + 1) mod 8 =? 0) && (i <? 31) then "."%string
                 else EmptyString in
      (space ++ String bit EmptyString ++ dot ++ grouped rest (i + 1) boundary)%string
  end.

(** The digits before which [print_line] puts a space: the one at the
    prefix of the network and the one at the prefix of the old network. *)
Definition prefix_boundary (network : IPNetwork) (old_network : option IPNetwork)
    (i : Z) : bool :=
  (i =? prefixlen network) || at_prefix i old_network.

(** The attributes of [Colors]. *)
Definition Colors_codes (c : Colors_class) : list string :=
  [Colors_BLUE c; Colors_NORMAL c; Colors_YELLOW c; Colors_RED c;
   Colors_MAGENTA c; Colors_GREEN c; Colors_ERROR c].

(** * Proofs *)

(** * Arithmetic of masks *)

Lemma max_prefixlen_nonneg v : 0 <= max_prefixlen v.
Proof. destruct v; simpl; lia. Qed.

Lemma pow2_pos k : 0 < 2 ^ k \/ (k < 0 /\ 2 ^ k = 0).
Proof.
  destruct (Z_lt_le_dec k 0) as [H|H].
  - right. split; [lia | apply Z.pow_neg_r; lia].
  - left. apply Z.pow_pos_nonneg; lia.
Qed.

Lemma ALL_ONES_ones v : ALL_ONES v = Z.ones (max_prefixlen v).
Proof. unfold ALL_ONES. rewrite Z.ones_equiv. lia. Qed.

Lemma testbit_small a w i : 0 <= a < 2 ^ w -> w <= i -> Z.testbit a i = false.
Proof.
  intros Ha Hi.
  destruct (Z_lt_le_dec w 0) as [Hw|Hw].
  { rewrite Z.pow_neg_r in Ha by lia. lia. }
  rewrite <- (Z.mod_small a (2 ^ w)) by lia.
  apply Z.mod_pow2_bits_high. lia.
Qed.

(** The netmask of prefix [p] in a [w]-bit family, as the bits [w-p..w-1]. *)
Lemma testbit_prefix_mask w p i :
  0 <= p <= w -> 0 <= i ->
  Z.testbit (Z.lxor (Z.ones w) (Z.shiftr (Z.ones w) p)) i
  = ((w - p <=? i) && (i <? w))%bool.
Proof.
  intros Hp Hi.
  rewrite Z.lxor_spec, Z.shiftr_spec by lia.
  rewrite !Z.testbit_ones_nonneg by lia.
  destruct (Z.ltb_spec i w), (Z.ltb_spec (i + p) w), (Z.leb_spec (w - p) i);
    simpl; try reflexivity; lia.
Qed.

Lemma prefix_mask_value w p :
  0 <= p <= w ->
  Z.lxor (Z.ones w) (Z.shiftr (Z.ones w) p) = 2 ^ w - 2 ^ (w - p).
Proof.
  intros Hp.
  set (m := Z.lxor (Z.ones w) (Z.shiftr (Z.ones w) p)).
  assert (Hsum : m + Z.ones (w - p) = Z.ones w).
  { rewrite Z.add_nocarry_lxor.
    - apply Z.bits_inj'. intros i Hi.
      rewrite Z.lxor_spec. unfold m. rewrite testbit_prefix_mask by lia.
      rewrite !Z.testbit_ones_nonneg by lia.
      destruct (Z.ltb_spec i w), (Z.ltb_spec i (w - p)), (Z.leb_spec (w - p) i);
        simpl; try reflexivity; lia.
    - apply Z.bits_inj'. intros i Hi.
      rewrite Z.land_spec, Z.bits_0. unfold m.
      rewrite testbit_prefix_mask by lia.
      rewrite Z.testbit_ones_nonneg by lia.
      destruct (Z.ltb_spec i w), (Z.ltb_spec i (w - p)), (Z.leb_spec (w - p) i);
        simpl; try reflexivity; lia. }
  rewrite !Z.ones_equiv in Hsum. lia.
Qed.

Lemma ip_int_from_prefix_value v p :
  0 <= p <= max_prefixlen v ->
  ip_int_from_prefix v p = 2 ^ max_prefixlen v - 2 ^ (max_prefixlen v - p).
Proof.
  intros Hp. unfold ip_int_from_prefix. rewrite ALL_ONES_ones.
  now apply prefix_mask_value.
Qed.

Lemma land_prefix_mask w p a :
  0 <= p <= w -> 0 <= a < 2 ^ w ->
  Z.land a (Z.lxor (Z.ones w) (Z.shiftr (Z.ones w) p)) = a - a mod 2 ^ (w - p).
Proof.
  intros Hp Ha.
  assert (H2 : 0 < 2 ^ (w - p)) by (apply Z.pow_pos_nonneg; lia).
  replace (a - a mod 2 ^ (w - p)) with (Z.shiftl (Z.shiftr a (w - p)) (w - p)).
  2:{ rewrite Z.shiftl_mul_pow2, Z.shiftr_div_pow2 by lia.
      pose proof (Z.div_mod a (2 ^ (w - p))). lia. }
  apply Z.bits_inj'. intros i Hi.
  rewrite Z.land_spec, testbit_prefix_mask, Z.shiftl_spec by lia.
  destruct (Z.leb_spec (w - p) i) as [Hle|Hlt]; simpl.
  - rewrite Z.shiftr_spec by lia. replace (i - (w - p) + (w - p)) with i by lia.
    destruct (Z.ltb_spec i w); simpl.
    + apply andb_true_r.
    + rewrite andb_false_r. symmetry. now apply (testbit_small a w).
  - rewrite andb_false_r. symmetry. apply Z.testbit_neg_r. lia.
Qed.

Lemma land_netmask v p a :
  0 <= p <= max_prefixlen v -> 0 <= a <= ALL_ONES v ->
  Z.land a (ip_int_from_prefix v p) = a - a mod 2 ^ (max_prefixlen v - p).
Proof.
  intros Hp Ha. unfold ip_int_from_prefix. rewrite ALL_ONES_ones.
  apply land_prefix_mask; [lia|]. unfold ALL_ONES in Ha. lia.
Qed.

Lemma hostmask_value n :
  0 <= prefixlen n <= max_prefixlen (net_version n) ->
  hostmask n = 2 ^ (max_prefixlen (net_version n) - prefixlen n) - 1.
Proof.
  intros Hp. unfold hostmask, netmask, ip_int_from_prefix.
  rewrite ALL_ONES_ones.
  set (w := max_prefixlen (net_version n)) in *. set (p := prefixlen n) in *.
  replace (2 ^ (w - p) - 1) with (Z.ones (w - p)) by (rewrite Z.ones_equiv; lia).
  apply Z.bits_inj'. intros i Hi.
  rewrite Z.lxor_spec, testbit_prefix_mask by lia.
  rewrite !Z.testbit_ones_nonneg by lia.
  destruct (Z.ltb_spec i w), (Z.ltb_spec i (w - p)), (Z.leb_spec (w - p) i);
    simpl; try reflexivity; lia.
Qed.

(** * Networks as aligned blocks *)

Lemma block_of_pos n :
  prefixlen n <= max_prefixlen (net_version n) -> 0 < block_of n.
Proof. intros H. apply Z.pow_pos_nonneg; lia. Qed.

Lemma valid_network_aligned n :
  valid_network n <->
  0 <= prefixlen n <= max_prefixlen (net_version n) /\
  0 <= network_address n <= ALL_ONES (net_version n) /\
  network_address n mod block_of n = 0.
Proof.
  unfold valid_network, netmask, block_of. split; intros (Hp & Ha & H).
  - rewrite land_netmask in H by assumption. repeat split; lia.
  - rewrite land_netmask by assumption. repeat split; lia.
Qed.

Lemma broadcast_value n :
  valid_network n ->
  broadcast_address n = network_address n + block_of n - 1.
Proof.
  intros Hv. apply valid_network_aligned in Hv. destruct Hv as (Hp & Ha & Hal).
  unfold broadcast_address. rewrite hostmask_value by assumption.
  fold (block_of n).
  assert (Hones : Z.ones (max_prefixlen (net_version n) - prefixlen n) = block_of n - 1)
    by (unfold block_of; rewrite Z.ones_equiv; lia).
  rewrite <- Hones.
  pose proof (Z.add_lor_land (network_address n)
                (Z.ones (max_prefixlen (net_version n) - prefixlen n))) as Hadd.
  rewrite Z.land_ones in Hadd by lia. fold (block_of n) in Hadd. lia.
Qed.

Lemma num_addresses_value n :
  valid_network n -> num_addresses n = block_of n.
Proof. intros Hv. unfold num_addresses. rewrite broadcast_value by assumption. lia. Qed.

Lemma in_network_iff n x :
  valid_network n ->
  in_network x n <-> network_address n <= x < network_address n + block_of n.
Proof. intros Hv. unfold in_network. rewrite broadcast_value by assumption. lia. Qed.

Lemma check_int_address_ok v a :
  0 <= a <= ALL_ONES v -> check_int_address v a = Ok a.
Proof.
  intros Ha. unfold check_int_address.
  destruct (Z.ltb_spec a 0); [lia|].
  destruct (Z.ltb_spec (ALL_ONES v) a); [lia|]. reflexivity.
Qed.

Lemma check_int_address_high v a :
  ALL_ONES v < a -> check_int_address v a = Raise AddressValueError.
Proof.
  intros Ha. unfold check_int_address.
  destruct (Z.ltb_spec a 0); [reflexivity|].
  destruct (Z.ltb_spec (ALL_ONES v) a); [reflexivity|lia].
Qed.

Lemma make_network_ok strict v a p :
  valid_network (mkNet v a p) -> make_network strict v a p = Ok (mkNet v a p).
Proof.
  intros (Hp & Ha & Hal). simpl in *. unfold make_network.
  rewrite check_int_address_ok by assumption. simpl.
  destruct (Z.leb_spec 0 p); [|lia].
  destruct (Z.leb_spec p (max_prefixlen v)); [|lia]. simpl.
  unfold netmask in Hal. simpl in Hal. rewrite Hal, Z.eqb_refl. reflexivity.
Qed.

Lemma make_network_strict_inv v a p n :
  make_network true v a p = Ok n -> n = mkNet v a p /\ valid_network n.
Proof.
  unfold make_network, check_int_address.
  destruct (Z.ltb_spec a 0); [discriminate|].
  destruct (Z.ltb_spec (ALL_ONES v) a); [discriminate|]. simpl.
  destruct (Z.leb_spec 0 p); [|discriminate].
  destruct (Z.leb_spec p (max_prefixlen v)); [|discriminate]. simpl.
  destruct (Z.eqb_spec (Z.land a (ip_int_from_prefix v p)) a) as [He|]; [|discriminate].
  intros [= <-]. split; [reflexivity|].
  unfold valid_network, netmask. simpl. repeat split; solve [lia | exact He].
Qed.

Lemma ALL_ONES_value v : ALL_ONES v = 2 ^ max_prefixlen v - 1.
Proof. reflexivity. Qed.

Lemma aligned_block_below a b t :
  0 < b -> (b | a) -> (b | t) -> a < t -> a + b <= t.
Proof.
  intros Hb [k ->] [m ->] Hlt.
  assert (k < m) by nia.
  assert ((k + 1) * b <= m * b) by (apply Z.mul_le_mono_nonneg_r; lia).
  lia.
Qed.

Lemma block_of_divides_space n :
  0 <= prefixlen n <= max_prefixlen (net_version n) ->
  (block_of n | 2 ^ max_prefixlen (net_version n)).
Proof.
  intros Hp. exists (2 ^ prefixlen n). unfold block_of.
  rewrite <- Z.pow_add_r by lia. f_equal. lia.
Qed.

Lemma valid_network_top n :
  valid_network n ->
  network_address n + block_of n <= 2 ^ max_prefixlen (net_version n).
Proof.
  intros Hv. apply valid_network_aligned in Hv. destruct Hv as (Hp & Ha & Hal).
  apply aligned_block_below.
  - apply block_of_pos. lia.
  - apply Z.mod_divide; [|exact Hal]. pose proof (block_of_pos n). lia.
  - now apply block_of_divides_space.
  - unfold ALL_ONES in Ha. lia.
Qed.

(** * Host range and host count *)

Lemma print_network_info_lt31 n :
  net_version n = V4 -> valid_network n -> prefixlen n < 31 ->
  print_network_info n =
    Ok (mkInfo [("Network"%string, network_address n);
                ("HostMin"%string, network_address n + 1);
                ("HostMax"%string, broadcast_address n - 1);
                ("Broadcast"%string, broadcast_address n)]
               (num_addresses n - 2) (get_class (network_address n))).
Proof.
  intros H4 Hv Hp.
  pose proof (broadcast_value n Hv) as Hb.
  pose proof (num_addresses_value n Hv) as Hn.
  pose proof Hv as Hv0.
  apply valid_network_aligned in Hv. destruct Hv as (Hpr & Ha & Hal).
  assert (Hblk : 4 <= block_of n).
  { unfold block_of. rewrite H4. simpl.
    change 4 with (2 ^ 2). apply Z.pow_le_mono_r; lia. }
  assert (Htop : network_address n + block_of n <= 2 ^ 32).
  { pose proof (valid_network_top n Hv0) as Ht. rewrite H4 in Ht. exact Ht. }
  unfold print_network_info, address_add, address_sub.
  destruct (Z.ltb_spec (prefixlen n) 31); [|lia].
  rewrite !check_int_address_ok by (rewrite H4; unfold ALL_ONES; simpl max_prefixlen; lia).
  simpl. destruct (Z.ltb_spec (num_addresses n - 2) 0); [lia|]. reflexivity.
Qed.

Lemma print_network_info_31 n :
  net_version n = V4 -> valid_network n -> prefixlen n = 31 ->
  print_network_info n =
    Ok (mkInfo [("Network"%string, network_address n);
                ("HostMin"%string, network_address n);
                ("HostMax"%string, broadcast_address n)]
               2 (get_class (network_address n)))
  /\ broadcast_address n = network_address n + 1.
Proof.
  intros H4 Hv Hp.
  pose proof (broadcast_value n Hv) as Hb.
  pose proof (num_addresses_value n Hv) as Hn.
  assert (Hblk : block_of n = 2) by (unfold block_of; rewrite H4, Hp; reflexivity).
  unfold print_network_info. rewrite Hp. simpl. rewrite Hn, Hblk. simpl.
  split; [reflexivity | lia].
Qed.

Lemma print_network_info_32 n :
  net_version n = V4 -> valid_network n -> prefixlen n = 32 ->
  print_network_info n =
    Ok (mkInfo [("Network"%string, network_address n)] 1
               (get_class (network_address n))).
Proof.
  intros H4 Hv Hp.
  pose proof (num_addresses_value n Hv) as Hn.
  assert (Hblk : block_of n = 1) by (unfold block_of; rewrite H4, Hp; reflexivity).
  unfold print_network_info. rewrite Hp. simpl. rewrite Hn, Hblk. reflexivity.
Qed.

(** C7: for an IPv4 network with prefix below 31 the host count is the
    address count minus two, it is not negative, and the usable range runs
    from network+1 to broadcast-1; with prefix 31 both end points are usable
    and the count is 2; with prefix 32 the count is 1 and no host range is
    printed. *)
Theorem host_range_and_count (n : IPNetwork) :
  net_version n = V4 -> valid_network n ->
  exists info,
    print_network_info n = Ok info /\
    (prefixlen n < 31 ->
       hosts_count info = num_addresses n - 2 /\ 0 <= hosts_count info /\
       info_lines info = [("Network"%string, network_address n);
                          ("HostMin"%string, network_address n + 1);
                          ("HostMax"%string, broadcast_address n - 1);
                          ("Broadcast"%string, broadcast_address n)]) /\
    (prefixlen n = 31 ->
       hosts_count info = 2 /\
       broadcast_address n = network_address n + 1 /\
       info_lines info = [("Network"%string, network_address n);
                          ("HostMin"%string, network_address n);
                          ("HostMax"%string, broadcast_address n)]) /\
    (prefixlen n = 32 ->
       hosts_count info = 1 /\
       info_lines info = [("Network"%string, network_address n)]).
Proof.
  intros H4 Hv.
  assert (Hp : prefixlen n <= 32) by (destruct Hv as ((_ & H) & _); rewrite H4 in H; exact H).
  destruct (Z_lt_le_dec (prefixlen n) 31) as [Hlt|Hge].
  - eexists. split; [apply print_network_info_lt31; assumption|].
    simpl. split; [|split]; intros; try lia.
    split; [reflexivity|]. split; [|reflexivity].
    rewrite num_addresses_value by assumption.
    unfold block_of. rewrite H4. simpl max_prefixlen.
    assert (2 ^ 2 <= 2 ^ (32 - prefixlen n)) by (apply Z.pow_le_mono_r; lia).
    lia.
  - destruct (Z.eq_dec (prefixlen n) 31) as [H31|Hne].
    + destruct (print_network_info_31 n H4 Hv H31) as [Hi Hb].
      eexists. split; [exact Hi|]. simpl.
      split; [|split]; intros; try lia. auto.
    + assert (H32 : prefixlen n = 32) by lia.
      eexists. split; [apply print_network_info_32; assumption|]. simpl.
      split; [|split]; intros; try lia. auto.
Qed.

Lemma host_range_and_count_witness :
  exists info,
    print_network_info (mkNet V4 3232235520 24) = Ok info /\
    (24 < 31 ->
       hosts_count info = num_addresses (mkNet V4 3232235520 24) - 2 /\
       0 <= hosts_count info /\
       info_lines info = [("Network"%string, 3232235520);
                          ("HostMin"%string, 3232235520 + 1);
                          ("HostMax"%string, broadcast_address (mkNet V4 3232235520 24) - 1);
                          ("Broadcast"%string, broadcast_address (mkNet V4 3232235520 24))]) /\
    (24 = 31 ->
       hosts_count info = 2 /\
       broadcast_address (mkNet V4 3232235520 24) = 3232235520 + 1 /\
       info_lines info = [("Network"%string, 3232235520);
                          ("HostMin"%string, 3232235520);
                          ("HostMax"%string, broadcast_address (mkNet V4 3232235520 24))]) /\
    (24 = 32 ->
       hosts_count info = 1 /\
       info_lines info = [("Network"%string, 3232235520)]).
Proof.
  apply (host_range_and_count (mkNet V4 3232235520 24)).
  - reflexivity.
  - concrete_network.
Defined.

(** * Address classes *)

Section Classes.
#[local] Arguments get_class : simpl never.
#[local] Arguments classful_suffix : simpl never.

Lemma octets_agree : forallb octet_agrees (seq 0 256) = true.
Proof. vm_compute. reflexivity. Qed.

Lemma class_of_octet_bits o :
  0 <= o < 256 ->
  class_of_octet o =
  class_of_bits (Z.testbit o 7) (Z.testbit o 6) (Z.testbit o 5) (Z.testbit o 4).
Proof.
  intros Ho.
  pose proof octets_agree as H. rewrite forallb_forall in H.
  specialize (H (Z.to_nat o)).
  assert (Hin : In (Z.to_nat o) (seq 0 256)) by (apply in_seq; lia).
  apply H in Hin. unfold octet_agrees in Hin.
  rewrite Z2Nat.id in Hin by lia.
  destruct (class_of_octet o), (class_of_bits _ _ _ _); congruence.
Qed.

Lemma first_octet_range a : 0 <= first_octet a < 256.
Proof.
  unfold first_octet. change 255 with (Z.ones 8).
  rewrite Z.land_ones by lia. apply Z.mod_pos_bound. lia.
Qed.

Lemma first_octet_testbit a i :
  0 <= i < 8 -> Z.testbit (first_octet a) i = Z.testbit a (i + 24).
Proof.
  intros Hi. unfold first_octet. change 255 with (Z.ones 8).
  rewrite Z.land_spec, Z.shiftr_spec, Z.testbit_ones_nonneg by lia.
  destruct (Z.ltb_spec i 8); [|lia]. apply andb_true_r.
Qed.

Lemma get_class_bits a :
  get_class a =
  class_of_bits (Z.testbit a 31) (Z.testbit a 30) (Z.testbit a 29) (Z.testbit a 28).
Proof.
  change (get_class a) with (class_of_octet (first_octet a)).
  rewrite class_of_octet_bits by apply first_octet_range.
  rewrite !first_octet_testbit by lia. reflexivity.
Qed.

(** The classes of the five addresses the specification lists. *)
Example address_class_examples :
  get_class 167772161 = ClassA /\    (* 10.0.0.1 *)
  get_class 2886729729 = ClassB /\   (* 172.16.0.1 *)
  get_class 3232235777 = ClassC /\   (* 192.168.1.1 *)
  get_class 3758096385 = ClassD /\   (* 224.0.0.1 *)
  get_class 4026531841 = ClassE.     (* 240.0.0.1 *)
Proof. repeat split; vm_compute; reflexivity. Qed.

Lemma before_slash_no_slash s : has_slash s = false -> before_slash s = s.
Proof.
  induction s as [|c s IH]; simpl; [reflexivity|].
  destruct (Ascii.eqb c "/"); [discriminate|]. intros H. now rewrite IH.
Qed.

(** C8: an IPv4 address given without a prefix gets /8 when its first bit is
    0, /16 when its leading bits are 10 and /24 in every other case; that
    suffix is what [main] appends before it builds the network. *)
Theorem classful_default_prefix (T : text_layer) (p0 : string) (a : Z) :
  has_slash p0 = false ->
  ip_address T p0 = Some (mkAddr V4 a) ->
  let c := get_class a in
  (Z.testbit a 31 = false -> classful_suffix c = "/8"%string /\ classful_prefix c = 8) /\
  (Z.testbit a 31 = true -> Z.testbit a 30 = false ->
     classful_suffix c = "/16"%string /\ classful_prefix c = 16) /\
  (Z.testbit a 31 = true -> Z.testbit a 30 = true ->
     classful_suffix c = "/24"%string /\ classful_prefix c = 24) /\
  resolve_address T [p0] =
    (initial_network <- parsed TextParseError
                          (ip_network_loose T (p0 ++ classful_suffix c)%string) ;;
     Ok (Resolved4 initial_network (mkAddr V4 a) None)).
Proof.
  intros Hs Hp c. subst c. rewrite get_class_bits.
  split; [|split; [|split]].
  - intros ->. split; reflexivity.
  - intros -> ->. split; reflexivity.
  - intros -> ->.
    generalize (Z.testbit a 29), (Z.testbit a 28).
    intros [|] [|]; split; reflexivity.
  - rewrite <- get_class_bits. unfold resolve_address.
    change (nth 0 [p0] EmptyString) with p0.
    rewrite before_slash_no_slash by assumption.
    rewrite Hp. simpl. rewrite Hs. reflexivity.
Qed.

Lemma classful_default_prefix_witness :
  let c := get_class 167772161 in
  (Z.testbit 167772161 31 = false ->
     classful_suffix c = "/8"%string /\ classful_prefix c = 8) /\
  (Z.testbit 167772161 31 = true -> Z.testbit 167772161 30 = false ->
     classful_suffix c = "/16"%string /\ classful_prefix c = 16) /\
  (Z.testbit 167772161 31 = true -> Z.testbit 167772161 30 = true ->
     classful_suffix c = "/24"%string /\ classful_prefix c = 24) /\
  resolve_address text_layer_example ["10.0.0.1"%string] =
    (initial_network <- parsed TextParseError
                          (ip_network_loose text_layer_example
                             ("10.0.0.1" ++ classful_suffix c)%string) ;;
     Ok (Resolved4 initial_network (mkAddr V4 167772161) None)).
Proof.
  apply (classful_default_prefix text_layer_example "10.0.0.1"%string 167772161).
  - reflexivity.
  - reflexivity.
Defined.
End Classes.

(** * VLSM allocation *)

(** ** Block sizes *)

Lemma rounded_block_pos h : 0 < rounded_block h.
Proof. apply Z.pow_pos_nonneg; [lia | apply Z.log2_up_nonneg]. Qed.

Lemma rounded_block_holds h : h + 2 <= rounded_block h.
Proof.
  unfold rounded_block.
  destruct (Z_lt_le_dec 1 (h + 2)) as [H|H].
  - apply Z.log2_up_spec in H. lia.
  - pose proof (Z.log2_up_nonneg (h + 2)).
    assert (0 < 2 ^ Z.log2_up (h + 2)) by (apply Z.pow_pos_nonneg; lia). lia.
Qed.

Lemma rounded_block_least h k :
  -1 <= h -> 0 <= k -> h + 2 <= 2 ^ k -> rounded_block h <= 2 ^ k.
Proof.
  intros Hh Hk Hle. unfold rounded_block.
  apply Z.pow_le_mono_r; [lia|].
  destruct (Z.eq_dec (h + 2) 1) as [->|Hne]; [change (Z.log2_up 1) with 0; lia|].
  apply Z.log2_up_le_pow2; lia.
Qed.

Lemma ceil_log2_ok n : 0 < n -> ceil_log2 n = Ok (Z.log2_up n).
Proof. intros H. unfold ceil_log2. destruct (Z.leb_spec n 0); [lia|reflexivity]. Qed.

Lemma ceil_log2_domain n : n <= 0 -> ceil_log2 n = Raise MathDomainError.
Proof. intros H. unfold ceil_log2. destruct (Z.leb_spec n 0); [reflexivity|lia]. Qed.

Lemma int_log2_pow2 k : 0 <= k -> int_log2 (2 ^ k) = Ok k.
Proof.
  intros Hk. unfold int_log2.
  assert (0 < 2 ^ k) by (apply Z.pow_pos_nonneg; lia).
  destruct (Z.leb_spec (2 ^ k) 0); [lia|]. now rewrite Z.log2_pow2.
Qed.

(** ** The list of needed blocks *)

Lemma needed_blocks_from_ok sizes : forall i,
  Forall (fun h => -1 <= h) sizes ->
  needed_blocks_from i sizes = Ok (imap (fun k h => block_for (i + k) h) sizes).
Proof.
  induction sizes as [|h sizes IH]; intros i Hall; [reflexivity|].
  inversion Hall as [|? ? Hh Hrest]; subst. cbv beta in Hh.
  cbn [needed_blocks_from]. rewrite ceil_log2_ok by lia. cbn [rbind].
  rewrite IH by assumption. cbn [rbind imap].
  unfold block_for at 1. rewrite Nat.add_0_r. do 2 f_equal.
  apply imap_ext. intros k x _. simpl. unfold block_for. f_equal. lia.
Qed.

Lemma needed_blocks_from_domain sizes : forall i,
  Exists (fun h => h <= -2) sizes ->
  needed_blocks_from i sizes = Raise MathDomainError.
Proof.
  induction sizes as [|h sizes IH]; intros i Hex; [inversion Hex|].
  cbn [needed_blocks_from].
  destruct (Z_le_gt_dec (h + 2) 0) as [Hle|Hgt].
  - now rewrite ceil_log2_domain.
  - rewrite ceil_log2_ok by lia. cbn [rbind].
    inversion Hex as [? ? Hh|? ? Hrest]; subst; [cbv beta in Hh; lia|].
    now rewrite IH.
Qed.

Lemma imap_block_sizes sizes i :
  map original_size (imap (fun k h => block_for (i + k) h) sizes) = sizes.
Proof.
  revert i. induction sizes as [|h sizes IH]; intros i; [reflexivity|].
  cbn [imap map]. f_equal. simpl.
  rewrite <- (IH (S i)) at 2. f_equal. apply imap_ext. intros k x _. simpl. unfold block_for. f_equal. lia.
Qed.

Lemma imap_block_indices sizes i :
  map original_index (imap (fun k h => block_for (i + k) h) sizes)
  = seq i (length sizes).
Proof.
  revert i. induction sizes as [|h sizes IH]; intros i; [reflexivity|].
  cbn [imap map length seq]. f_equal; [simpl; lia|].
  rewrite <- (IH (S i)). f_equal. apply imap_ext. intros k x _. simpl. unfold block_for. f_equal. lia.
Qed.

Lemma imap_block_lookup sizes i k b :
  imap (fun k h => block_for (i + k) h) sizes !! k = Some b ->
  exists h, sizes !! k = Some h /\ b = block_for (i + k) h.
Proof.
  rewrite list_lookup_imap. destruct (sizes !! k) as [h|]; simpl; [|discriminate].
  intros [= <-]. eauto.
Qed.

Lemma sum_imap_blocks sizes i :
  sum_block_sizes (imap (fun k h => block_for (i + k) h) sizes) = total_rounded sizes.
Proof.
  revert i. induction sizes as [|h sizes IH]; intros i; [reflexivity|].
  cbn [imap]. unfold sum_block_sizes, total_rounded in *. cbn [foldr].
  rewrite <- (IH (S i)). simpl. do 2 f_equal.
  apply imap_ext. intros k x _. simpl. unfold block_for. f_equal. lia.
Qed.

(** ** Sorting *)

Lemma insert_block_perm b l : Permutation (insert_block b l) (b :: l).
Proof.
  induction l as [|c l IH]; [reflexivity|]. simpl.
  destruct (block_size b <? block_size c); [|reflexivity].
  rewrite IH. apply perm_swap.
Qed.

Lemma sort_blocks_perm l : Permutation (sort_blocks l) l.
Proof.
  induction l as [|b l IH]; [reflexivity|].
  unfold sort_blocks in *. cbn [foldr]. rewrite insert_block_perm.
  now constructor.
Qed.

Lemma insert_block_sorted b l :
  StronglySorted larger_first l -> StronglySorted larger_first (insert_block b l).
Proof.
  induction 1 as [|c l Hs IH Hall]; simpl.
  - constructor; constructor.
  - destruct (Z.ltb_spec (block_size b) (block_size c)) as [Hlt|Hge].
    + constructor; [exact IH|].
      rewrite (Forall_forall (larger_first c)).
      intros x Hx. apply list_elem_of_In in Hx.
      apply (Permutation_in _ (insert_block_perm b l)) in Hx.
      destruct Hx as [<-|Hx]; [unfold larger_first; lia|].
      rewrite (Forall_forall (larger_first c)) in Hall. apply Hall.
      now apply list_elem_of_In.
    + constructor; [now constructor|].
      constructor; [exact Hge|].
      eapply Forall_impl; [exact Hall|]. unfold larger_first. simpl. intros; lia.
Qed.

Lemma sort_blocks_sorted l : StronglySorted larger_first (sort_blocks l).
Proof.
  induction l as [|b l IH]; [constructor|].
  unfold sort_blocks in *. cbn [foldr]. now apply insert_block_sorted.
Qed.

Lemma sum_block_sizes_perm l l' :
  Permutation l l' -> sum_block_sizes l = sum_block_sizes l'.
Proof.
  unfold sum_block_sizes.
  induction 1; simpl; lia.
Qed.

(** ** Placement *)

Lemma pow2_block_pos b : pow2_block b -> 0 < block_size b.
Proof. intros (k & Hk & ->). apply Z.pow_pos_nonneg; lia. Qed.

Lemma pow2_block_divides a b :
  pow2_block a -> pow2_block b -> block_size b <= block_size a ->
  (block_size b | block_size a).
Proof.
  intros (ka & Hka & Ha) (kb & Hkb & Hb) Hle. rewrite Ha, Hb in *.
  assert (kb <= ka).
  { destruct (Z_le_gt_dec kb ka) as [|Hgt]; [assumption|].
    assert (2 ^ ka < 2 ^ kb) by (apply Z.pow_lt_mono_r; lia). lia. }
  exists (2 ^ (ka - kb)). rewrite <- Z.pow_add_r by lia. f_equal. lia.
Qed.

Lemma sum_block_sizes_nonneg l : Forall pow2_block l -> 0 <= sum_block_sizes l.
Proof.
  induction 1 as [|b l Hb _ IH]; simpl; [lia|].
  apply pow2_block_pos in Hb. unfold sum_block_sizes in *. simpl. lia.
Qed.

Lemma sum_block_sizes_cons b l :
  sum_block_sizes (b :: l) = block_size b + sum_block_sizes l.
Proof. reflexivity. Qed.

Lemma sum_block_sizes_app l1 l2 :
  sum_block_sizes (l1 ++ l2) = sum_block_sizes l1 + sum_block_sizes l2.
Proof.
  induction l1 as [|b l1 IH]; [reflexivity|].
  cbn [app]. rewrite !sum_block_sizes_cons, IH. lia.
Qed.

Lemma sum_block_sizes_divide d l :
  Forall (fun b => (d | block_size b)) l -> (d | sum_block_sizes l).
Proof.
  induction 1 as [|b l Hb _ IH].
  - apply Z.divide_0_r.
  - rewrite sum_block_sizes_cons. now apply Z.divide_add_r.
Qed.

Lemma placed_network_valid cur k :
  0 <= k <= 32 -> 0 <= cur <= ALL_ONES V4 -> (2 ^ k | cur) ->
  valid_network (mkNet V4 cur (32 - k)).
Proof.
  intros Hk Hc Hd. apply valid_network_aligned. simpl.
  repeat split; try lia.
  unfold block_of. simpl. replace (32 - (32 - k)) with k by lia.
  apply Z.mod_divide; [|assumption].
  assert (0 < 2 ^ k) by (apply Z.pow_pos_nonneg; lia). lia.
Qed.

Lemma ip_network_v4_ok cur p :
  valid_network (mkNet V4 cur p) -> ip_network_v4 cur p = Ok (mkNet V4 cur p).
Proof. intros Hv. unfold ip_network_v4. now rewrite make_network_ok. Qed.

Lemma list_assign_ok {A} (l : list A) i x :
  (i < length l)%nat -> list_assign l i x = Ok (<[i := x]> l).
Proof.
  intros Hi. unfold list_assign.
  destruct (Nat.ltb_spec i (length l)); [reflexivity|lia].
Qed.

(** The loop succeeds on a sorted list of power-of-two blocks that starts
    aligned and stays below the last address of the family. *)
Lemma place_blocks_ok blocks : forall cur alloc,
  Forall pow2_block blocks ->
  StronglySorted larger_first blocks ->
  Forall (fun b => (block_size b | cur)) blocks ->
  Forall (fun b => (original_index b < length alloc)%nat) blocks ->
  0 <= cur -> cur + sum_block_sizes blocks <= ALL_ONES V4 ->
  place_blocks blocks cur alloc = Ok (assign_all alloc (placements cur blocks)).
Proof.
  induction blocks as [|b rest IH]; intros cur alloc Hpow Hsort Hdiv Hidx Hcur Htop;
    [reflexivity|].
  inversion Hpow as [|? ? Hb Hpow']; subst.
  inversion Hsort as [|? ? Hsort' Hle]; subst.
  inversion Hdiv as [|? ? Hdb Hdiv']; subst.
  inversion Hidx as [|? ? Hib Hidx']; subst.
  cbv beta in Hdb, Hib.
  pose proof (sum_block_sizes_nonneg rest Hpow') as Hnn.
  pose proof (pow2_block_pos b Hb) as Hbpos.
  rewrite sum_block_sizes_cons in Htop.
  destruct Hb as (k & Hk & Hbk).
  cbn [place_blocks placements]. rewrite Hbk at 1.
  rewrite int_log2_pow2 by lia. cbn [rbind].
  rewrite ip_network_v4_ok
    by (apply placed_network_valid; [lia | lia | rewrite <- Hbk; assumption]).
  cbn [rbind]. rewrite list_assign_ok by assumption. cbn [rbind].
  unfold address_add. rewrite check_int_address_ok by lia. cbn [rbind].
  rewrite IH; try assumption; try lia.
  - unfold assign_all. cbn [foldl fst snd].
    rewrite Hbk, Z.log2_pow2 by lia. reflexivity.
  - rewrite Forall_forall in *. intros x Hx.
    apply Z.divide_add_r; [now apply Hdiv'|].
    apply pow2_block_divides; [exists k; split; [lia|assumption] | now apply Hpow' | now apply Hle].
  - rewrite length_insert. assumption.
Qed.

(** When the blocks end exactly at the top of the address space, the cursor
    is advanced past the last address after the last block is placed, and
    the address constructor raises. *)
Lemma place_blocks_overflow blocks : forall cur alloc,
  blocks <> [] ->
  Forall pow2_block blocks ->
  StronglySorted larger_first blocks ->
  Forall (fun b => (block_size b | cur)) blocks ->
  Forall (fun b => (original_index b < length alloc)%nat) blocks ->
  0 <= cur -> cur + sum_block_sizes blocks = ALL_ONES V4 + 1 ->
  place_blocks blocks cur alloc = Raise AddressValueError.
Proof.
  induction blocks as [|b rest IH]; intros cur alloc Hne Hpow Hsort Hdiv Hidx Hcur Htop;
    [congruence|].
  inversion Hpow as [|? ? Hb Hpow']; subst.
  inversion Hsort as [|? ? Hsort' Hle]; subst.
  inversion Hdiv as [|? ? Hdb Hdiv']; subst.
  inversion Hidx as [|? ? Hib Hidx']; subst.
  cbv beta in Hdb, Hib.
  pose proof (sum_block_sizes_nonneg rest Hpow') as Hnn.
  pose proof (pow2_block_pos b Hb) as Hbpos.
  rewrite sum_block_sizes_cons in Htop.
  destruct Hb as (k & Hk & Hbk).
  cbn [place_blocks]. rewrite Hbk at 1.
  rewrite int_log2_pow2 by lia. cbn [rbind].
  rewrite ip_network_v4_ok
    by (apply placed_network_valid; [lia | lia | rewrite <- Hbk; assumption]).
  cbn [rbind]. rewrite list_assign_ok by assumption. cbn [rbind].
  unfold address_add.
  destruct rest as [|c rest'].
  - unfold sum_block_sizes in Htop. simpl in Htop.
    rewrite check_int_address_high by lia. reflexivity.
  - assert (0 < block_size c)
      by (apply pow2_block_pos; inversion Hpow'; assumption).
    rewrite sum_block_sizes_cons in Htop, Hnn.
    pose proof (sum_block_sizes_nonneg rest' ltac:(inversion Hpow'; assumption)).
    rewrite check_int_address_ok by lia. cbn [rbind].
    apply IH; try assumption; try lia; try congruence.
    + rewrite Forall_forall in *. intros x Hx.
      apply Z.divide_add_r; [now apply Hdiv'|].
      apply pow2_block_divides; [exists k; split; [lia|assumption] | now apply Hpow' | now apply Hle].
    + rewrite length_insert. assumption.
    + rewrite sum_block_sizes_cons. lia.
Qed.

Lemma placements_lookup blocks : forall cur j,
  placements cur blocks !! j =
  (fun b => (b, mkNet V4 (cur + sum_block_sizes (take j blocks))
                     (32 - Z.log2 (block_size b)))) <$> blocks !! j.
Proof.
  induction blocks as [|b rest IH]; intros cur j; [now destruct j|].
  destruct j as [|j]; cbn [placements take].
  - simpl. unfold sum_block_sizes. simpl. now rewrite Z.add_0_r.
  - change ((?x :: ?l) !! S j) with (l !! j). rewrite IH.
    destruct (rest !! j); simpl; [|reflexivity].
    unfold sum_block_sizes. simpl. do 3 f_equal. lia.
Qed.

Lemma placements_length cur blocks : length (placements cur blocks) = length blocks.
Proof. revert cur. induction blocks; intros; simpl; [reflexivity|]. now rewrite IHblocks. Qed.

Lemma placements_fst cur blocks : map fst (placements cur blocks) = blocks.
Proof. revert cur. induction blocks; intros; simpl; [reflexivity|]. now rewrite IHblocks. Qed.

Lemma assign_all_length alloc ps : length (assign_all alloc ps) = length alloc.
Proof.
  revert alloc. induction ps as [|p ps IH]; intros alloc; [reflexivity|].
  unfold assign_all in *. cbn [foldl]. now rewrite IH, length_insert.
Qed.

Lemma assign_all_other ps : forall alloc (i : nat),
  i ∉ map (fun p => original_index (fst p)) ps ->
  assign_all alloc ps !! i = alloc !! i.
Proof.
  induction ps as [|p ps IH]; intros alloc i Hi; [reflexivity|].
  unfold assign_all in *. cbn [foldl]. cbn [map] in Hi.
  apply not_elem_of_cons in Hi. destruct Hi as [Hne Hi].
  rewrite IH by assumption. now apply list_lookup_insert_ne.
Qed.

Lemma assign_all_lookup ps : forall alloc (j : nat) b n,
  NoDup (map (fun p => original_index (fst p)) ps) ->
  ps !! j = Some (b, n) ->
  (original_index b < length alloc)%nat ->
  assign_all alloc ps !! original_index b = Some (Some n).
Proof.
  induction ps as [|p ps IH]; intros alloc j b n Hnd Hj Hlen; [now destruct j|].
  cbn [map] in Hnd. apply NoDup_cons in Hnd. destruct Hnd as [Hnotin Hnd].
  unfold assign_all in *. cbn [foldl].
  destruct j as [|j].
  - injection Hj as ->. cbn [fst snd] in *.
    fold (assign_all (<[original_index b := Some n]> alloc) ps).
    rewrite assign_all_other by assumption.
    now apply list_lookup_insert_eq.
  - eapply IH; [assumption | exact Hj | now rewrite length_insert].
Qed.

(** A list of filled slots is a list of networks. *)
Lemma all_filled {A} (l : list (option A)) :
  (forall (i : nat), (i < length l)%nat -> exists a, l !! i = Some (Some a)) ->
  exists l', l = map Some l'.
Proof.
  induction l as [|o l IH]; intros H; [now exists []|].
  destruct (H 0%nat) as [a Ha]; [simpl; lia|]. injection Ha as ->.
  destruct IH as [l' ->].
  { intros i Hi. apply (H (S i)). simpl. lia. }
  now exists (a :: l').
Qed.

Lemma print_network_info_total n :
  net_version n = V4 -> valid_network n -> exists info, print_network_info n = Ok info.
Proof.
  intros H4 Hv.
  assert (Hp : prefixlen n <= 32)
    by (destruct Hv as ((_ & H) & _); rewrite H4 in H; exact H).
  destruct (Z_lt_le_dec (prefixlen n) 31) as [Hlt|Hge].
  - eexists. now apply print_network_info_lt31.
  - destruct (Z.eq_dec (prefixlen n) 31) as [H31|Hne].
    + eexists. now apply print_network_info_31.
    + eexists. apply print_network_info_32; [assumption..|lia].
Qed.

Lemma print_allocated_ok nets : forall i sizes,
  length sizes = length nets ->
  Forall (fun n => net_version n = V4 /\ valid_network n) nets ->
  exists entries,
    print_allocated i sizes (map Some nets) = Ok entries /\
    map entry_subnet entries = nets /\
    map requested_size entries = sizes /\
    map entry_number entries = map (fun k => Z.of_nat k + 1) (seq i (length nets)) /\
    Forall (fun e => entry_block e = num_addresses (entry_subnet e) /\
                     print_network_info (entry_subnet e) = Ok (entry_info e)) entries.
Proof.
  induction nets as [|n nets IH]; intros i sizes Hlen Hall.
  - destruct sizes; [|discriminate]. exists []. repeat split; constructor.
  - destruct sizes as [|s sizes]; [discriminate|].
    inversion Hall as [|? ? [H4 Hv] Hall']; subst.
    destruct (print_network_info_total n H4 Hv) as [info Hinfo].
    destruct (IH (S i) sizes) as (es & Hes & Hsub & Hreq & Hnum & Hblk);
      [simpl in Hlen; lia | assumption |].
    exists (mkEntry (Z.of_nat i + 1) s n (num_addresses n) info :: es).
    cbn [print_allocated map rbind tl]. rewrite Hinfo. cbn [rbind].
    rewrite Hes. cbn [rbind]. simpl. rewrite Hsub, Hreq, Hnum.
    repeat split. constructor; [split; [reflexivity|assumption]|assumption].
Qed.

Lemma strongly_sorted_lookup {A} (R : A -> A -> Prop) (l : list A) :
  StronglySorted R l ->
  forall (i j : nat) a b, (i < j)%nat -> l !! i = Some a -> l !! j = Some b -> R a b.
Proof.
  induction 1 as [|x l Hs IH Hall]; intros i j a b Hij Hi Hj; [now destruct i|].
  destruct j as [|j]; [lia|]. cbn in Hj.
  destruct i as [|i].
  - injection Hi as ->. rewrite Forall_forall in Hall. apply Hall.
    eapply list_elem_of_lookup_2. exact Hj.
  - cbn in Hi. eapply (IH i j); [lia | exact Hi | exact Hj].
Qed.

Lemma sum_take_le blocks (j : nat) b :
  Forall pow2_block blocks -> blocks !! j = Some b ->
  sum_block_sizes (take j blocks) + block_size b <= sum_block_sizes blocks.
Proof.
  intros Hpow Hj.
  rewrite <- (take_drop_middle blocks j b Hj) at 2.
  rewrite sum_block_sizes_app, sum_block_sizes_cons.
  assert (0 <= sum_block_sizes (drop (S j) blocks)).
  { apply sum_block_sizes_nonneg. now apply Forall_drop. }
  lia.
Qed.

Lemma sum_take_mono blocks (j1 j2 : nat) b1 :
  Forall pow2_block blocks -> (j1 < j2)%nat -> blocks !! j1 = Some b1 ->
  sum_block_sizes (take j1 blocks) + block_size b1 <= sum_block_sizes (take j2 blocks).
Proof.
  intros Hpow Hlt Hj1.
  assert (Hj1' : take j2 blocks !! j1 = Some b1) by (rewrite lookup_take_lt; assumption).
  pose proof (sum_take_le (take j2 blocks) j1 b1) as H.
  rewrite take_take in H. replace (j1 `min` j2)%nat with j1 in H by lia.
  apply H; [|assumption]. now apply Forall_take.
Qed.

(** What the loop guarantees for the block at position [j] of the sorted
    list. *)
Lemma placement_props blocks cur (j : nat) b :
  Forall pow2_block blocks ->
  StronglySorted larger_first blocks ->
  Forall (fun c => (block_size c | cur)) blocks ->
  0 <= cur -> cur + sum_block_sizes blocks <= ALL_ONES V4 ->
  blocks !! j = Some b ->
  let n := mkNet V4 (cur + sum_block_sizes (take j blocks))
                 (32 - Z.log2 (block_size b)) in
  valid_network n /\ block_of n = block_size b /\
  cur <= network_address n /\
  network_address n + block_size b <= cur + sum_block_sizes blocks.
Proof.
  intros Hpow Hsort Hdiv Hcur Htop Hj n.
  pose proof (sum_take_le blocks j b Hpow Hj) as Hle.
  assert (Hb : pow2_block b).
  { rewrite Forall_forall in Hpow. apply Hpow. eapply list_elem_of_lookup_2. exact Hj. }
  pose proof (pow2_block_pos b Hb) as Hbpos.
  assert (Hnn : 0 <= sum_block_sizes (take j blocks)).
  { apply sum_block_sizes_nonneg. now apply Forall_take. }
  assert (Hd : (block_size b | cur + sum_block_sizes (take j blocks))).
  { apply Z.divide_add_r.
    - rewrite Forall_forall in Hdiv. apply Hdiv. eapply list_elem_of_lookup_2. exact Hj.
    - apply sum_block_sizes_divide. rewrite Forall_forall. intros c Hc.
      apply list_elem_of_lookup in Hc. destruct Hc as [i Hi].
      apply lookup_take_Some in Hi. destruct Hi as [Hi Hlt].
      apply pow2_block_divides; [|assumption|].
      + rewrite Forall_forall in Hpow. apply Hpow. eapply list_elem_of_lookup_2. exact Hi.
      + apply (strongly_sorted_lookup _ _ Hsort i j c b Hlt Hi Hj). }
  destruct Hb as (k & Hk & Hbk).
  subst n. rewrite Hbk in *. rewrite Z.log2_pow2 by lia.
  split; [apply placed_network_valid; [lia | lia | assumption]|].
  split; [unfold block_of; simpl; f_equal; lia|].
  simpl. lia.
Qed.

Lemma rounded_le_total sizes h :
  h ∈ sizes -> rounded_block h <= total_rounded sizes.
Proof.
  induction sizes as [|s sizes IH]; intros Hin; [now apply elem_of_nil in Hin|].
  unfold total_rounded in *. cbn [foldr].
  assert (Hnn : 0 <= foldr (fun h acc => rounded_block h + acc) 0 sizes).
  { clear. induction sizes as [|x l IHl]; simpl; [lia|].
    pose proof (rounded_block_pos x). lia. }
  pose proof (rounded_block_pos s).
  apply elem_of_cons in Hin. destruct Hin as [->|Hin]; [lia|].
  specialize (IH Hin). lia.
Qed.

Lemma pow2_le_exponent k m : 0 <= k -> 0 <= m -> 2 ^ k <= 2 ^ m -> k <= m.
Proof.
  intros Hk Hm Hle. destruct (Z_le_gt_dec k m) as [|Hgt]; [assumption|].
  assert (2 ^ m < 2 ^ k) by (apply Z.pow_lt_mono_r; lia). lia.
Qed.

Lemma lookup_map {A B} (f : A -> B) (l : list A) (i : nat) :
  map f l !! i = f <$> l !! i.
Proof.
  revert i. induction l as [|x l IH]; intros [|i]; simpl; try reflexivity. apply IH.
Qed.

Section Allocation.
Variable network : IPNetwork.
Variable sizes : list Z.
Hypothesis network_v4 : net_version network = V4.
Hypothesis network_valid : valid_network network.
Hypothesis sizes_defined : Forall (fun h => -1 <= h) sizes.
Hypothesis sizes_fit : total_rounded sizes <= num_addresses network.

Let blocks0 : list needed_block := imap (fun k h => block_for (0 + k) h) sizes.
Let sorted : list needed_block := sort_blocks blocks0.

Lemma sorted_elem_inv b :
  b ∈ sorted -> exists (i : nat) h, sizes !! i = Some h /\ b = block_for i h.
Proof.
  intros Hin. apply list_elem_of_In in Hin.
  apply (Permutation_in _ (sort_blocks_perm blocks0)) in Hin.
  apply list_elem_of_In, list_elem_of_lookup in Hin. destruct Hin as [k Hk].
  apply imap_block_lookup in Hk. destruct Hk as (h & Hh & ->). eauto.
Qed.

Lemma sorted_elem (i : nat) h : sizes !! i = Some h -> block_for i h ∈ sorted.
Proof.
  intros Hi. apply list_elem_of_In.
  apply (Permutation_in _ (Permutation_sym (sort_blocks_perm blocks0))).
  apply list_elem_of_In, list_elem_of_lookup. exists i.
  unfold blocks0. rewrite list_lookup_imap, Hi. reflexivity.
Qed.

Lemma sorted_indices_nodup : NoDup (map original_index sorted).
Proof.
  apply NoDup_ListNoDup.
  apply (Permutation_NoDup (l := map original_index blocks0)).
  - apply Permutation_map, Permutation_sym, sort_blocks_perm.
  - unfold blocks0. rewrite imap_block_indices. apply seq_NoDup.
Qed.

Lemma sorted_sum : sum_block_sizes sorted = total_rounded sizes.
Proof.
  unfold sorted. rewrite (sum_block_sizes_perm _ _ (sort_blocks_perm blocks0)).
  apply sum_imap_blocks.
Qed.

Lemma sorted_pow2 : Forall pow2_block sorted.
Proof.
  rewrite Forall_forall. intros b Hb.
  destruct (sorted_elem_inv b Hb) as (i & h & Hi & ->).
  pose proof (rounded_le_total sizes h (list_elem_of_lookup_2 _ _ _ Hi)) as Hle.
  rewrite num_addresses_value in sizes_fit by assumption.
  unfold block_of in sizes_fit. rewrite network_v4 in sizes_fit. simpl in sizes_fit.
  destruct network_valid as ((Hp0 & Hp1) & _). rewrite network_v4 in Hp1. simpl in Hp1.
  exists (Z.log2_up (h + 2)). split; [|reflexivity].
  pose proof (Z.log2_up_nonneg (h + 2)). split; [lia|].
  assert (Z.log2_up (h + 2) <= 32 - prefixlen network); [|lia].
  apply pow2_le_exponent; [lia | lia |]. unfold rounded_block in Hle. lia.
Qed.

Lemma sorted_divides_base : Forall (fun b => (block_size b | network_address network)) sorted.
Proof.
  rewrite Forall_forall. intros b Hb.
  destruct (sorted_elem_inv b Hb) as (i & h & Hi & ->).
  pose proof (rounded_le_total sizes h (list_elem_of_lookup_2 _ _ _ Hi)) as Hle.
  rewrite num_addresses_value in sizes_fit by assumption.
  pose proof network_valid as Hv. apply valid_network_aligned in Hv.
  destruct Hv as (Hp & Ha & Hal).
  pose proof (block_of_pos network ltac:(lia)) as Hpos.
  apply Z.mod_divide in Hal; [|lia].
  apply Z.divide_trans with (m := block_of network); [|assumption].
  simpl. unfold rounded_block, block_of in *.
  pose proof (Z.log2_up_nonneg (h + 2)).
  assert (Z.log2_up (h + 2) <= max_prefixlen (net_version network) - prefixlen network)
    by (apply pow2_le_exponent; lia).
  exists (2 ^ (max_prefixlen (net_version network) - prefixlen network - Z.log2_up (h + 2))).
  rewrite <- Z.pow_add_r by lia. f_equal. lia.
Qed.

Lemma sorted_indices_bound :
  Forall (fun b => (original_index b < length (replicate (length sizes) (@None IPNetwork)))%nat)
         sorted.
Proof.
  rewrite Forall_forall. intros b Hb.
  destruct (sorted_elem_inv b Hb) as (i & h & Hi & ->).
  rewrite length_replicate. simpl. eapply lookup_lt_Some. exact Hi.
Qed.

Hypothesis below_top :
  network_address network + total_rounded sizes <= ALL_ONES V4.

Let base : Z := network_address network.
Let final : list (option IPNetwork) :=
  assign_all (replicate (length sizes) None) (placements base sorted).

Lemma place_sorted :
  place_blocks sorted base (replicate (length sizes) None) = Ok final.
Proof.
  apply place_blocks_ok.
  - apply sorted_pow2.
  - apply sort_blocks_sorted.
  - apply sorted_divides_base.
  - apply sorted_indices_bound.
  - destruct network_valid as (_ & Ha & _). unfold base. lia.
  - rewrite sorted_sum. exact below_top.
Qed.

(** The slot of requirement [i] holds the network placed for its block. *)
Lemma final_lookup (i : nat) h :
  sizes !! i = Some h ->
  exists j : nat,
    sorted !! j = Some (block_for i h) /\
    final !! i = Some (Some (mkNet V4 (base + sum_block_sizes (take j sorted))
                                   (32 - Z.log2 (rounded_block h)))).
Proof.
  intros Hi.
  pose proof (sorted_elem i h Hi) as Hin.
  apply list_elem_of_lookup in Hin. destruct Hin as [j Hj].
  exists j. split; [exact Hj|].
  unfold final.
  change i with (original_index (block_for i h)) at 1.
  eapply (assign_all_lookup _ _ j).
  - assert (Heq : map (fun p => original_index (fst p)) (placements base sorted)
                  = map original_index sorted).
    { rewrite <- (placements_fst base sorted) at 2. now rewrite map_map. }
    rewrite Heq. apply sorted_indices_nodup.
  - rewrite placements_lookup, Hj. reflexivity.
  - rewrite length_replicate. simpl. eapply lookup_lt_Some. exact Hi.
Qed.

Lemma final_length : length final = length sizes.
Proof. unfold final. now rewrite assign_all_length, length_replicate. Qed.

Lemma placed_fits (i j : nat) h :
  sizes !! i = Some h -> sorted !! j = Some (block_for i h) ->
  let n := mkNet V4 (base + sum_block_sizes (take j sorted))
                 (32 - Z.log2 (rounded_block h)) in
  valid_network n /\ num_addresses n = rounded_block h /\
  network_address n mod num_addresses n = 0 /\ subnet_of n network.
Proof.
  intros Hi Hj n.
  destruct (placement_props sorted base j (block_for i h)) as (Hv & Hblk & Hlo & Hhi).
  - apply sorted_pow2.
  - apply sort_blocks_sorted.
  - apply sorted_divides_base.
  - destruct network_valid as (_ & Ha & _). unfold base. lia.
  - rewrite sorted_sum. exact below_top.
  - exact Hj.
  - cbn [block_size block_for] in *. fold n in Hv, Hblk, Hlo, Hhi.
    rewrite sorted_sum in Hhi.
    assert (Hnum : num_addresses n = rounded_block h)
      by (rewrite num_addresses_value by assumption; exact Hblk).
    split; [exact Hv|]. split; [exact Hnum|]. split.
    + rewrite Hnum, <- Hblk. apply valid_network_aligned in Hv. apply Hv.
    + intros x Hx. apply in_network_iff in Hx; [|assumption].
      apply in_network_iff; [assumption|].
      rewrite <- num_addresses_value by assumption.
      rewrite Hblk in Hx. fold base. lia.
Qed.

Lemma placed_disjoint (i1 i2 j1 j2 : nat) h1 h2 :
  i1 <> i2 ->
  sizes !! i1 = Some h1 -> sorted !! j1 = Some (block_for i1 h1) ->
  sizes !! i2 = Some h2 -> sorted !! j2 = Some (block_for i2 h2) ->
  disjoint_networks
    (mkNet V4 (base + sum_block_sizes (take j1 sorted)) (32 - Z.log2 (rounded_block h1)))
    (mkNet V4 (base + sum_block_sizes (take j2 sorted)) (32 - Z.log2 (rounded_block h2))).
Proof.
  intros Hne Hi1 Hj1 Hi2 Hj2 x [Hx1 Hx2].
  destruct (placed_fits i1 j1 h1 Hi1 Hj1) as (Hv1 & Hn1 & _ & _).
  destruct (placed_fits i2 j2 h2 Hi2 Hj2) as (Hv2 & Hn2 & _ & _).
  apply in_network_iff in Hx1; [|assumption].
  apply in_network_iff in Hx2; [|assumption].
  rewrite <- num_addresses_value in Hx1, Hx2 by assumption.
  rewrite Hn1 in Hx1. rewrite Hn2 in Hx2. cbn [network_address] in Hx1, Hx2.
  assert (Hj : j1 <> j2).
  { intros ->. rewrite Hj1 in Hj2. injection Hj2 as Hi _. lia. }
  destruct (Nat.lt_total j1 j2) as [Hlt|[Heq|Hgt]]; [|contradiction|].
  - pose proof (sum_take_mono sorted j1 j2 _ sorted_pow2 Hlt Hj1) as Hm.
    cbn [block_size block_for] in Hm. lia.
  - pose proof (sum_take_mono sorted j2 j1 _ sorted_pow2 Hgt Hj2) as Hm.
    cbn [block_size block_for] in Hm. lia.
Qed.

(** The allocator on requirements that fit and do not reach the last
    address of the family: one block per requirement, in the caller's
    order, each as the specification sizes it, aligned, inside the
    parent, and no two sharing an address. *)
Lemma allocation_sound :
  exists entries,
    handle_split_network network sizes = Ok (Allocated entries) /\
    map requested_size entries = sizes /\
    Forall (entry_fits network) entries /\
    pairwise_disjoint (map entry_subnet entries).
Proof.
  destruct (all_filled final) as [nets Hnets].
  { intros i Hi. rewrite final_length in Hi.
    apply lookup_lt_is_Some in Hi. destruct Hi as [h Hh].
    destruct (final_lookup i h Hh) as (j & _ & Hf). eauto. }
  assert (Hlen : length sizes = length nets).
  { rewrite <- final_length, Hnets. now rewrite length_map. }
  assert (Hnet : forall (i : nat) h n, sizes !! i = Some h -> nets !! i = Some n ->
            exists j : nat, sorted !! j = Some (block_for i h) /\
              n = mkNet V4 (base + sum_block_sizes (take j sorted))
                        (32 - Z.log2 (rounded_block h))).
  { intros i h n Hh Hn. destruct (final_lookup i h Hh) as (j & Hj & Hf).
    exists j. split; [exact Hj|].
    rewrite Hnets, lookup_map, Hn in Hf. simpl in Hf. congruence. }
  destruct (print_allocated_ok nets 0 sizes Hlen) as (es & Hes & Hsub & Hreq & _ & Hblk).
  { rewrite Forall_lookup. intros i n Hn.
    assert (Hi : (i < length sizes)%nat) by (rewrite Hlen; eapply lookup_lt_Some; exact Hn).
    apply lookup_lt_is_Some in Hi. destruct Hi as [h Hh].
    destruct (Hnet i h n Hh Hn) as (j & Hj & ->).
    split; [reflexivity|]. now apply (placed_fits i j h). }
  exists es. split; [|split; [exact Hreq|split]].
  - unfold handle_split_network.
    rewrite needed_blocks_from_ok by assumption. cbn [rbind].
    fold blocks0. fold sorted. rewrite sorted_sum.
    destruct (Z.ltb_spec (num_addresses network) (total_rounded sizes)); [lia|].
    fold base. rewrite place_sorted. cbn [rbind]. rewrite Hnets, Hes. reflexivity.
  - rewrite Forall_lookup. intros i e He.
    assert (Hn : nets !! i = Some (entry_subnet e))
      by (rewrite <- Hsub, lookup_map, He; reflexivity).
    assert (Hh : sizes !! i = Some (requested_size e))
      by (rewrite <- Hreq, lookup_map, He; reflexivity).
    destruct (Hnet i _ _ Hh Hn) as (j & Hj & Hnj).
    destruct (placed_fits i j _ Hh Hj) as (Hv & Hnum & Hal & Hin).
    rewrite Forall_lookup in Hblk. destruct (Hblk i e He) as [Hb _].
    unfold entry_fits. cbv zeta. rewrite Hnj.
    split; [reflexivity|]. split; [exact Hv|]. split; [exact Hnum|].
    split; [rewrite Hb, Hnj; reflexivity|]. split; assumption.
  - rewrite Hsub. intros i1 i2 n1 n2 Hne Hn1 Hn2.
    assert (Hi1 : (i1 < length sizes)%nat) by (rewrite Hlen; eapply lookup_lt_Some; exact Hn1).
    assert (Hi2 : (i2 < length sizes)%nat) by (rewrite Hlen; eapply lookup_lt_Some; exact Hn2).
    apply lookup_lt_is_Some in Hi1, Hi2.
    destruct Hi1 as [h1 Hh1]. destruct Hi2 as [h2 Hh2].
    destruct (Hnet i1 h1 n1 Hh1 Hn1) as (j1 & Hj1 & ->).
    destruct (Hnet i2 h2 n2 Hh2 Hn2) as (j2 & Hj2 & ->).
    now apply (placed_disjoint i1 i2 j1 j2 h1 h2).
Qed.
End Allocation.

(** X2: the failure behind C1, in general.  A list that fills its parent up to
    the last address of the IPv4 space makes the cursor step past that
    address after the last placement, and the run ends in the address
    constructor's exception. *)
Theorem allocation_overflow (network : IPNetwork) (sizes : list Z) :
  net_version network = V4 -> valid_network network ->
  sizes <> [] ->
  Forall (fun h => -1 <= h) sizes ->
  total_rounded sizes <= num_addresses network ->
  network_address network + total_rounded sizes = ALL_ONES V4 + 1 ->
  handle_split_network network sizes = Raise AddressValueError.
Proof.
  intros H4 Hv Hne Hall Hfit Htop.
  unfold handle_split_network.
  rewrite needed_blocks_from_ok by assumption. cbn [rbind].
  rewrite sorted_sum.
  destruct (Z.ltb_spec (num_addresses network) (total_rounded sizes)); [lia|].
  rewrite place_blocks_overflow; [reflexivity|..].
  - destruct sizes as [|h sizes']; [congruence|].
    intros Hnil.
    pose proof (sorted_elem (h :: sizes') 0 h eq_refl) as Hin.
    rewrite Hnil in Hin. now apply elem_of_nil in Hin.
  - now apply (sorted_pow2 network).
  - apply sort_blocks_sorted.
  - now apply sorted_divides_base.
  - apply sorted_indices_bound.
  - destruct Hv as (_ & Ha & _). lia.
  - rewrite sorted_sum. exact Htop.
Qed.

Lemma allocation_overflow_witness :
  handle_split_network (mkNet V4 4294967040 24) [100; 50; 20; 20]
  = Raise AddressValueError.
Proof.
  apply (allocation_overflow (mkNet V4 4294967040 24) [100; 50; 20; 20]).
  - reflexivity.
  - concrete_network.
  - discriminate.
  - repeat constructor; lia.
  - vm_compute. congruence.
  - vm_compute. reflexivity.
Defined.

(** X1: away from the last address the allocator does what the
    specification asks.  When every host count is at least -1, the rounded blocks fit the
    parent and stop short of the last IPv4 address, there is one block per
    requirement, in the caller's order; each block is the smallest power of
    two that holds the hosts and two more addresses, starts at a multiple
    of its size and lies inside the parent; no two blocks share an
    address. *)
Theorem allocation_below_top (network : IPNetwork) (sizes : list Z) :
  net_version network = V4 -> valid_network network ->
  Forall (fun h => -1 <= h) sizes ->
  total_rounded sizes <= num_addresses network ->
  network_address network + total_rounded sizes <= ALL_ONES V4 ->
  exists entries,
    handle_split_network network sizes = Ok (Allocated entries) /\
    map requested_size entries = sizes /\
    (forall e, In e entries ->
       entry_fits network e /\
       requested_size e + 2 <= num_addresses (entry_subnet e) /\
       (exists k, 0 <= k <= 32 /\ num_addresses (entry_subnet e) = 2 ^ k) /\
       forall k, 0 <= k -> requested_size e + 2 <= 2 ^ k ->
                 num_addresses (entry_subnet e) <= 2 ^ k) /\
    pairwise_disjoint (map entry_subnet entries).
Proof.
  intros H4 Hv Hall Hfit Htop.
  destruct (allocation_sound network sizes H4 Hv Hall Hfit Htop)
    as (es & Hrun & Hreq & Hfits & Hdis).
  exists es. split; [exact Hrun|]. split; [exact Hreq|]. split; [|exact Hdis].
  intros e He. rewrite Forall_forall in Hfits.
  pose proof (Hfits e ltac:(now apply list_elem_of_In)) as Hfe.
  split; [exact Hfe|].
  destruct Hfe as (Hver & Hve & Hnum & _).
  assert (Hh : -1 <= requested_size e).
  { rewrite Forall_forall in Hall. apply Hall. rewrite <- Hreq.
    apply list_elem_of_In, in_map. exact He. }
  rewrite Hnum. split; [apply rounded_block_holds|]. split.
  - exists (32 - prefixlen (entry_subnet e)).
    pose proof Hve as (Hp & _). rewrite Hver in Hp. simpl in Hp.
    split; [lia|]. rewrite <- Hnum, num_addresses_value by exact Hve.
    unfold block_of. now rewrite Hver.
  - intros k Hk Hle. now apply rounded_block_least.
Qed.

Lemma allocation_below_top_witness :
  exists entries,
    handle_split_network (mkNet V4 3221225984 24) [10; 50; 0; 20]
    = Ok (Allocated entries) /\
    map requested_size entries = [10; 50; 0; 20] /\
    (forall e, In e entries ->
       entry_fits (mkNet V4 3221225984 24) e /\
       requested_size e + 2 <= num_addresses (entry_subnet e) /\
       (exists k, 0 <= k <= 32 /\ num_addresses (entry_subnet e) = 2 ^ k) /\
       forall k, 0 <= k -> requested_size e + 2 <= 2 ^ k ->
                 num_addresses (entry_subnet e) <= 2 ^ k) /\
    pairwise_disjoint (map entry_subnet entries).
Proof.
  apply (allocation_below_top (mkNet V4 3221225984 24) [10; 50; 0; 20]).
  - reflexivity.
  - concrete_network.
  - repeat constructor; lia.
  - vm_compute. congruence.
  - vm_compute. congruence.
Defined.

(** C1: the parent 255.255.255.0/24 and the single requirement of 254 hosts
    satisfy the premise (the rounded block, 256 addresses, fits the parent's
    256), yet no block is returned: after the block is placed the cursor is
    advanced to 2^32, which the address constructor rejects. *)
Theorem allocation_fails_at_top_of_address_space :
  valid_network (mkNet V4 4294967040 24) /\
  total_rounded [254] <= num_addresses (mkNet V4 4294967040 24) /\
  handle_split_network (mkNet V4 4294967040 24) [254] = Raise AddressValueError.
Proof.
  split; [concrete_network|]. split; [vm_compute; congruence|].
  vm_compute. reflexivity.
Qed.

(** C2: requirements 50, 20, 10 inside 192.0.2.0/24 get blocks of 64, 32 and
    16 addresses, placed in that order from 192.0.2.0, and are listed in the
    caller's order as 192.0.2.0/26, 192.0.2.64/27 and 192.0.2.96/28. *)
Theorem split_50_20_10 :
  (blocks <- needed_blocks_from 0 [50; 20; 10] ;;
   Ok (map (fun b => (original_index b, block_size b)) (sort_blocks blocks)))
  = Ok [(0%nat, 64); (1%nat, 32); (2%nat, 16)] /\
  exists entries,
    handle_split_network (mkNet V4 3221225984 24) [50; 20; 10] = Ok (Allocated entries) /\
    map (fun e => (entry_number e, requested_size e, entry_subnet e, entry_block e)) entries
    = [(1, 50, mkNet V4 3221225984 26, 64);
       (2, 20, mkNet V4 3221226048 27, 32);
       (3, 10, mkNet V4 3221226080 28, 16)].
Proof.
  split; [vm_compute; reflexivity|].
  eexists. split; [vm_compute; reflexivity|]. vm_compute. reflexivity.
Qed.

(** C3: when the rounded block sizes sum to more than the parent holds, the
    run ends with the capacity message, which carries the requested total
    and the parent's address count, and nothing is allocated.  The host
    counts are those the block size is computed exactly for: at least -1,
    so that the logarithm of h + 2 exists, and h + 2 at most 2^48, where
    the double-precision logarithm of the code still has the integer
    ceiling (a count of 2^49 - 1 is sized 2^49 by the code, not 2^50). *)
Theorem capacity_exceeded (network : IPNetwork) (sizes : list Z) :
  Forall (fun h => -1 <= h /\ h + 2 <= 2 ^ 48) sizes ->
  num_addresses network < total_rounded sizes ->
  handle_split_network network sizes
  = Ok (CapacityExceeded (total_rounded sizes) (num_addresses network)).
Proof.
  intros Hbound Hover.
  assert (Hall : Forall (fun h => -1 <= h) sizes)
    by (eapply Forall_impl; [exact Hbound|]; intros h [Hlo _]; exact Hlo).
  unfold handle_split_network.
  rewrite needed_blocks_from_ok by assumption. cbn [rbind].
  rewrite sorted_sum.
  destruct (Z.ltb_spec (num_addresses network) (total_rounded sizes)); [reflexivity|lia].
Qed.

Lemma capacity_exceeded_witness :
  handle_split_network (mkNet V4 3221225984 24) [200; 40]
  = Ok (CapacityExceeded (total_rounded [200; 40])
                         (num_addresses (mkNet V4 3221225984 24))).
Proof.
  apply (capacity_exceeded (mkNet V4 3221225984 24) [200; 40]).
  - repeat constructor; lia.
  - vm_compute. reflexivity.
Defined.

(** C4, the counterexample: a requirement of zero hosts is not rejected; it
    is given the two addresses of 192.0.2.0/31. *)
Lemma zero_hosts_allocated :
  exists entries,
    handle_split_network (mkNet V4 3221225984 24) [0] = Ok (Allocated entries) /\
    map (fun e => (requested_size e, entry_subnet e, entry_block e)) entries
    = [(0, mkNet V4 3221225984 31, 2)].
Proof. eexists. split; vm_compute; reflexivity. Qed.

(** C4, amended: host counts are not validated.  A count of 0 or -1 is sized
    like any other (2 and 1 addresses) and allocated when the list fits
    below the last address; a count of -2 or less stops the run with the
    math domain error of the logarithm, before anything is allocated. *)
Theorem nonpositive_requirements (network : IPNetwork) (sizes : list Z) :
  net_version network = V4 -> valid_network network ->
  rounded_block 0 = 2 /\ rounded_block (-1) = 1 /\
  (Exists (fun h => h <= -2) sizes ->
     handle_split_network network sizes = Raise MathDomainError) /\
  (Forall (fun h => -1 <= h) sizes ->
   total_rounded sizes <= num_addresses network ->
   network_address network + total_rounded sizes <= ALL_ONES V4 ->
     exists entries,
       handle_split_network network sizes = Ok (Allocated entries) /\
       map requested_size entries = sizes /\
       Forall (fun e => num_addresses (entry_subnet e) = rounded_block (requested_size e) /\
                        entry_block e = rounded_block (requested_size e)) entries).
Proof.
  intros H4 Hv. split; [reflexivity|]. split; [reflexivity|]. split.
  - intros Hex. unfold handle_split_network.
    now rewrite needed_blocks_from_domain.
  - intros Hall Hfit Htop.
    destruct (allocation_sound network sizes H4 Hv Hall Hfit Htop)
      as (es & Hrun & Hreq & Hfits & _).
    exists es. split; [exact Hrun|]. split; [exact Hreq|].
    eapply Forall_impl; [exact Hfits|].
    intros e (_ & _ & Hnum & Hblk & _). split; [exact Hnum|]. now rewrite Hblk.
Qed.

Lemma nonpositive_requirements_witness :
  handle_split_network (mkNet V4 3221225984 24) [10; -2] = Raise MathDomainError /\
  exists entries,
    handle_split_network (mkNet V4 3221225984 24) [0; -1; 10] = Ok (Allocated entries) /\
    map requested_size entries = [0; -1; 10] /\
    Forall (fun e => num_addresses (entry_subnet e) = rounded_block (requested_size e) /\
                     entry_block e = rounded_block (requested_size e)) entries.
Proof.
  assert (Hv : valid_network (mkNet V4 3221225984 24)) by concrete_network.
  split.
  - apply (nonpositive_requirements (mkNet V4 3221225984 24) [10; -2] eq_refl Hv).
    apply Exists_cons_tl, Exists_cons_hd. lia.
  - apply (nonpositive_requirements (mkNet V4 3221225984 24) [0; -1; 10] eq_refl Hv).
    + repeat constructor; lia.
    + vm_compute. congruence.
    + vm_compute. congruence.
Defined.

(** * Subnets and supernets *)

Lemma rmap_ok {A B} (f : A -> result B) (g : A -> B) (l : list A) :
  (forall a, In a l -> f a = Ok (g a)) -> rmap f l = Ok (map g l).
Proof.
  induction l as [|a l IH]; intros H; [reflexivity|].
  cbn [rmap map]. rewrite (H a) by (now left). cbn [rbind].
  rewrite IH by (intros; apply H; now right). reflexivity.
Qed.

Lemma in_py_range x start stop step :
  In x (py_range start stop step) ->
  exists k, 0 <= k < (stop - start + step - 1) / step /\ x = start + k * step.
Proof.
  unfold py_range. rewrite in_map_iff. intros (k & <- & Hk).
  apply in_seq in Hk. exists (Z.of_nat k). split; [lia|reflexivity].
Qed.

Lemma py_range_nonempty start stop step :
  0 < step -> start < stop -> py_range start stop step <> [].
Proof.
  intros Hs Hlt. unfold py_range.
  assert (1 <= (stop - start + step - 1) / step).
  { apply Z.div_le_lower_bound; lia. }
  destruct (Z.to_nat ((stop - start + step - 1) / step)) eqn:E; [lia|].
  simpl. discriminate.
Qed.

(** The step of the enumeration: the size of a subnet at the new prefix. *)
Lemma subnet_step n q :
  0 <= prefixlen n <= q -> q <= max_prefixlen (net_version n) ->
  Z.shiftr (hostmask n + 1) (q - prefixlen n) = 2 ^ (max_prefixlen (net_version n) - q).
Proof.
  intros Hp Hq. rewrite hostmask_value by lia.
  rewrite Z.shiftr_div_pow2 by lia.
  replace (2 ^ (max_prefixlen (net_version n) - prefixlen n) - 1 + 1)
    with (2 ^ (max_prefixlen (net_version n) - q) * 2 ^ (q - prefixlen n)).
  - apply Z.div_mul. apply Z.pow_nonzero; lia.
  - rewrite <- Z.pow_add_r by lia.
    replace (max_prefixlen (net_version n) - q + (q - prefixlen n))
      with (max_prefixlen (net_version n) - prefixlen n) by lia. lia.
Qed.

Lemma subnet_count w p q :
  0 <= p <= q -> q <= w ->
  (2 ^ (w - p) + 2 ^ (w - q) - 1) / 2 ^ (w - q) = 2 ^ (q - p).
Proof.
  intros Hp Hq.
  assert (Hs : 0 < 2 ^ (w - q)) by (apply Z.pow_pos_nonneg; lia).
  replace (2 ^ (w - p)) with (2 ^ (q - p) * 2 ^ (w - q))
    by (rewrite <- Z.pow_add_r by lia; f_equal; lia).
  replace (2 ^ (q - p) * 2 ^ (w - q) + 2 ^ (w - q) - 1)
    with (2 ^ (w - q) - 1 + 2 ^ (q - p) * 2 ^ (w - q)) by lia.
  rewrite Z.div_add by lia. rewrite Z.div_small by lia. lia.
Qed.

(** The subnets of a network at a longer prefix, as the library lists them. *)
Lemma subnets_value n q :
  valid_network n -> prefixlen n < max_prefixlen (net_version n) ->
  prefixlen n <= q <= max_prefixlen (net_version n) ->
  subnets n q =
  Ok (map (fun a => mkNet (net_version n) a q)
          (py_range (network_address n) (broadcast_address n + 1)
                    (2 ^ (max_prefixlen (net_version n) - q)))).
Proof.
  intros Hv Hlt Hq. pose proof Hv as Hv0.
  apply valid_network_aligned in Hv. destruct Hv as (Hp & Ha & Hal).
  pose proof (valid_network_top n Hv0) as Htop.
  set (w := max_prefixlen (net_version n)) in *.
  set (p := prefixlen n) in *.
  assert (Hs : 0 < 2 ^ (w - q)) by (apply Z.pow_pos_nonneg; lia).
  assert (Hblk : block_of n = 2 ^ (q - p) * 2 ^ (w - q)).
  { unfold block_of. fold w p. rewrite <- Z.pow_add_r by lia. f_equal. lia. }
  unfold subnets. fold w p.
  destruct (Z.eqb_spec p w); [lia|].
  destruct (Z.ltb_spec q p); [lia|].
  destruct (Z.ltb_spec (q - p) 0); [lia|].
  replace (p + (q - p)) with q by lia.
  destruct (Z.ltb_spec w q); [lia|].
  unfold p at 1. rewrite subnet_step by (fold p; lia). fold w.
  apply rmap_ok. intros a Hin.
  apply in_py_range in Hin. destruct Hin as (k & Hk & ->).
  rewrite broadcast_value in Hk by assumption.
  replace (network_address n + block_of n - 1 + 1 - network_address n + 2 ^ (w - q) - 1)
    with (2 ^ (w - p) + 2 ^ (w - q) - 1) in Hk by (unfold block_of; fold w p; lia).
  rewrite subnet_count in Hk by lia.
  apply make_network_ok. apply valid_network_aligned. simpl. fold w.
  assert (k * 2 ^ (w - q) < block_of n).
  { rewrite Hblk. apply Z.mul_lt_mono_pos_r; lia. }
  assert (0 <= k * 2 ^ (w - q)) by (apply Z.mul_nonneg_nonneg; lia).
  repeat split; try lia.
  - unfold ALL_ONES. fold w. lia.
  - unfold block_of. simpl. fold w.
    apply Z.mod_divide; [lia|].
    apply Z.divide_add_r; [|apply Z.divide_factor_r].
    apply Z.mod_divide in Hal; [|pose proof (block_of_pos n); lia].
    apply Z.divide_trans with (m := block_of n); [|assumption].
    rewrite Hblk. apply Z.divide_factor_r.
Qed.

(** The supernet of any address block cut out of a network is the network. *)
Lemma supernet_of_subnet n q k :
  valid_network n -> prefixlen n < q <= max_prefixlen (net_version n) ->
  0 <= k < 2 ^ (q - prefixlen n) ->
  supernet (mkNet (net_version n)
                  (network_address n + k * 2 ^ (max_prefixlen (net_version n) - q)) q)
           (prefixlen n) = Ok n.
Proof.
  intros Hv Hq Hk. pose proof Hv as Hv0.
  apply valid_network_aligned in Hv. destruct Hv as (Hp & Ha & Hal).
  pose proof (valid_network_top n Hv0) as Htop.
  destruct n as [v base p]. simpl in *. unfold block_of in *. simpl in *.
  set (w := max_prefixlen v) in *.
  assert (Hs : 0 < 2 ^ (w - q)) by (apply Z.pow_pos_nonneg; lia).
  assert (Hb : 0 < 2 ^ (w - p)) by (apply Z.pow_pos_nonneg; lia).
  assert (Hblk : 2 ^ (w - p) = 2 ^ (q - p) * 2 ^ (w - q))
    by (rewrite <- Z.pow_add_r by lia; f_equal; lia).
  assert (Hlt : k * 2 ^ (w - q) < 2 ^ (w - p))
    by (rewrite Hblk; apply Z.mul_lt_mono_pos_r; lia).
  assert (Hnn : 0 <= k * 2 ^ (w - q)) by (apply Z.mul_nonneg_nonneg; lia).
  unfold supernet. simpl.
  destruct (Z.eqb_spec q 0); [lia|].
  destruct (Z.ltb_spec q p); [lia|].
  replace (q - (q - p)) with p by lia.
  destruct (Z.ltb_spec p 0); [lia|].
  assert (Hland : Z.land (base + k * 2 ^ (w - q))
                    (Z.shiftl (netmask (mkNet v (base + k * 2 ^ (w - q)) q)) (q - p)) = base).
  { unfold netmask. simpl. rewrite ip_int_from_prefix_value by (fold w; lia). fold w.
    rewrite Z.shiftl_mul_pow2 by lia.
    replace ((2 ^ w - 2 ^ (w - q)) * 2 ^ (q - p))
      with (2 ^ (w + (q - p)) - 2 ^ (w + (q - p) - q)).
    2:{ rewrite Z.mul_sub_distr_r, <- !Z.pow_add_r by lia.
        f_equal; f_equal; lia. }
    rewrite <- prefix_mask_value by lia.
    rewrite land_prefix_mask.
    - replace (w + (q - p) - q) with (w - p) by lia.
      apply Z.mod_divide in Hal; [|lia]. destruct Hal as [m Hm].
      assert (Hmod : (base + k * 2 ^ (w - q)) mod 2 ^ (w - p) = k * 2 ^ (w - q)).
      { rewrite Hm, Z.add_comm, Z.mod_add by lia. apply Z.mod_small. lia. }
      rewrite Hmod. lia.
    - lia.
    - split; [lia|].
      assert (2 ^ w <= 2 ^ (w + (q - p))) by (apply Z.pow_le_mono_r; lia). lia. }
  unfold netmask in Hland. simpl in Hland. unfold netmask. simpl.
  rewrite Hland. apply make_network_ok. exact Hv0.
Qed.

(** At its own prefix a network is its only subnet and its own supernet. *)
Lemma subnets_same_prefix n :
  valid_network n -> subnets n (prefixlen n) = Ok [n].
Proof.
  intros Hv.
  destruct (Z.eq_dec (prefixlen n) (max_prefixlen (net_version n))) as [Heq|Hne].
  - unfold subnets. rewrite Heq, Z.eqb_refl. reflexivity.
  - pose proof Hv as Hv0. destruct Hv as (Hp & _).
    rewrite subnets_value by (assumption || lia).
    unfold py_range. rewrite broadcast_value by assumption.
    replace (network_address n + block_of n - 1 + 1 - network_address n
             + 2 ^ (max_prefixlen (net_version n) - prefixlen n) - 1)
      with (2 ^ (max_prefixlen (net_version n) - prefixlen n)
            + 2 ^ (max_prefixlen (net_version n) - prefixlen n) - 1)
      by (unfold block_of; lia).
    rewrite subnet_count by lia. rewrite Z.sub_diag. simpl.
    rewrite Z.add_0_r. destruct n; reflexivity.
Qed.

Lemma supernet_same_prefix n :
  valid_network n -> supernet n (prefixlen n) = Ok n.
Proof.
  intros Hv. pose proof Hv as Hv0. destruct Hv as (Hp & Ha & Hal).
  unfold supernet.
  destruct (Z.eqb_spec (prefixlen n) 0); [reflexivity|].
  rewrite Z.ltb_irrefl, Z.sub_diag, Z.sub_0_r.
  destruct (Z.ltb_spec (prefixlen n) 0); [lia|].
  rewrite Z.shiftl_0_r, Hal. destruct n. now apply make_network_ok.
Qed.

Lemma subnets_shorter_prefix n q :
  prefixlen n <> max_prefixlen (net_version n) -> q < prefixlen n ->
  subnets n q = Raise NewPrefixMustBeLonger.
Proof.
  intros Hne Hq. unfold subnets.
  destruct (Z.eqb_spec (prefixlen n) (max_prefixlen (net_version n))); [contradiction|].
  destruct (Z.ltb_spec q (prefixlen n)); [reflexivity|lia].
Qed.

Lemma supernet_longer_prefix n q :
  prefixlen n <> 0 -> prefixlen n < q ->
  supernet n q = Raise NewPrefixMustBeShorter.
Proof.
  intros Hne Hq. unfold supernet.
  destruct (Z.eqb_spec (prefixlen n) 0); [contradiction|].
  destruct (Z.ltb_spec (prefixlen n) q); [reflexivity|lia].
Qed.

(** C9: every subnet that narrowing a network to a longer prefix produces
    widens back, at the original prefix, to exactly the original network. *)
Theorem narrow_then_widen (n : IPNetwork) (q : Z) :
  valid_network n ->
  prefixlen n < q <= max_prefixlen (net_version n) ->
  exists l,
    subnets n q = Ok l /\ l <> [] /\
    forall s, In s l -> supernet s (prefixlen n) = Ok n.
Proof.
  intros Hv Hq. eexists. split; [apply subnets_value; [assumption|lia|lia]|].
  pose proof Hv as Hv0.
  apply valid_network_aligned in Hv. destruct Hv as (Hp & Ha & Hal).
  assert (Hs : 0 < 2 ^ (max_prefixlen (net_version n) - q))
    by (apply Z.pow_pos_nonneg; lia).
  pose proof (block_of_pos n ltac:(lia)) as Hb.
  split.
  - intros Hnil. apply map_eq_nil in Hnil. revert Hnil.
    apply py_range_nonempty; [assumption|].
    rewrite broadcast_value by assumption. lia.
  - intros s Hin. apply in_map_iff in Hin. destruct Hin as (a & <- & Ha').
    apply in_py_range in Ha'. destruct Ha' as (k & Hk & ->).
    rewrite broadcast_value in Hk by assumption.
    replace (network_address n + block_of n - 1 + 1 - network_address n
             + 2 ^ (max_prefixlen (net_version n) - q) - 1)
      with (2 ^ (max_prefixlen (net_version n) - prefixlen n)
            + 2 ^ (max_prefixlen (net_version n) - q) - 1) in Hk
      by (unfold block_of; lia).
    rewrite subnet_count in Hk by lia.
    now apply supernet_of_subnet.
Qed.

Lemma narrow_then_widen_witness :
  exists l,
    subnets (mkNet V4 3232235520 24) 26 = Ok l /\ l <> [] /\
    forall s, In s l -> supernet s 24 = Ok (mkNet V4 3232235520 24).
Proof.
  apply (narrow_then_widen (mkNet V4 3232235520 24) 26).
  - concrete_network.
  - simpl. lia.
Defined.

(** * The second netmask *)

Lemma rmap_inv {A B} (f : A -> result B) (l : list A) : forall l',
  rmap f l = Ok l' -> forall b, In b l' -> exists a, In a l /\ f a = Ok b.
Proof.
  induction l as [|a l IH]; intros l' H b Hb.
  - injection H as <-. destruct Hb.
  - cbn [rmap] in H. destruct (f a) as [b0|] eqn:Ea; [|discriminate].
    cbn [rbind] in H. destruct (rmap f l) as [bs|] eqn:Er; [|discriminate].
    cbn [rbind] in H. injection H as <-.
    destruct Hb as [<-|Hb].
    + exists a. split; [now left|assumption].
    + destruct (IH bs eq_refl b Hb) as (a' & Ha' & Hf). exists a'. split; [now right|assumption].
Qed.

Lemma print_subnets_ok l : forall i,
  (i <= 1000)%nat ->
  Forall (fun n => net_version n = V4 /\ valid_network n) l ->
  exists shown,
    print_subnets i l = Ok (shown, (1000 <? i + length l)%nat) /\
    length shown = Nat.min (1000 - i) (length l).
Proof.
  induction l as [|n l IH]; intros i Hi Hall.
  - exists []. cbn [print_subnets length]. split; [|lia].
    destruct (Nat.ltb_spec 1000 (i + 0)); [lia|reflexivity].
  - inversion Hall as [|? ? [H4 Hv] Hall']; subst.
    cbn [print_subnets length].
    destruct (Nat.leb_spec 1000 i) as [Hge|Hlt].
    + exists []. split; [|simpl; lia].
      destruct (Nat.ltb_spec 1000 (i + S (length l))); [reflexivity|lia].
    + destruct (print_network_info_total n H4 Hv) as [info Hinfo].
      destruct (IH (S i) ltac:(lia) Hall') as (shown & Hs & Hlen).
      exists ((Z.of_nat i + 1, info) :: shown).
      rewrite Hinfo. cbn [rbind]. rewrite Hs. cbn [rbind fst snd length].
      split; [|lia]. do 2 f_equal.
      destruct (Nat.ltb_spec 1000 (S i + length l)),
               (Nat.ltb_spec 1000 (i + S (length l))); try reflexivity; lia.
Qed.

Lemma cleared_low_bits a m :
  0 <= a -> 0 < m -> 0 <= a - a mod m <= a /\ (a - a mod m) mod m = 0.
Proof.
  intros Ha Hm.
  pose proof (Z.mod_pos_bound a m Hm). pose proof (Z.mod_le a m Ha Hm).
  split; [lia|].
  pose proof (Z.div_mod a m ltac:(lia)) as Hdm.
  replace (a - a mod m) with (a / m * m) by lia.
  apply Z.mod_mul. lia.
Qed.

(** The supernet the library builds at a shorter prefix: the base with the
    additional low-order bits cleared. *)
Lemma supernet_value n q :
  valid_network n -> 0 <= q < prefixlen n ->
  supernet n q =
  Ok (mkNet (net_version n)
            (network_address n
             - network_address n mod 2 ^ (max_prefixlen (net_version n) - q)) q).
Proof.
  intros Hv Hq. pose proof Hv as Hv0.
  apply valid_network_aligned in Hv. destruct Hv as (Hp & Ha & Hal).
  destruct n as [v base p]. simpl in *. set (w := max_prefixlen v) in *.
  assert (Hb : 0 < 2 ^ (w - q)) by (apply Z.pow_pos_nonneg; lia).
  unfold supernet. simpl.
  destruct (Z.eqb_spec p 0); [lia|].
  destruct (Z.ltb_spec p q); [lia|].
  replace (p - (p - q)) with q by lia.
  destruct (Z.ltb_spec q 0); [lia|].
  assert (Hland : Z.land base (Z.shiftl (ip_int_from_prefix v p) (p - q))
                  = base - base mod 2 ^ (w - q)).
  { rewrite ip_int_from_prefix_value by (fold w; lia). fold w.
    rewrite Z.shiftl_mul_pow2 by lia.
    replace ((2 ^ w - 2 ^ (w - p)) * 2 ^ (p - q))
      with (2 ^ (w + (p - q)) - 2 ^ (w + (p - q) - p)).
    2:{ rewrite Z.mul_sub_distr_r, <- !Z.pow_add_r by lia.
        f_equal; f_equal; lia. }
    rewrite <- prefix_mask_value by lia.
    rewrite land_prefix_mask.
    - replace (w + (p - q) - p) with (w - q) by lia. reflexivity.
    - lia.
    - unfold ALL_ONES in Ha. fold w in Ha. split; [lia|].
      assert (2 ^ w <= 2 ^ (w + (p - q))) by (apply Z.pow_le_mono_r; lia). lia. }
  unfold netmask. simpl. rewrite Hland.
  apply make_network_ok. apply valid_network_aligned. simpl. fold w.
  destruct (cleared_low_bits base (2 ^ (w - q)) ltac:(lia) Hb) as [Hr Hm].
  unfold block_of. simpl. fold w.
  repeat split; solve [lia | exact Hm].
Qed.

Lemma supernet_valid n q s :
  valid_network n -> 0 <= q < prefixlen n -> supernet n q = Ok s ->
  valid_network s /\ net_version s = net_version n.
Proof.
  intros Hv Hq Hs. rewrite supernet_value in Hs by assumption. injection Hs as <-.
  split; [|reflexivity].
  apply valid_network_aligned in Hv. destruct Hv as (Hp & Ha & Hal).
  apply valid_network_aligned. simpl.
  set (w := max_prefixlen (net_version n)) in *.
  assert (Hb : 0 < 2 ^ (w - q)) by (apply Z.pow_pos_nonneg; lia).
  destruct (cleared_low_bits (network_address n) (2 ^ (w - q)) ltac:(lia) Hb) as [Hr Hm].
  unfold block_of. simpl. fold w.
  repeat split; solve [lia | exact Hm].
Qed.

(** C6, the counterexample: asking 192.168.0.0/24 for prefix 24 raises no
    error; neither branch runs and nothing is printed for the request. *)
Lemma same_prefix_is_silent :
  second_netmask (mkNet V4 3232235520 24) (Ok 24) = Ok NoTransition.
Proof. reflexivity. Qed.

(** C6, amended: a second prefix outside 0..32, or one that is not an
    integer, is reported as an invalid second netmask; a longer prefix lists
    the subnets (at most 1000 of them) when the list of all of them, which
    the program builds before it prints the first, fits in memory, here
    for a span of at most [max_listed_span] bits; a shorter one prints the
    supernet, and the network's own prefix is accepted silently as no
    transition.  The library operations behind the two branches refuse only
    the opposite direction, and return the network itself at its own
    prefix. *)
Theorem second_netmask_cases (n : IPNetwork) (q : Z) :
  net_version n = V4 -> valid_network n ->
  second_netmask n (Raise IntParseError) = Ok (InvalidSecondNetmask IntParseError) /\
  (~ 0 <= q <= 32 ->
     second_netmask n (Ok q) = Ok (InvalidSecondNetmask PrefixOutOfRange)) /\
  (q = prefixlen n -> second_netmask n (Ok q) = Ok NoTransition) /\
  (prefixlen n < q <= 32 -> q - prefixlen n <= max_listed_span ->
     exists l shown,
       subnets n q = Ok l /\
       Z.of_nat (length l) = 2 ^ (q - prefixlen n) /\
       second_netmask n (Ok q) = Ok (SubnetListing shown (1000 <? length l)%nat) /\
       length shown = Nat.min 1000 (length l)) /\
  (0 <= q < prefixlen n ->
     exists s info,
       supernet n q = Ok s /\ prefixlen s = q /\
       network_address s = network_address n - network_address n mod 2 ^ (32 - q) /\
       second_netmask n (Ok q) = Ok (SupernetInfo s info)) /\
  (prefixlen n < 32 -> q < prefixlen n ->
     subnets n q = Raise NewPrefixMustBeLonger) /\
  (0 < prefixlen n -> prefixlen n < q ->
     supernet n q = Raise NewPrefixMustBeShorter) /\
  subnets n (prefixlen n) = Ok [n] /\
  supernet n (prefixlen n) = Ok n.
Proof.
  intros H4 Hv.
  assert (Hp : 0 <= prefixlen n <= 32)
    by (destruct Hv as (H & _); rewrite H4 in H; exact H).
  split; [reflexivity|].
  split; [|split; [|split; [|split; [|split; [|split; [|split]]]]]].
  - intros Hout. unfold second_netmask, transition_body. cbn [rbind].
    destruct (Z.leb_spec 0 q), (Z.leb_spec q 32); simpl; try reflexivity; lia.
  - intros ->. unfold second_netmask, transition_body. cbn [rbind].
    destruct (Z.leb_spec 0 (prefixlen n)), (Z.leb_spec (prefixlen n) 32); try lia.
    simpl. rewrite Z.ltb_irrefl. reflexivity.
  - intros Hq Hspan.
    assert (Hsub : subnets n q =
                   Ok (map (fun a => mkNet (net_version n) a q)
                         (py_range (network_address n) (broadcast_address n + 1)
                            (2 ^ (max_prefixlen (net_version n) - q)))))
      by (apply subnets_value; [assumption | rewrite H4; simpl; lia..]).
    assert (Hcount : Z.of_nat (length (map (fun a => mkNet (net_version n) a q)
                         (py_range (network_address n) (broadcast_address n + 1)
                            (2 ^ (max_prefixlen (net_version n) - q)))))
                     = 2 ^ (q - prefixlen n)).
    { unfold py_range. rewrite !length_map, length_seq.
      rewrite broadcast_value by assumption.
      replace (network_address n + block_of n - 1 + 1 - network_address n
               + 2 ^ (max_prefixlen (net_version n) - q) - 1)
        with (2 ^ (max_prefixlen (net_version n) - prefixlen n)
              + 2 ^ (max_prefixlen (net_version n) - q) - 1)
        by (unfold block_of; lia).
      rewrite subnet_count by (rewrite ?H4; simpl; lia).
      assert (0 < 2 ^ (q - prefixlen n)) by (apply Z.pow_pos_nonneg; lia).
      lia. }
    assert (Hall : Forall (fun s => net_version s = V4 /\ valid_network s)
                     (map (fun a => mkNet (net_version n) a q)
                        (py_range (network_address n) (broadcast_address n + 1)
                           (2 ^ (max_prefixlen (net_version n) - q))))).
    { rewrite Forall_forall. intros s Hs. apply list_elem_of_In in Hs.
      pose proof Hsub as Hrun. unfold subnets in Hrun.
      destruct (Z.eqb_spec (prefixlen n) (max_prefixlen (net_version n)));
        [rewrite H4 in *; simpl in *; lia|].
      destruct (Z.ltb_spec q (prefixlen n)); [lia|].
      destruct (Z.ltb_spec (q - prefixlen n) 0); [lia|].
      destruct (Z.ltb_spec (max_prefixlen (net_version n)) (prefixlen n + (q - prefixlen n)));
        [rewrite H4 in *; simpl in *; lia|].
      destruct (rmap_inv _ _ _ Hrun s Hs) as (a & _ & Hmk).
      apply make_network_strict_inv in Hmk. destruct Hmk as [-> Hvs].
      split; [exact H4|exact Hvs]. }
    destruct (print_subnets_ok _ 0 ltac:(lia) Hall) as (shown & Hshown & Hlen).
    eexists. exists shown. split; [exact Hsub|]. split; [exact Hcount|].
    unfold second_netmask, transition_body. cbn [rbind].
    destruct (Z.leb_spec 0 q), (Z.leb_spec q 32); try lia. simpl.
    destruct (Z.ltb_spec (prefixlen n) q); [|lia].
    rewrite Hsub. cbn [rbind]. rewrite Hshown. cbn [rbind fst snd].
    split; [reflexivity|]. rewrite Hlen. simpl. reflexivity.
  - intros Hq.
    pose proof (supernet_value n q Hv Hq) as Hs.
    destruct (supernet_valid n q _ Hv Hq Hs) as [Hvs H4s].
    destruct (print_network_info_total _ ltac:(rewrite H4s; exact H4) Hvs) as [info Hinfo].
    eexists. exists info. split; [exact Hs|]. simpl.
    split; [reflexivity|]. split; [rewrite H4; reflexivity|].
    unfold second_netmask, transition_body. cbn [rbind].
    destruct (Z.leb_spec 0 q), (Z.leb_spec q 32); try lia. simpl.
    destruct (Z.ltb_spec (prefixlen n) q); [lia|].
    destruct (Z.ltb_spec q (prefixlen n)); [|lia].
    rewrite Hs. cbn [rbind]. rewrite Hinfo. reflexivity.
  - intros Hlt Hq. apply subnets_shorter_prefix; [rewrite H4; simpl; lia|assumption].
  - intros Hpos Hq. apply supernet_longer_prefix; [lia|assumption].
  - now apply subnets_same_prefix.
  - now apply supernet_same_prefix.
Qed.

Lemma second_netmask_cases_witness :
  second_netmask (mkNet V4 3232235520 24) (Ok 24) = Ok NoTransition /\
  second_netmask (mkNet V4 3232235520 24) (Ok 33)
  = Ok (InvalidSecondNetmask PrefixOutOfRange).
Proof.
  assert (Hv : valid_network (mkNet V4 3232235520 24)) by concrete_network.
  split.
  - apply (second_netmask_cases (mkNet V4 3232235520 24) 24 eq_refl Hv). reflexivity.
  - apply (second_netmask_cases (mkNet V4 3232235520 24) 33 eq_refl Hv). lia.
Defined.

(** * IPv6 input and the split handler *)

Lemma range_mode_not_split T ps o : range_mode T ps <> Ok (SplitMode o).
Proof.
  unfold range_mode.
  destruct (parsed TextParseError (ip_address T (nth 0 ps EmptyString))) as [a|e];
    cbn [rbind]; [|destruct (is_value_or_index_error e); discriminate].
  destruct (parsed IndexError (ps !! 2%nat)) as [t|e];
    cbn [rbind]; [|destruct (is_value_or_index_error e); discriminate].
  destruct (parsed TextParseError (ip_address T t)) as [b|e];
    cbn [rbind]; [|destruct (is_value_or_index_error e); discriminate].
  destruct (summarize_address_range a b) as [l|e];
    cbn [rbind]; [|destruct (is_value_or_index_error e)]; discriminate.
Qed.

Lemma resolve_address_ipv6 T p0 rest a :
  ip_address T (before_slash p0) = Some a -> addr_version a = V6 ->
  resolve_address T (p0 :: rest) =
  match ip_network_loose T (ipv6_network_text p0 rest) with
  | Some net => Ok (Exited (IPv6Info net a))
  | None => Raise TextParseError
  end.
Proof.
  intros Ha H6. unfold resolve_address, ipv6_network_text.
  change (nth 0 (p0 :: rest) EmptyString) with p0.
  rewrite Ha. cbn [parsed rbind]. rewrite H6.
  change ((p0 :: rest) !! 1%nat) with (rest !! 0%nat).
  destruct (has_slash p0); cbn [negb].
  - destruct (ip_network_loose T p0); reflexivity.
  - destruct rest as [|p1 rest']; cbn [lookup list_lookup];
      destruct (ip_network_loose T _); reflexivity.
Qed.

(** C10, the counterexample: an IPv6 address given with a prefix the
    library refuses, [::1/200], prints no address information.  The address
    part parses as IPv6, the network constructor raises inside the [try],
    and [main] reports an invalid address and exits with status 1; the
    sizes of [-s] are ignored here too. *)
Lemma ipv6_bad_prefix_prints_no_information :
  ip_address text_layer_strict_v6 (before_slash "::1/200") = Some (mkAddr V6 1) /\
  ip_network_loose text_layer_strict_v6 "::1/200" = None /\
  main text_layer_strict_v6
       (mkArgs ["::1/200"%string] false false false (Some [50; 20]))
  = Ok (InvalidAddress TextParseError).
Proof. repeat split. Qed.

(** C10, amended: when the address part of the first parameter is an IPv6
    address, [main] never reaches the split handler, whatever [-s] holds,
    and its outcome does not depend on [-s].  Outside the version and range
    modes, which come first, it prints the IPv6 information and exits when
    the network text (the address with its prefix) is valid, and reports an
    invalid address when it is not; so the allocation with its 32-bit
    prefixes only ever runs on IPv4 networks. *)
Theorem ipv6_never_reaches_split (T : text_layer) (args : Args)
    (p0 : string) (rest : list string) (a : IPAddress) :
  params args = p0 :: rest ->
  ip_address T (before_slash p0) = Some a -> addr_version a = V6 ->
  (forall o, main T args <> Ok (SplitMode o)) /\
  (forall s, main T (with_split s args) = main T args) /\
  (version_flag args = false -> rest !! 0%nat <> Some "-"%string ->
   main T args =
   match ip_network_loose T (ipv6_network_text p0 rest) with
   | Some net => Ok (IPv6Info net a)
   | None => Ok (InvalidAddress TextParseError)
   end).
Proof.
  intros Hps Ha H6.
  assert (Hmain : forall s,
    main T (with_split s args) =
    if version_flag args then Ok PrintedVersion
    else if match rest !! 0%nat with Some p1 => String.eqb p1 "-" | None => false end
         then range_mode T (p0 :: rest)
         else match ip_network_loose T (ipv6_network_text p0 rest) with
              | Some net => Ok (IPv6Info net a)
              | None => Ok (InvalidAddress TextParseError)
              end).
  { intros s. unfold main, with_split. cbn [version_flag params].
    rewrite Hps. change ((p0 :: rest) !! 1%nat) with (rest !! 0%nat).
    destruct (version_flag args); [reflexivity|].
    destruct (match rest !! 0%nat with Some p1 => String.eqb p1 "-" | None => false end);
      [reflexivity|].
    rewrite (resolve_address_ipv6 T p0 rest a Ha H6).
    destruct (ip_network_loose T _); reflexivity. }
  assert (Hsame : main T args = main T (with_split (split args) args))
    by (destruct args; reflexivity).
  split; [|split].
  - intros o. rewrite Hsame, Hmain.
    destruct (version_flag args); [discriminate|].
    destruct (match rest !! 0%nat with Some p1 => String.eqb p1 "-" | None => false end);
      [apply range_mode_not_split|].
    destruct (ip_network_loose T _); discriminate.
  - intros s. now rewrite Hsame, !Hmain.
  - intros Hver Hrange. rewrite Hsame, Hmain, Hver.
    destruct (rest !! 0%nat) as [p1|]; [|reflexivity].
    destruct (String.eqb_spec p1 "-") as [E|E]; [congruence|reflexivity].
Qed.

Lemma ipv6_never_reaches_split_witness :
  let args := mkArgs ["::1"%string] false false false (Some [50; 20]) in
  (forall o, main text_layer_v6 args <> Ok (SplitMode o)) /\
  (forall s, main text_layer_v6 (with_split s args) = main text_layer_v6 args) /\
  (version_flag args = false -> [] !! 0%nat <> Some "-"%string ->
   main text_layer_v6 args =
   match ip_network_loose text_layer_v6 (ipv6_network_text "::1" []) with
   | Some net => Ok (IPv6Info net (mkAddr V6 1))
   | None => Ok (InvalidAddress TextParseError)
   end).
Proof.
  intros args.
  apply (ipv6_never_reaches_split text_layer_v6 args "::1"%string [] (mkAddr V6 1)).
  - reflexivity.
  - reflexivity.
  - reflexivity.
Defined.

(** * Range summarisation *)

(** ** Trailing zero bits *)

Lemma odd_times_pow2 c :
  0 < c -> exists t m, 0 <= t /\ 0 <= m /\ c = (2 * m + 1) * 2 ^ t.
Proof.
  intros Hc. destruct c as [|p|p]; try lia. clear Hc.
  induction p as [p IH|p IH|].
  - exists 0, (Z.pos p). repeat split; lia.
  - destruct IH as (t & m & Ht & Hm & E).
    exists (t + 1), m. repeat split; try lia.
    rewrite Z.pow_add_r by lia. change (Z.pos p~0) with (2 * Z.pos p). rewrite E. ring.
  - exists 0, 0. repeat split; lia.
Qed.

Lemma testbit_add_low a n r i :
  0 <= n -> 0 <= r < 2 ^ n -> 0 <= i ->
  Z.testbit (a * 2 ^ n + r) i = if i <? n then Z.testbit r i else Z.testbit a (i - n).
Proof.
  intros Hn Hr Hi.
  assert (Hland : Z.land (a * 2 ^ n) r = 0).
  { apply Z.bits_inj'. intros j Hj. rewrite Z.land_spec, Z.bits_0.
    destruct (Z_lt_le_dec j n).
    - rewrite Z.mul_pow2_bits_low by lia. reflexivity.
    - rewrite (testbit_small r n j) by lia. apply andb_false_r. }
  rewrite Z.add_nocarry_lxor by assumption.
  rewrite Z.lxor_spec.
  destruct (Z.ltb_spec i n).
  - rewrite Z.mul_pow2_bits_low by lia. reflexivity.
  - rewrite (testbit_small r n i) by lia.
    rewrite Z.mul_pow2_bits by lia. apply xorb_false_r.
Qed.

Lemma low_zero_bits_mask m t :
  0 <= t -> 0 <= m ->
  Z.land (Z.lnot ((2 * m + 1) * 2 ^ t)) ((2 * m + 1) * 2 ^ t - 1) = Z.ones t.
Proof.
  intros Ht Hm.
  assert (Hp : 0 < 2 ^ t) by (apply Z.pow_pos_nonneg; lia).
  replace ((2 * m + 1) * 2 ^ t - 1) with (2 * m * 2 ^ t + (2 ^ t - 1)) by ring.
  apply Z.bits_inj'. intros i Hi.
  rewrite Z.land_spec, Z.lnot_spec by lia.
  rewrite testbit_add_low by lia.
  rewrite Z.mul_pow2_bits by lia.
  rewrite Z.testbit_ones_nonneg by lia.
  destruct (Z.ltb_spec i t) as [Hlt|Hge].
  - rewrite Z.testbit_neg_r by lia. simpl.
    replace (2 ^ t - 1) with (Z.ones t) by (rewrite Z.ones_equiv; lia).
    apply Z.ones_spec_low. lia.
  - destruct (Z.eq_dec i t) as [->|Hne].
    + rewrite Z.sub_diag, Z.testbit_odd_0. reflexivity.
    + replace (i - t) with (Z.succ (i - t - 1)) by lia.
      rewrite Z.testbit_odd_succ, Z.testbit_even_succ by lia.
      apply andb_negb_l.
Qed.

Lemma bit_length_ones t : 0 <= t -> bit_length (Z.ones t) = t.
Proof.
  intros Ht. unfold bit_length. rewrite Z.ones_equiv.
  destruct (Z.eq_dec t 0) as [->|Hne]; [reflexivity|].
  assert (H1 : 2 ^ 1 <= 2 ^ t) by (apply Z.pow_le_mono_r; lia).
  change (2 ^ 1) with 2 in H1.
  destruct (Z.eqb_spec (Z.pred (2 ^ t)) 0); [lia|].
  rewrite Z.abs_eq by lia.
  rewrite (Z.log2_unique (Z.pred (2 ^ t)) (t - 1)); [lia|lia|].
  replace (Z.succ (t - 1)) with t by lia.
  split; [|lia].
  replace t with (Z.succ (t - 1)) at 2 by lia.
  rewrite Z.pow_succ_r by lia.
  assert (0 < 2 ^ (t - 1)) by (apply Z.pow_pos_nonneg; lia). lia.
Qed.

Lemma bit_length_pos x : 0 < x -> bit_length x - 1 = Z.log2 x.
Proof.
  intros Hx. unfold bit_length.
  destruct (Z.eqb_spec x 0); [lia|]. rewrite Z.abs_eq by lia. lia.
Qed.

(** [_count_righthand_zero_bits] is the largest exponent, capped at the
    width, of a power of two that divides the number. *)
Lemma count_righthand_zero_bits_spec c w :
  0 <= c -> 0 <= w ->
  let t := count_righthand_zero_bits c w in
  0 <= t <= w /\ (2 ^ t | c) /\
  forall k, 0 <= k <= w -> (2 ^ k | c) -> k <= t.
Proof.
  intros Hc Hw t. subst t. unfold count_righthand_zero_bits.
  destruct (Z.eqb_spec c 0) as [->|Hne].
  - split; [lia|]. split; [apply Z.divide_0_r|]. intros; lia.
  - destruct (odd_times_pow2 c ltac:(lia)) as (t & m & Ht & Hm & E).
    assert (Hbl : bit_length (Z.land (Z.lnot c) (c - 1)) = t)
      by (rewrite E, low_zero_bits_mask, bit_length_ones by lia; reflexivity).
    rewrite Hbl.
    split; [lia|]. split.
    + rewrite E. apply Z.divide_mul_r.
      exists (2 ^ (t - Z.min w t)). rewrite <- Z.pow_add_r by lia. f_equal. lia.
    + intros k Hk Hdiv.
      assert (k <= t); [|lia].
      destruct (Z_le_gt_dec k t) as [|Hgt]; [assumption|exfalso].
      assert (Hd : (2 ^ (t + 1) | c)).
      { apply Z.divide_trans with (m := 2 ^ k); [|assumption].
        exists (2 ^ (k - (t + 1))). rewrite <- Z.pow_add_r by lia. f_equal. lia. }
      rewrite E in Hd. destruct Hd as [z Hz].
      rewrite Z.pow_add_r in Hz by lia.
      assert (Hp : 0 < 2 ^ t) by (apply Z.pow_pos_nonneg; lia).
      assert (2 * m + 1 = z * 2) by nia. lia.
Qed.

(** ** The greedy loop *)

(** Two networks of a family that share an address are nested. *)
Lemma laminar P Q :
  valid_network P -> valid_network Q -> net_version P = net_version Q ->
  prefixlen Q <= prefixlen P -> overlap P Q ->
  network_address Q <= network_address P /\
  broadcast_address P <= broadcast_address Q.
Proof.
  intros HvP HvQ Hver Hle (x & HxP & HxQ).
  apply in_network_iff in HxP; [|assumption].
  apply in_network_iff in HxQ; [|assumption].
  rewrite !broadcast_value by assumption.
  apply valid_network_aligned in HvP, HvQ.
  destruct HvP as (HpP & HaP & HalP). destruct HvQ as (HpQ & HaQ & HalQ).
  pose proof (block_of_pos P ltac:(lia)) as HbP.
  pose proof (block_of_pos Q ltac:(lia)) as HbQ.
  assert (Hdiv : (block_of P | block_of Q)).
  { unfold block_of. rewrite Hver in *.
    exists (2 ^ (prefixlen P - prefixlen Q)). rewrite <- Z.pow_add_r by lia.
    f_equal. lia. }
  apply Z.mod_divide in HalP, HalQ; try lia.
  assert (HQP : (block_of P | network_address Q))
    by (eapply Z.divide_trans; eassumption).
  pose proof (aligned_block_below (network_address Q) (block_of P)
                (network_address P + block_of P) HbP HQP) as H1.
  pose proof (aligned_block_below (network_address P) (block_of P)
                (network_address Q + block_of Q) HbP HalP) as H2.
  assert ((block_of P | network_address P + block_of P))
    by (apply Z.divide_add_r; [assumption|apply Z.divide_refl]).
  assert ((block_of P | network_address Q + block_of Q))
    by (apply Z.divide_add_r; assumption).
  specialize (H1 ltac:(assumption) ltac:(lia)).
  specialize (H2 ltac:(assumption) ltac:(lia)). lia.
Qed.

Section Greedy.
Variable v : version.
Variables a b : Z.
Hypothesis a_nonneg : 0 <= a.
Hypothesis b_in_range : b <= ALL_ONES v.

Let w : Z := max_prefixlen v.

Section Step.
Variable c : Z.
Hypothesis c_range : a <= c <= b.
Hypothesis c_clear : no_straddle v a b c.

Let n : Z := greedy_bits v b c.
Let net : IPNetwork := mkNet v c (w - n).

Lemma greedy_bits_facts :
  0 <= n <= w /\ (2 ^ n | c) /\ 2 ^ n <= b - c + 1 /\
  forall k, 0 <= k <= w -> (2 ^ k | c) -> 2 ^ k <= b - c + 1 -> k <= n.
Proof.
  pose proof (max_prefixlen_nonneg v) as Hw. fold w in Hw.
  destruct (count_righthand_zero_bits_spec c w ltac:(lia) Hw) as (Ht & Hdiv & Hmax).
  subst n. unfold greedy_bits. fold w.
  rewrite bit_length_pos by lia.
  set (t := count_righthand_zero_bits c w) in *.
  pose proof (Z.log2_nonneg (b - c + 1)) as HL.
  pose proof (Z.log2_spec (b - c + 1) ltac:(lia)) as [HL1 HL2].
  split; [lia|]. split; [|split].
  - apply Z.divide_trans with (m := 2 ^ t); [|assumption].
    exists (2 ^ (t - Z.min t (Z.log2 (b - c + 1)))).
    rewrite <- Z.pow_add_r by lia. f_equal. lia.
  - assert (2 ^ Z.min t (Z.log2 (b - c + 1)) <= 2 ^ Z.log2 (b - c + 1))
      by (apply Z.pow_le_mono_r; lia). lia.
  - intros k Hk Hkd Hkr.
    assert (k <= t) by now apply Hmax.
    assert (k <= Z.log2 (b - c + 1)) by (apply Z.log2_le_pow2; lia). lia.
Qed.

Lemma greedy_net_valid : valid_network net.
Proof.
  destruct greedy_bits_facts as (Hn & Hdiv & Hfit & _).
  apply valid_network_aligned. subst net. simpl. fold w.
  repeat split; try lia.
  unfold block_of. simpl. fold w. replace (w - (w - n)) with n by lia.
  apply Z.mod_divide; [|assumption].
  assert (0 < 2 ^ n) by (apply Z.pow_pos_nonneg; lia). lia.
Qed.

Lemma greedy_net_broadcast : broadcast_address net = c + 2 ^ n - 1.
Proof.
  destruct greedy_bits_facts as (Hn & _).
  rewrite broadcast_value by apply greedy_net_valid.
  unfold block_of. subst net. simpl. fold w. do 3 f_equal. lia.
Qed.

(** A network inside the range that starts at the cursor is no larger
    than the one the loop emits. *)
Lemma starts_at_cursor P :
  net_version P = v -> valid_network P -> within a b P ->
  network_address P = c -> prefixlen net <= prefixlen P.
Proof.
  intros Hver HvP [Hlo Hhi] Hs.
  destruct greedy_bits_facts as (Hn & _ & _ & Hmax).
  rewrite broadcast_value in Hhi by assumption.
  apply valid_network_aligned in HvP. destruct HvP as (HpP & HaP & HalP).
  assert (Hblk : block_of P = 2 ^ (w - prefixlen P))
    by (unfold block_of; rewrite Hver; reflexivity).
  rewrite Hver in HpP. change (max_prefixlen v) with w in HpP.
  rewrite Hblk in HalP, Hhi. rewrite Hs in HalP, Hhi.
  assert (HbP : 0 < 2 ^ (w - prefixlen P)) by (apply Z.pow_pos_nonneg; lia).
  apply Z.mod_divide in HalP; [|lia].
  specialize (Hmax (w - prefixlen P) ltac:(lia) HalP ltac:(lia)).
  subst net. simpl. lia.
Qed.

Lemma above_cursor P :
  net_version P = v -> valid_network P -> within a b P ->
  overlap P net -> prefixlen net <= prefixlen P.
Proof.
  intros Hver HvP Hin Hov.
  destruct (Z_le_gt_dec (prefixlen net) (prefixlen P)) as [|Hgt]; [assumption|exfalso].
  assert (Hov' : overlap net P) by (destruct Hov as (x & ? & ?); exists x; tauto).
  destruct (laminar net P greedy_net_valid HvP ltac:(now rewrite Hver) ltac:(lia) Hov')
    as [Hlo Hhi].
  change (network_address net) with c in Hlo.
  rewrite greedy_net_broadcast in Hhi.
  destruct greedy_bits_facts as (Hn & _).
  assert (0 < 2 ^ n) by (apply Z.pow_pos_nonneg; lia).
  destruct (Z.eq_dec (network_address P) c) as [Heq|Hne].
  - pose proof (starts_at_cursor P Hver HvP Hin Heq). lia.
  - apply (c_clear P Hver HvP Hin). lia.
Qed.

Lemma greedy_net_maximal : maximal_in v a b net.
Proof.
  intros P Hver HvP Hin Hov.
  pose proof (above_cursor P Hver HvP Hin Hov) as Hle.
  destruct (laminar P net HvP greedy_net_valid Hver Hle Hov) as [Hlo Hhi].
  intros x Hx. unfold in_network in *. lia.
Qed.

Lemma greedy_next_clear : no_straddle v a b (c + 2 ^ n).
Proof.
  intros P Hver HvP Hin [Hs He].
  destruct greedy_bits_facts as (Hn & _).
  assert (Hpos : 0 < 2 ^ n) by (apply Z.pow_pos_nonneg; lia).
  assert (Hov : overlap P net).
  { exists (c + 2 ^ n - 1). unfold in_network.
    rewrite greedy_net_broadcast. change (network_address net) with c. lia. }
  pose proof (above_cursor P Hver HvP Hin Hov) as Hle.
  destruct (laminar P net HvP greedy_net_valid Hver Hle Hov) as [Hlo Hhi].
  rewrite greedy_net_broadcast in Hhi. lia.
Qed.

Lemma potential_pos : 1 <= potential v b c.
Proof.
  pose proof (max_prefixlen_nonneg v) as Hw. fold w in Hw.
  destruct (count_righthand_zero_bits_spec c w ltac:(lia) Hw) as (Ht & _).
  unfold potential. fold w.
  pose proof (bit_length_pos (b - c + 1) ltac:(lia)) as Hbl.
  pose proof (Z.log2_nonneg (b - c + 1)). lia.
Qed.

(** A turn that does not finish the range lowers the potential. *)
Lemma potential_step :
  c + 2 ^ n <= b -> potential v b (c + 2 ^ n) < potential v b c.
Proof.
  intros Hmore.
  pose proof (max_prefixlen_nonneg v) as Hw. fold w in Hw.
  destruct greedy_bits_facts as (Hn & Hdivn & Hfit & _).
  assert (Hpos : 0 < 2 ^ n) by (apply Z.pow_pos_nonneg; lia).
  destruct (count_righthand_zero_bits_spec c w ltac:(lia) Hw) as (Ht & Hdiv & Hmax).
  destruct (count_righthand_zero_bits_spec (c + 2 ^ n) w ltac:(lia) Hw)
    as (Ht' & Hdiv' & Hmax').
  unfold potential. fold w.
  pose proof (bit_length_pos (b - c + 1) ltac:(lia)) as Hbl.
  pose proof (bit_length_pos (b - (c + 2 ^ n) + 1) ltac:(lia)) as Hbl'.
  pose proof (Z.log2_nonneg (b - c + 1)) as HL.
  pose proof (Z.log2_nonneg (b - (c + 2 ^ n) + 1)) as HL'.
  pose proof (Z.log2_spec (b - c + 1) ltac:(lia)) as [HL1 HL2].
  assert (Hmono : Z.log2 (b - (c + 2 ^ n) + 1) <= Z.log2 (b - c + 1))
    by (apply Z.log2_le_mono; lia).
  assert (Hn_eq : n = Z.min (count_righthand_zero_bits c w) (Z.log2 (b - c + 1))).
  { subst n. unfold greedy_bits. fold w. fold w. rewrite <- Hbl. reflexivity. }
  set (t := count_righthand_zero_bits c w) in *.
  set (t' := count_righthand_zero_bits (c + 2 ^ n) w) in *.
  set (L := Z.log2 (b - c + 1)) in *.
  set (L' := Z.log2 (b - (c + 2 ^ n) + 1)) in *.
  destruct (Z_le_gt_dec t L) as [HtL|HtL].
  - (* the alignment of the cursor limits the block *)
    assert (Hnt : n = t) by lia.
    assert (Htw : t < w).
    { destruct (Z_lt_le_dec t w) as [|Hge]; [assumption|exfalso].
      assert (Hpw : 2 ^ t = 2 ^ w) by (f_equal; lia).
      assert (Hpn : 2 ^ n = 2 ^ w) by (f_equal; lia).
      unfold ALL_ONES in b_in_range. fold w in b_in_range.
      rewrite Hpn in Hmore. lia. }
    assert (Hnext : t + 1 <= t').
    { apply Hmax'; [lia|]. rewrite Hnt.
      destruct Hdiv as [m Hm].
      assert (Hodd : m mod 2 = 1).
      { destruct (Z.mod_pos_bound m 2 ltac:(lia)).
        destruct (Z.eq_dec (m mod 2) 0) as [He|]; [exfalso|lia].
        apply Z.mod_divide in He; [|lia]. destruct He as [j Hj].
        assert (Hbig : (2 ^ (t + 1) | c)).
        { exists j. rewrite Hm, Hj, Z.pow_add_r by lia. ring. }
        specialize (Hmax (t + 1) ltac:(lia) Hbig). lia. }
      exists ((m + 1) / 2).
      rewrite Z.pow_add_r by lia. rewrite Hm.
      pose proof (Z.div_mod (m + 1) 2 ltac:(lia)) as Hdm.
      assert (Hev : (m + 1) mod 2 = 0).
      { rewrite Z.add_mod, Hodd by lia. reflexivity. }
      rewrite Hev in Hdm. nia. }
    lia.
  - (* what remains of the range limits the block *)
    assert (HnL : n = L) by lia.
    assert (Hless : L' < L).
    { apply Z.log2_lt_pow2; [lia|]. rewrite HnL in *.
      replace (2 ^ Z.succ L) with (2 * 2 ^ L) in HL2
        by (rewrite Z.pow_succ_r by lia; reflexivity). lia. }
    assert (Hnext : L <= t').
    { apply Hmax'; [lia|]. rewrite HnL.
      apply Z.divide_add_r; [|apply Z.divide_refl].
      apply Z.divide_trans with (m := 2 ^ t); [|assumption].
      exists (2 ^ (t - L)). rewrite <- Z.pow_add_r by lia. f_equal. lia. }
    lia.
Qed.
End Step.

(** The loop terminates within its budget and tiles the rest of the range
    with networks that are maximal inside [a..b]. *)
Lemma summarize_loop_spec : forall (budget : nat) c,
  a <= c <= b + 1 -> (c <= b -> potential v b c <= Z.of_nat budget) ->
  no_straddle v a b c ->
  exists l,
    summarize_loop budget v c b = Ok l /\ tiles v c l b /\
    Forall (maximal_in v a b) l.
Proof.
  induction budget as [|budget IH]; intros c Hc Hbud Hclear.
  - exists []. cbn [summarize_loop].
    destruct (Z.leb_spec c b) as [Hle|Hgt];
      [pose proof (potential_pos c ltac:(lia)); specialize (Hbud Hle); lia|].
    repeat split; [simpl; lia|constructor].
  - cbn [summarize_loop].
    destruct (Z.leb_spec c b) as [Hle|Hgt];
      [|exists []; repeat split; [simpl; lia|constructor]].
    fold (greedy_bits v b c). fold w.
    destruct (greedy_bits_facts c ltac:(lia)) as (Hn & Hdiv & Hfit & _).
    pose proof (greedy_net_valid c ltac:(lia)) as Hvalid.
    pose proof (greedy_net_broadcast c ltac:(lia)) as Hbc.
    pose proof (greedy_net_maximal c ltac:(lia) Hclear) as Hmax.
    pose proof (greedy_next_clear c ltac:(lia) Hclear) as Hnext.
    assert (Hpos : 0 < 2 ^ greedy_bits v b c) by (apply Z.pow_pos_nonneg; lia).
    rewrite make_network_ok by exact Hvalid. cbn [rbind].
    rewrite Z.shiftl_mul_pow2, Z.mul_1_l by lia.
    destruct (Z.eqb_spec (c + 2 ^ greedy_bits v b c - 1) (ALL_ONES v)) as [Htop|Hnot].
    + exists [mkNet v c (w - greedy_bits v b c)].
      split; [reflexivity|]. split; [|constructor; [exact Hmax|constructor]].
      cbn [tiles]. rewrite Hbc.
      split; [reflexivity|]. split; [exact Hvalid|]. split; [reflexivity|]. lia.
    + assert (Hless : c + 2 ^ greedy_bits v b c <= b ->
                       potential v b (c + 2 ^ greedy_bits v b c) <= Z.of_nat budget).
      { intros Hmore. specialize (Hbud Hle).
        pose proof (potential_step c ltac:(lia) Hmore). lia. }
      destruct (IH (c + 2 ^ greedy_bits v b c) ltac:(lia) Hless Hnext)
        as (l & Hl & Htl & Hml).
      exists (mkNet v c (w - greedy_bits v b c) :: l).
      rewrite Hl. cbn [rbind]. split; [reflexivity|].
      split; [|constructor; [exact Hmax|exact Hml]].
      cbn [tiles]. rewrite Hbc.
      split; [reflexivity|]. split; [exact Hvalid|]. split; [reflexivity|].
      replace (c + 2 ^ greedy_bits v b c - 1 + 1) with (c + 2 ^ greedy_bits v b c) by lia.
      exact Htl.
Qed.

Lemma potential_bound c : 0 <= c <= b -> potential v b c <= 2 * (w + 1).
Proof.
  intros Hc.
  pose proof (max_prefixlen_nonneg v) as Hw. fold w in Hw.
  destruct (count_righthand_zero_bits_spec c w ltac:(lia) Hw) as (Ht & _).
  unfold potential. fold w.
  pose proof (bit_length_pos (b - c + 1) ltac:(lia)) as Hbl.
  pose proof (Z.log2_nonneg (b - c + 1)) as HL.
  assert (Z.log2 (b - c + 1) <= w).
  { destruct (Z_le_gt_dec (Z.log2 (b - c + 1)) w) as [|Hgt]; [assumption|exfalso].
    pose proof (Z.log2_spec (b - c + 1) ltac:(lia)) as [HL1 _].
    assert (2 ^ (w + 1) <= 2 ^ Z.log2 (b - c + 1)) by (apply Z.pow_le_mono_r; lia).
    rewrite Z.pow_add_r in * by lia.
    unfold ALL_ONES in b_in_range. fold w in b_in_range.
    assert (0 < 2 ^ w) by (apply Z.pow_pos_nonneg; lia). lia. }
  lia.
Qed.
End Greedy.

(** ** Covers *)

Lemma network_nonempty n : valid_network n -> network_address n <= broadcast_address n.
Proof.
  intros Hv. rewrite broadcast_value by assumption.
  pose proof (block_of_pos n ltac:(destruct Hv as ((_ & H) & _); exact H)). lia.
Qed.

Lemma tiles_le v l : forall c b, tiles v c l b -> c <= b + 1.
Proof.
  induction l as [|n r IH]; intros c b H; cbn [tiles] in H; [lia|].
  destruct H as (_ & Hv & Hc & Hr). apply IH in Hr.
  pose proof (network_nonempty n Hv). lia.
Qed.

Lemma tiles_family v l : forall c b, tiles v c l b -> Forall (of_family v) l.
Proof.
  induction l as [|n r IH]; intros c b H; cbn [tiles] in H; [constructor|].
  destruct H as (Hver & Hv & _ & Hr). constructor; [now split|]. eapply IH; eassumption.
Qed.

Lemma tiles_within v l : forall c b n,
  tiles v c l b -> In n l -> within c b n.
Proof.
  induction l as [|m r IH]; intros c b n H Hin; [destruct Hin|].
  cbn [tiles] in H. destruct H as (_ & Hv & Hc & Hr).
  pose proof (network_nonempty m Hv) as Hne.
  pose proof (tiles_le _ _ _ _ Hr) as Hle.
  destruct Hin as [<-|Hin].
  - unfold within. lia.
  - destruct (IH _ _ _ Hr Hin) as [Hlo Hhi]. unfold within. lia.
Qed.

Lemma tiles_cover v l : forall c b, tiles v c l b -> exact_cover l c b.
Proof.
  induction l as [|n r IH]; intros c b H x; cbn [tiles] in H.
  - split; [lia|]. intros (n & [] & _).
  - destruct H as (_ & Hv & Hc & Hr).
    pose proof (network_nonempty n Hv) as Hne.
    pose proof (tiles_le _ _ _ _ Hr) as Hle.
    specialize (IH _ _ Hr x). split.
    + intros Hx. destruct (Z_le_gt_dec x (broadcast_address n)) as [Hin|Hout].
      * exists n. split; [now left|]. unfold in_network. lia.
      * destruct IH as [IH _]. destruct (IH ltac:(lia)) as (m & Hm & Hxm).
        exists m. split; [now right|assumption].
    + intros (m & [<-|Hm] & Hxm).
      * unfold in_network in Hxm. lia.
      * destruct IH as [_ IH]. specialize (IH (ex_intro _ m (conj Hm Hxm))). lia.
Qed.

Lemma tiles_disjoint v l : forall c b, tiles v c l b -> pairwise_disjoint l.
Proof.
  induction l as [|n r IH]; intros c b H i j p q Hne Hi Hj; [now destruct i|].
  cbn [tiles] in H. destruct H as (_ & Hv & Hc & Hr).
  assert (Hafter : forall (k : nat) m x, r !! k = Some m -> in_network x m ->
                     broadcast_address n < x).
  { intros k m x Hk Hx.
    destruct (tiles_within _ _ _ _ m Hr) as [Hlo _].
    - apply list_elem_of_In. eapply list_elem_of_lookup_2. exact Hk.
    - unfold in_network in Hx. lia. }
  destruct i as [|i], j as [|j]; try lia; cbn in Hi, Hj.
  - injection Hi as <-. intros x [Hx1 Hx2].
    pose proof (Hafter j q x Hj Hx2). unfold in_network in Hx1. lia.
  - injection Hj as <-. intros x [Hx1 Hx2].
    pose proof (Hafter i p x Hi Hx1). unfold in_network in Hx2. lia.
  - eapply (IH _ _ Hr i j); [lia|assumption|assumption].
Qed.

(** Networks of a family with the same addresses are the same network. *)
Lemma same_addresses_same_network P Q :
  valid_network P -> valid_network Q -> net_version P = net_version Q ->
  network_address P = network_address Q ->
  broadcast_address P = broadcast_address Q -> P = Q.
Proof.
  intros HvP HvQ Hver Hs Hb.
  rewrite !broadcast_value in Hb by assumption.
  destruct HvP as (HpP & _). destruct HvQ as (HpQ & _).
  destruct P as [vP sP pP], Q as [vQ sQ pQ]. simpl in *. subst vQ sQ.
  unfold block_of in Hb. simpl in Hb.
  assert (Heq : 2 ^ (max_prefixlen vP - pP) = 2 ^ (max_prefixlen vP - pQ)) by lia.
  apply Z.pow_inj_r in Heq; try lia. f_equal. lia.
Qed.

Lemma nodup_map_injective {A B} (f : A -> B) (l : list A) x y :
  List.NoDup (map f l) -> In x l -> In y l -> f x = f y -> x = y.
Proof.
  induction l as [|a l IH]; intros Hnd Hx Hy Heq; [destruct Hx|].
  cbn [map] in Hnd. inversion Hnd as [|? ? Hnotin Hnd']; subst.
  destruct Hx as [<-|Hx], Hy as [<-|Hy]; try reflexivity.
  - exfalso. apply Hnotin. rewrite Heq. now apply in_map.
  - exfalso. apply Hnotin. rewrite <- Heq. now apply in_map.
  - now apply IH.
Qed.

(** ** Minimality *)

Section Minimal.
Variable v : version.
Variables a b : Z.
Variable G : list IPNetwork.
Hypothesis G_tiles : tiles v a G b.
Hypothesis G_maximal : Forall (maximal_in v a b) G.

Variable L : list IPNetwork.
Hypothesis L_family : Forall (of_family v) L.
Hypothesis L_cover : exact_cover L a b.

Lemma cover_within P : In P L -> within a b P.
Proof.
intros HP.
assert (Hv : valid_network P).
{ rewrite Forall_forall in L_family. apply L_family. now apply list_elem_of_In. }
pose proof (network_nonempty P Hv) as Hne.
assert (H1 : a <= network_address P <= b).
{ apply L_cover. exists P. split; [assumption|]. unfold in_network. lia. }
assert (H2 : a <= broadcast_address P <= b).
{ apply L_cover. exists P. split; [assumption|]. unfold in_network. lia. }
unfold within. lia.
Qed.

Lemma owner_spec P :
In P L -> In (owner G P) G /\ subnet_of P (owner G P).
Proof.
intros HP.
assert (HfP : of_family v P).
{ rewrite Forall_forall in L_family. apply L_family. now apply list_elem_of_In. }
destruct HfP as [Hver Hv].
pose proof (cover_within P HP) as Hin.
pose proof (network_nonempty P Hv) as Hne.
destruct (tiles_cover _ _ _ _ G_tiles (network_address P)) as [Hc _].
destruct (Hc ltac:(unfold within in Hin; lia)) as (g0 & Hg0 & Hx0).
unfold owner.
destruct (find (holds_base P) G) as [g|] eqn:Ef.
- apply find_some in Ef. destruct Ef as [Hg Hh].
  split; [assumption|].
  unfold holds_base in Hh. apply andb_prop in Hh. destruct Hh as [H1 H2].
  apply Z.leb_le in H1, H2.
  rewrite Forall_forall in G_maximal.
  apply (G_maximal g ltac:(now apply list_elem_of_In) P Hver Hv Hin).
  exists (network_address P). unfold in_network. lia.
- exfalso. apply (find_none _ _ Ef) in Hg0.
  unfold holds_base in Hg0. unfold in_network in Hx0.
  destruct (Z.leb_spec (network_address g0) (network_address P)); [|lia].
  destruct (Z.leb_spec (network_address P) (broadcast_address g0)); [|lia].
  discriminate.
Qed.

(** Two networks of the tiling that share an address are one network. *)
Lemma tiling_overlap g g' : In g G -> In g' G -> overlap g g' -> g = g'.
Proof.
intros Hg Hg' (x & Hx & Hx').
apply list_elem_of_In, list_elem_of_lookup in Hg, Hg'.
destruct Hg as [i Hi]. destruct Hg' as [j Hj].
destruct (Nat.eq_dec i j) as [->|Hne]; [congruence|].
exfalso. apply (tiles_disjoint _ _ _ _ G_tiles i j g g' Hne Hi Hj x). now split.
Qed.

Lemma tiling_nodup : List.NoDup G.
Proof.
apply NoDup_ListNoDup, NoDup_alt. intros i j g Hi Hj.
destruct (Nat.eq_dec i j) as [|Hne]; [assumption|exfalso].
assert (Hv : valid_network g).
{ pose proof (tiles_family _ _ _ _ G_tiles) as Hf. rewrite Forall_forall in Hf.
  apply (Hf g). eapply list_elem_of_lookup_2. exact Hi. }
pose proof (network_nonempty g Hv).
apply (tiles_disjoint _ _ _ _ G_tiles i j g g Hne Hi Hj (network_address g)).
unfold in_network. lia.
Qed.

Lemma tiling_owned : incl G (map (owner G) L).
Proof.
intros g Hg.
assert (Hv : valid_network g).
{ pose proof (tiles_family _ _ _ _ G_tiles) as Hf. rewrite Forall_forall in Hf.
  apply (Hf g). now apply list_elem_of_In. }
pose proof (network_nonempty g Hv) as Hne.
pose proof (tiles_within _ _ _ _ g G_tiles Hg) as [Hlo Hhi].
destruct (L_cover (network_address g)) as [Hc _].
destruct (Hc ltac:(lia)) as (P & HP & HxP).
destruct (owner_spec P HP) as [Ho Hsub].
apply in_map_iff. exists P. split; [|assumption].
apply tiling_overlap; try assumption.
exists (network_address g). split; [now apply Hsub|]. unfold in_network. lia.
Qed.

(** No cover of the range has fewer networks than the tiling. *)
Lemma tiling_shortest : (length G <= length L)%nat.
Proof.
rewrite <- (length_map (owner G) L).
apply NoDup_incl_length; [apply tiling_nodup | apply tiling_owned].
Qed.

(** A cover with as few networks as the tiling is the tiling, up to order. *)
Lemma tiling_unique : (length L <= length G)%nat -> Permutation G L.
Proof.
intros Hlen.
assert (Hperm : Permutation G (map (owner G) L)).
{ apply NoDup_Permutation_bis; [apply tiling_nodup | | apply tiling_owned].
  now rewrite length_map. }
assert (Hnd : List.NoDup (map (owner G) L))
  by (eapply Permutation_NoDup; [exact Hperm | apply tiling_nodup]).
assert (Hid : forall P, In P L -> owner G P = P).
{ intros P HP. destruct (owner_spec P HP) as [Ho Hsub].
  assert (HfP : of_family v P).
  { rewrite Forall_forall in L_family. apply L_family. now apply list_elem_of_In. }
  destruct HfP as [HverP HvP].
  assert (Hfg : of_family v (owner G P)).
  { pose proof (tiles_family _ _ _ _ G_tiles) as Hf. rewrite Forall_forall in Hf.
    apply Hf. now apply list_elem_of_In. }
  destruct Hfg as [Hverg Hvg].
  pose proof (tiles_within _ _ _ _ _ G_tiles Ho) as [Hglo Hghi].
  pose proof (network_nonempty P HvP) as HneP.
  pose proof (network_nonempty _ Hvg) as Hneg.
  assert (Hback : subnet_of (owner G P) P).
  { intros x Hx.
    destruct (L_cover x) as [Hc _].
    destruct (Hc ltac:(unfold in_network in Hx; lia)) as (P' & HP' & HxP').
    destruct (owner_spec P' HP') as [Ho' Hsub'].
    assert (Hsame : owner G P' = owner G P).
    { apply tiling_overlap; try assumption.
      exists x. split; [now apply Hsub'|assumption]. }
    rewrite (nodup_map_injective (owner G) L P P' Hnd HP HP' (eq_sym Hsame)).
    assumption. }
  apply same_addresses_same_network; try assumption; [congruence| |].
  - assert (H1 : in_network (network_address P) (owner G P))
      by (apply Hsub; unfold in_network; lia).
    assert (H2 : in_network (network_address (owner G P)) P)
      by (apply Hback; unfold in_network; lia).
    unfold in_network in H1, H2. lia.
  - assert (H1 : in_network (broadcast_address P) (owner G P))
      by (apply Hsub; unfold in_network; lia).
    assert (H2 : in_network (broadcast_address (owner G P)) P)
      by (apply Hback; unfold in_network; lia).
    unfold in_network in H1, H2. lia. }
rewrite Hperm.
rewrite (map_ext_in (owner G) id L) by (intros P HP; now apply Hid).
now rewrite map_id.
Qed.
End Minimal.

Lemma version_eqb_eq x y : version_eqb x y = true <-> x = y.
Proof. destruct x, y; simpl; split; congruence. Qed.

Lemma no_straddle_start v a b : no_straddle v a b a.
Proof. intros P _ _ [Hlo _] [Hs _]. lia. Qed.

(** The worked example of the specification, evaluated. *)
Example summarize_10_0_0_5_to_18 :
  summarize_address_range (mkAddr V4 167772165) (mkAddr V4 167772178)
  = Ok [mkNet V4 167772165 32; mkNet V4 167772166 31; mkNet V4 167772168 29;
        mkNet V4 167772176 31; mkNet V4 167772178 32].
Proof. vm_compute. reflexivity. Qed.

(** C5: for two addresses of one family, first <= last, the summary is an
    ordered list of networks that follow one another without a gap from the
    first address to the last, so that their union is exactly the range and
    no two overlap; no other cover of the range by networks of the family is
    shorter, and one that is as short is the same list up to order. *)
Theorem summarize_minimal_cover (first last : IPAddress) :
  addr_version first = addr_version last ->
  0 <= ip first -> ip first <= ip last -> ip last <= ALL_ONES (addr_version first) ->
  exists l,
    summarize_address_range first last = Ok l /\
    Forall (of_family (addr_version first)) l /\
    tiles (addr_version first) (ip first) l (ip last) /\
    exact_cover l (ip first) (ip last) /\
    pairwise_disjoint l /\
    forall l',
      Forall (of_family (addr_version first)) l' ->
      exact_cover l' (ip first) (ip last) ->
      (length l <= length l')%nat /\
      ((length l' <= length l)%nat -> Permutation l l').
Proof.
  intros Hver H0 Hle Htop.
  pose proof (max_prefixlen_nonneg (addr_version first)) as Hw.
  destruct (summarize_loop_spec (addr_version first) (ip first) (ip last) H0 Htop
              (Z.to_nat (2 * (max_prefixlen (addr_version first) + 1))) (ip first)
              ltac:(lia)
              ltac:(intros _;
                    pose proof (potential_bound (addr_version first) (ip last) Htop
                                  (ip first) ltac:(lia)); lia)
              (no_straddle_start _ _ _))
    as (l & Hrun & Htiles & Hmax).
  exists l. split.
  - unfold summarize_address_range.
    rewrite (proj2 (version_eqb_eq _ _) Hver). cbn [negb].
    destruct (Z.ltb_spec (ip last) (ip first)); [lia|]. exact Hrun.
  - split; [eapply tiles_family; exact Htiles|].
    split; [exact Htiles|].
    split; [eapply tiles_cover; exact Htiles|].
    split; [eapply tiles_disjoint; exact Htiles|].
    intros l' Hfam Hcov. split.
    + eapply tiling_shortest; eassumption.
    + eapply tiling_unique; eassumption.
Qed.

Lemma summarize_minimal_cover_witness :
  exists l,
    summarize_address_range (mkAddr V4 167772165) (mkAddr V4 167772178) = Ok l /\
    Forall (of_family V4) l /\
    tiles V4 167772165 l 167772178 /\
    exact_cover l 167772165 167772178 /\
    pairwise_disjoint l /\
    forall l',
      Forall (of_family V4) l' ->
      exact_cover l' 167772165 167772178 ->
      (length l <= length l')%nat /\
      ((length l' <= length l)%nat -> Permutation l l').
Proof.
  apply (summarize_minimal_cover (mkAddr V4 167772165) (mkAddr V4 167772178)).
  - reflexivity.
  - simpl. lia.
  - simpl. lia.
  - vm_compute. congruence.
Defined.

(** * The layout of an allocation *)

(** ** The sort is stable *)

Lemma insert_block_stable b l :
  StronglySorted placed_before l ->
  Forall (fun c => (original_index b < original_index c)%nat) l ->
  StronglySorted placed_before (insert_block b l).
Proof.
  induction 1 as [|c l Hs IH Hall]; intros Hidx; simpl.
  - constructor; constructor.
  - inversion Hidx as [|? ? Hc Hrest]; subst.
    destruct (Z.ltb_spec (block_size b) (block_size c)) as [Hlt|Hge].
    + constructor; [now apply IH|].
      rewrite (Forall_forall (placed_before c)).
      intros x Hx. apply list_elem_of_In in Hx.
      apply (Permutation_in _ (insert_block_perm b l)) in Hx.
      destruct Hx as [<-|Hx]; [left; lia|].
      rewrite (Forall_forall (placed_before c)) in Hall. apply Hall.
      now apply list_elem_of_In.
    + constructor; [now constructor|].
      constructor.
      * unfold placed_before. lia.
      * rewrite Forall_forall in Hall, Hrest. rewrite Forall_forall.
        intros x Hx. specialize (Hall x Hx). specialize (Hrest x Hx).
        unfold placed_before in *. simpl in Hrest. lia.
Qed.

Lemma sort_blocks_stable sizes : forall i,
  StronglySorted placed_before
    (sort_blocks (imap (fun k h => block_for (i + k) h) sizes)).
Proof.
  induction sizes as [|h sizes IH]; intros i; [constructor|].
  cbn [imap]. unfold sort_blocks. cbn [foldr].
  fold (sort_blocks (imap ((fun k h => block_for (i + k) h) ∘ S) sizes)).
  assert (Heq : imap ((fun k h => block_for (i + k) h) ∘ S) sizes
                = imap (fun k h => block_for (S i + k) h) sizes).
  { apply imap_ext. intros k x _. simpl. unfold block_for. f_equal. lia. }
  rewrite Heq. apply insert_block_stable; [apply IH|].
  rewrite Forall_forall. intros c Hc.
  apply list_elem_of_In in Hc.
  apply (Permutation_in _ (sort_blocks_perm _)) in Hc.
  apply (in_map original_index) in Hc.
  rewrite imap_block_indices in Hc. apply in_seq in Hc. simpl. lia.
Qed.

Lemma sorted_blocks_stable sizes : StronglySorted placed_before (sorted_blocks sizes).
Proof. apply sort_blocks_stable. Qed.

Lemma placed_before_asym a b : placed_before a b -> placed_before b a -> False.
Proof. unfold placed_before. lia. Qed.

Lemma sorted_blocks_sum sizes :
  sum_block_sizes (sorted_blocks sizes) = total_rounded sizes.
Proof. apply sorted_sum. Qed.

(** The position in the sorted list follows the order. *)
Lemma sorted_position sizes (j1 j2 : nat) b1 b2 :
  sorted_blocks sizes !! j1 = Some b1 -> sorted_blocks sizes !! j2 = Some b2 ->
  placed_before b1 b2 -> (j1 < j2)%nat.
Proof.
  intros H1 H2 Hb.
  destruct (Nat.lt_total j1 j2) as [Hlt|[Heq|Hgt]]; [assumption|exfalso..].
  - subst j2. rewrite H1 in H2. injection H2 as ->.
    eapply placed_before_asym; eassumption.
  - pose proof (strongly_sorted_lookup _ _ (sorted_blocks_stable sizes)
                  j2 j1 b2 b1 Hgt H2 H1).
    eapply placed_before_asym; eassumption.
Qed.

(** ** Where every block lies *)

(** The cursor of the placement loop sweeps the blocks without a gap. *)
Lemma sweep_covers blocks : forall cur x,
  Forall pow2_block blocks ->
  cur <= x < cur + sum_block_sizes blocks ->
  exists (j : nat) b,
    blocks !! j = Some b /\
    cur + sum_block_sizes (take j blocks) <= x
      < cur + sum_block_sizes (take j blocks) + block_size b.
Proof.
  induction blocks as [|b blocks IH]; intros cur x Hpow Hx.
  - unfold sum_block_sizes in Hx. simpl in Hx. lia.
  - inversion Hpow as [|? ? Hb Hrest]; subst.
    rewrite sum_block_sizes_cons in Hx.
    destruct (Z_lt_le_dec x (cur + block_size b)) as [Hlt|Hge].
    + exists 0%nat, b. split; [reflexivity|].
      cbn [take]. unfold sum_block_sizes. simpl. lia.
    + destruct (IH (cur + block_size b) x Hrest ltac:(lia)) as (j & c & Hj & Hc).
      exists (S j), c. split; [exact Hj|].
      cbn [take]. rewrite sum_block_sizes_cons. lia.
Qed.

Section Layout.
Variable network : IPNetwork.
Variable sizes : list Z.
Hypothesis network_v4 : net_version network = V4.
Hypothesis network_valid : valid_network network.
Hypothesis sizes_defined : Forall (fun h => -1 <= h) sizes.
Hypothesis sizes_fit : total_rounded sizes <= num_addresses network.
Hypothesis below_top :
  network_address network + total_rounded sizes <= ALL_ONES V4.

Let base : Z := network_address network.
Let sorted : list needed_block := sorted_blocks sizes.

(** The listing, with the place of every entry: the block of requirement
    [i] starts where the blocks sorted before it end. *)
Lemma allocation_layout :
  exists entries,
    handle_split_network network sizes = Ok (Allocated entries) /\
    map requested_size entries = sizes /\
    forall (i : nat) e, entries !! i = Some e ->
      exists j : nat,
        sorted !! j = Some (block_for i (requested_size e)) /\
        network_address (entry_subnet e) = base + sum_block_sizes (take j sorted) /\
        broadcast_address (entry_subnet e)
        = base + sum_block_sizes (take j sorted) + rounded_block (requested_size e) - 1.
Proof.
  set (final := assign_all (replicate (length sizes) None) (placements base sorted)).
  assert (Hfl : length final = length sizes) by apply final_length.
  destruct (all_filled final) as [nets Hnets].
  { intros i Hi. rewrite Hfl in Hi.
    apply lookup_lt_is_Some in Hi. destruct Hi as [h Hh].
    destruct (final_lookup network sizes i h Hh) as (j & _ & Hf). eauto. }
  assert (Hlen : length sizes = length nets).
  { rewrite <- Hfl, Hnets. now rewrite length_map. }
  assert (Hnet : forall (i : nat) h n, sizes !! i = Some h -> nets !! i = Some n ->
            exists j : nat, sorted !! j = Some (block_for i h) /\
              n = mkNet V4 (base + sum_block_sizes (take j sorted))
                        (32 - Z.log2 (rounded_block h))).
  { intros i h n Hh Hn. destruct (final_lookup network sizes i h Hh) as (j & Hj & Hf).
    exists j. split; [exact Hj|].
    fold base in Hf. fold (sorted_blocks sizes) in Hf. fold sorted in Hf. fold final in Hf.
    rewrite Hnets, lookup_map, Hn in Hf. simpl in Hf. congruence. }
  destruct (print_allocated_ok nets 0 sizes Hlen) as (es & Hes & Hsub & Hreq & _ & Hblk).
  { rewrite Forall_lookup. intros i n Hn.
    assert (Hi : (i < length sizes)%nat) by (rewrite Hlen; eapply lookup_lt_Some; exact Hn).
    apply lookup_lt_is_Some in Hi. destruct Hi as [h Hh].
    destruct (Hnet i h n Hh Hn) as (j & Hj & ->).
    split; [reflexivity|].
    now apply (placed_fits network sizes network_v4 network_valid sizes_fit below_top i j h). }
  exists es. split; [|split; [exact Hreq|]].
  - unfold handle_split_network.
    rewrite needed_blocks_from_ok by assumption. cbn [rbind].
    fold (sorted_blocks sizes). fold sorted.
    unfold sorted at 1, sorted_blocks. rewrite sorted_sum.
    destruct (Z.ltb_spec (num_addresses network) (total_rounded sizes)); [lia|].
    fold base.
    pose proof (place_sorted network sizes network_v4 network_valid sizes_fit below_top) as Hp.
    fold base in Hp. fold (sorted_blocks sizes) in Hp. fold sorted in Hp. fold final in Hp.
    rewrite Hp. cbn [rbind]. rewrite Hnets, Hes. reflexivity.
  - intros i e He.
    assert (Hn : nets !! i = Some (entry_subnet e))
      by (rewrite <- Hsub, lookup_map, He; reflexivity).
    assert (Hh : sizes !! i = Some (requested_size e))
      by (rewrite <- Hreq, lookup_map, He; reflexivity).
    destruct (Hnet i _ _ Hh Hn) as (j & Hj & Hnj).
    exists j. split; [exact Hj|].
    destruct (placed_fits network sizes network_v4 network_valid sizes_fit below_top
                i j _ Hh Hj) as (Hv & Hnum & _ & _).
    fold base in Hv, Hnum. fold (sorted_blocks sizes) in Hv, Hnum. fold sorted in Hv, Hnum.
    rewrite <- Hnj in Hv, Hnum.
    split; [rewrite Hnj; reflexivity|].
    unfold num_addresses in Hnum. rewrite Hnj in Hnum |- *. simpl in *. lia.
Qed.
End Layout.

(** X3: the allocated blocks leave no gap.  When the requirements fit and
    the blocks stop short of the last IPv4 address, the addresses that
    belong to some allocated block are exactly those from the parent's base
    up to, but not including, the base plus the sum of the block sizes. *)
Theorem allocation_contiguous (network : IPNetwork) (sizes : list Z) :
  net_version network = V4 -> valid_network network ->
  Forall (fun h => -1 <= h) sizes ->
  total_rounded sizes <= num_addresses network ->
  network_address network + total_rounded sizes <= ALL_ONES V4 ->
  exists entries,
    handle_split_network network sizes = Ok (Allocated entries) /\
    forall x,
      network_address network <= x < network_address network + total_rounded sizes
      <-> exists e, In e entries /\ in_network x (entry_subnet e).
Proof.
  intros H4 Hv Hall Hfit Htop.
  destruct (allocation_layout network sizes H4 Hv Hall Hfit Htop)
    as (es & Hrun & Hreq & Hlay).
  exists es. split; [exact Hrun|].
  pose proof (sorted_pow2 network sizes H4 Hv Hfit) as Hpow.
  fold (sorted_blocks sizes) in Hpow.
  intros x. split.
  - intros Hx. rewrite <- sorted_blocks_sum in Hx.
    destruct (sweep_covers _ _ x Hpow Hx) as (j & b & Hj & Hb).
    destruct (sorted_elem_inv sizes b (list_elem_of_lookup_2 _ _ _ Hj))
      as (i & h & Hi & ->).
    assert (Hie : (i < length es)%nat).
    { rewrite <- (length_map requested_size), Hreq. eapply lookup_lt_Some. exact Hi. }
    apply lookup_lt_is_Some in Hie. destruct Hie as [e He].
    assert (Hh : requested_size e = h).
    { assert (H : sizes !! i = Some (requested_size e))
        by (rewrite <- Hreq, lookup_map, He; reflexivity).
      congruence. }
    destruct (Hlay i e He) as (j' & Hj' & Hlo & Hhi).
    rewrite Hh in Hj', Hhi.
    assert (j' = j).
    { pose proof (sorted_indices_nodup sizes) as Hnd.
      fold (sorted_blocks sizes) in Hnd.
      eapply NoDup_lookup; [exact Hnd| |];
        rewrite lookup_map; [rewrite Hj'|rewrite Hj]; reflexivity. }
    subst j'. exists e. split.
    + apply list_elem_of_In. eapply list_elem_of_lookup_2. exact He.
    + unfold in_network. cbn [block_size block_for] in Hb. lia.
  - intros (e & He & Hx).
    apply list_elem_of_In, list_elem_of_lookup in He. destruct He as [i He].
    destruct (Hlay i e He) as (j & Hj & Hlo & Hhi).
    pose proof (sum_take_le _ j _ Hpow Hj) as Hle.
    rewrite sorted_blocks_sum in Hle. cbn [block_size block_for] in Hle.
    assert (0 <= sum_block_sizes (take j (sorted_blocks sizes)))
      by (apply sum_block_sizes_nonneg; now apply Forall_take).
    unfold in_network in Hx. lia.
Qed.

Lemma allocation_contiguous_witness :
  exists entries,
    handle_split_network (mkNet V4 3232235520 24) [10; 50; 0; 20]
    = Ok (Allocated entries) /\
    forall x,
      network_address (mkNet V4 3232235520 24) <= x
        < network_address (mkNet V4 3232235520 24) + total_rounded [10; 50; 0; 20]
      <-> exists e, In e entries /\ in_network x (entry_subnet e).
Proof.
  apply (allocation_contiguous (mkNet V4 3232235520 24) [10; 50; 0; 20]).
  - reflexivity.
  - concrete_network.
  - repeat constructor; lia.
  - vm_compute. congruence.
  - vm_compute. congruence.
Defined.

(** X4: the order of the allocated blocks.  Of two requirements, the one
    whose block has more addresses lies entirely below the other; two
    requirements with blocks of one size lie in the order the caller named
    them. *)
Theorem allocation_order (network : IPNetwork) (sizes : list Z) :
  net_version network = V4 -> valid_network network ->
  Forall (fun h => -1 <= h) sizes ->
  total_rounded sizes <= num_addresses network ->
  network_address network + total_rounded sizes <= ALL_ONES V4 ->
  exists entries,
    handle_split_network network sizes = Ok (Allocated entries) /\
    forall (i1 i2 : nat) e1 e2,
      entries !! i1 = Some e1 -> entries !! i2 = Some e2 ->
      num_addresses (entry_subnet e2) < num_addresses (entry_subnet e1) \/
      (num_addresses (entry_subnet e1) = num_addresses (entry_subnet e2) /\
       (i1 < i2)%nat) ->
      broadcast_address (entry_subnet e1) < network_address (entry_subnet e2).
Proof.
  intros H4 Hv Hall Hfit Htop.
  destruct (allocation_layout network sizes H4 Hv Hall Hfit Htop)
    as (es & Hrun & Hreq & Hlay).
  exists es. split; [exact Hrun|].
  pose proof (sorted_pow2 network sizes H4 Hv Hfit) as Hpow.
  fold (sorted_blocks sizes) in Hpow.
  intros i1 i2 e1 e2 He1 He2 Hord.
  destruct (Hlay i1 e1 He1) as (j1 & Hj1 & Hlo1 & Hhi1).
  destruct (Hlay i2 e2 He2) as (j2 & Hj2 & Hlo2 & Hhi2).
  unfold num_addresses in Hord.
  assert (Hlt : (j1 < j2)%nat).
  { eapply sorted_position; [exact Hj1 | exact Hj2 |].
    unfold placed_before. cbn [block_size original_index block_for]. lia. }
  pose proof (sum_take_mono _ j1 j2 _ Hpow Hlt Hj1) as Hm.
  cbn [block_size block_for] in Hm. lia.
Qed.

Lemma allocation_order_witness :
  exists entries,
    handle_split_network (mkNet V4 3232235520 24) [20; 50; 20; 2]
    = Ok (Allocated entries) /\
    forall (i1 i2 : nat) e1 e2,
      entries !! i1 = Some e1 -> entries !! i2 = Some e2 ->
      num_addresses (entry_subnet e2) < num_addresses (entry_subnet e1) \/
      (num_addresses (entry_subnet e1) = num_addresses (entry_subnet e2) /\
       (i1 < i2)%nat) ->
      broadcast_address (entry_subnet e1) < network_address (entry_subnet e2).
Proof.
  apply (allocation_order (mkNet V4 3232235520 24) [20; 50; 20; 2]).
  - reflexivity.
  - concrete_network.
  - repeat constructor; lia.
  - vm_compute. congruence.
  - vm_compute. congruence.
Defined.

(** * Address classes as ranges *)

Lemma octets_in_range : forallb octet_in_range (seq 0 256) = true.
Proof. vm_compute. reflexivity. Qed.

Lemma first_octet_div a : 0 <= a < 4294967296 -> first_octet a = a / 16777216.
Proof.
  intros Ha. unfold first_octet. change 255 with (Z.ones 8).
  rewrite Z.land_ones, Z.shiftr_div_pow2 by lia.
  change (2 ^ 24) with 16777216. change (2 ^ 8) with 256.
  apply Z.mod_small. split.
  - apply Z.div_pos; lia.
  - apply Z.div_lt_upper_bound; lia.
Qed.

Lemma class_of_range_octet a :
  0 <= a < 4294967296 ->
  class_of_range a = class_of_range (a / 16777216 * 16777216).
Proof.
  intros Ha. unfold class_of_range.
  pose proof (Z.div_mod a 16777216 ltac:(lia)) as Hd.
  pose proof (Z.mod_pos_bound a 16777216 ltac:(lia)) as Hm.
  repeat match goal with
         | |- context [?x <? ?y] => destruct (Z.ltb_spec x y)
         end; try reflexivity; lia.
Qed.

(** X5: the class of an IPv4 address is decided by the range it lies in:
    class A up to 127.255.255.255, B up to 191.255.255.255, C up to
    223.255.255.255, D up to 239.255.255.255 and E from 240.0.0.0 on. *)
Theorem get_class_by_range (a : Z) :
  0 <= a < 4294967296 -> get_class a = class_of_range a.
Proof.
  intros Ha. unfold get_class.
  rewrite class_of_range_octet, first_octet_div by assumption.
  set (o := a / 16777216).
  assert (Ho : 0 <= o < 256).
  { subst o. split; [apply Z.div_pos; lia | apply Z.div_lt_upper_bound; lia]. }
  pose proof octets_in_range as H. rewrite forallb_forall in H.
  specialize (H (Z.to_nat o)).
  assert (Hin : In (Z.to_nat o) (seq 0 256)) by (apply in_seq; lia).
  apply H in Hin. unfold octet_in_range in Hin.
  rewrite Z2Nat.id in Hin by lia.
  destruct (class_of_octet o), (class_of_range (o * 16777216)); congruence.
Qed.

Lemma get_class_by_range_witness :
  get_class 2886729729 = class_of_range 2886729729.
Proof. apply (get_class_by_range 2886729729). lia. Defined.

(** * Well-known netblocks *)

(** ** The library's tests, read as sets of addresses *)

Lemma version_eqb_refl v : version_eqb v v = true.
Proof. now destruct v. Qed.

Lemma valid_network_bounds n :
  valid_network n ->
  0 <= network_address n /\ network_address n <= broadcast_address n
  /\ broadcast_address n <= ALL_ONES (net_version n).
Proof.
  intros Hv. pose proof (valid_network_top n Hv) as Htop.
  pose proof (network_nonempty n Hv) as Hne.
  rewrite broadcast_value in * by assumption.
  destruct Hv as (_ & Ha & _). unfold ALL_ONES. lia.
Qed.

Lemma contains_iff n x :
  valid_network n -> 0 <= x <= ALL_ONES (net_version n) ->
  contains n (net_version n) x = true <-> in_network x n.
Proof.
  intros Hv Hx. rewrite in_network_iff by assumption.
  unfold contains, netmask. rewrite version_eqb_refl. cbn [andb].
  apply valid_network_aligned in Hv. destruct Hv as (Hp & Ha & Hal).
  rewrite land_netmask by assumption. fold (block_of n).
  pose proof (block_of_pos n ltac:(lia)) as Hb.
  pose proof (Z.mod_pos_bound x (block_of n) Hb) as Hm.
  rewrite Z.eqb_eq. split; intros H.
  - lia.
  - apply Z.mod_divide in Hal; [|lia]. destruct Hal as [k Hk].
    assert (Hr : x mod block_of n = x - network_address n); [|lia].
    symmetry. apply (Z.mod_unique_pos _ _ k); lia.
Qed.

Lemma overlaps_iff P Q :
  valid_network P -> valid_network Q -> net_version P = net_version Q ->
  overlaps P Q = true <-> overlap P Q.
Proof.
  intros HvP HvQ Hver.
  pose proof (valid_network_bounds P HvP) as HbP.
  pose proof (valid_network_bounds Q HvQ) as HbQ.
  assert (HPQ : forall x, 0 <= x <= ALL_ONES (net_version P) ->
            contains Q (net_version P) x = true <-> in_network x Q).
  { intros x Hx. rewrite Hver in *. now apply contains_iff. }
  assert (HQP : forall x, 0 <= x <= ALL_ONES (net_version Q) ->
            contains P (net_version Q) x = true <-> in_network x P).
  { intros x Hx. rewrite <- Hver in *. now apply contains_iff. }
  unfold overlaps. rewrite !orb_true_iff.
  rewrite !HPQ, !HQP by (rewrite ?Hver in *; lia).
  unfold overlap, in_network. split.
  - intros [[[H|H]|H]|H].
    + exists (network_address P). lia.
    + exists (broadcast_address P). lia.
    + exists (network_address Q). lia.
    + exists (broadcast_address Q). lia.
  - intros Hov.
    destruct (Z_le_gt_dec (prefixlen Q) (prefixlen P)) as [Hle|Hgt].
    + destruct (laminar P Q HvP HvQ Hver Hle Hov). left. left. left. lia.
    + assert (Hov' : overlap Q P).
      { destruct Hov as (x & H1 & H2). exists x. now split. }
      destruct (laminar Q P HvQ HvP (eq_sym Hver) ltac:(lia) Hov').
      left. right. lia.
Qed.

Lemma is_subnet_of_iff P Q :
  valid_network P -> net_version P = net_version Q ->
  exists b, is_subnet_of P Q = Ok b /\ (b = true <-> subnet_of P Q).
Proof.
  intros HvP Hver. unfold is_subnet_of. rewrite Hver, version_eqb_refl. cbn [negb].
  eexists. split; [reflexivity|].
  pose proof (valid_network_bounds P HvP) as HbP.
  rewrite andb_true_iff, !Z.leb_le. unfold subnet_of, in_network. split.
  - intros [H1 H2] x Hx. lia.
  - intros H.
    pose proof (H (network_address P) ltac:(lia)).
    pose proof (H (broadcast_address P) ltac:(lia)). lia.
Qed.

Lemma apart_iff P Q :
  valid_network P -> valid_network Q ->
  apart P Q = true <-> disjoint_networks P Q.
Proof.
  intros HvP HvQ.
  pose proof (valid_network_bounds P HvP) as HbP.
  pose proof (valid_network_bounds Q HvQ) as HbQ.
  unfold apart, disjoint_networks, in_network.
  rewrite orb_true_iff, !Z.ltb_lt. split.
  - intros H x Hx. lia.
  - intros H.
    destruct (Z_lt_le_dec (broadcast_address P) (network_address Q)); [now left|].
    destruct (Z_lt_le_dec (broadcast_address Q) (network_address P)); [now right|].
    exfalso.
    destruct (Z_le_gt_dec (network_address P) (network_address Q)).
    + apply (H (network_address Q)). lia.
    + apply (H (network_address P)). lia.
Qed.

Lemma disjoint_not_overlap P Q : disjoint_networks P Q <-> ~ overlap P Q.
Proof.
  unfold disjoint_networks, overlap. split.
  - intros H (x & Hx). exact (H x Hx).
  - intros H x Hx. apply H. now exists x.
Qed.

Lemma overlaps_false_iff P Q :
  valid_network P -> valid_network Q -> net_version P = net_version Q ->
  overlaps P Q = false <-> disjoint_networks P Q.
Proof.
  intros HvP HvQ Hver. rewrite disjoint_not_overlap, <- overlaps_iff by assumption.
  destruct (overlaps P Q); split; congruence.
Qed.

(** ** The table *)

Lemma descriptions_valid :
  Forall (fun e => net_version (fst e) = V4 /\ valid_network (fst e)) descriptions.
Proof. repeat constructor; vm_compute; congruence. Qed.

Lemma descriptions_apart :
  ForallOrdPairs (fun e e' => apart (fst e) (fst e') = true) descriptions.
Proof. repeat constructor. Qed.

(** The loop returns at the first block of the table that overlaps the
    network. *)
Lemma netblock_lookup_none network table :
  Forall (fun e => overlaps network (fst e) = false) table ->
  netblock_lookup network table = Ok (None, None).
Proof.
  induction 1 as [|[block [desc url]] table Hx Hall IH]; [reflexivity|].
  cbn [netblock_lookup]. cbn [fst] in Hx. now rewrite Hx.
Qed.

Lemma netblock_lookup_first network pre block desc url post :
  Forall (fun e => overlaps network (fst e) = false) pre ->
  overlaps network block = true ->
  netblock_lookup network (pre ++ (block, (desc, url)) :: post) =
  (sub <- is_subnet_of network block ;;
   if sub then Ok (Some desc, Some url)
   else Ok (Some ("Partially overlaps with " ++ desc)%string, Some url)).
Proof.
  intros Hpre Hov.
  induction Hpre as [|[b [d u]] pre Hx Hall IH]; cbn [app netblock_lookup].
  - now rewrite Hov.
  - cbn [fst] in Hx. now rewrite Hx.
Qed.

Lemma netblock_lookup_some network table d u :
  netblock_lookup network table = Ok (Some d, u) ->
  Exists (fun e => overlaps network (fst e) = true) table.
Proof.
  induction table as [|[block [desc url]] table IH]; cbn [netblock_lookup];
    [discriminate|].
  destruct (overlaps network block) eqn:E.
  - intros _. now left.
  - intros H. right. now apply IH.
Qed.

(** Two entries of the table at different places hold no common address. *)
Lemma descriptions_split_apart pre e post :
  descriptions = pre ++ e :: post ->
  Forall (fun e' => apart (fst e') (fst e) = true) pre /\
  Forall (fun e' => apart (fst e) (fst e') = true) post.
Proof.
  intros Heq. pose proof descriptions_apart as H. rewrite Heq in H. clear Heq.
  induction pre as [|x pre IH]; cbn [app] in H.
  - inversion H; subst. split; [constructor|assumption].
  - inversion H as [|? ? Hx Hrest]; subst.
    destruct (IH Hrest) as [H1 H2]. split; [|assumption].
    constructor; [|assumption].
    rewrite Forall_forall in Hx. apply Hx.
    apply list_elem_of_In, in_or_app. right. now left.
Qed.

Lemma descriptions_split_valid pre e post :
  descriptions = pre ++ e :: post ->
  Forall (fun e => net_version (fst e) = V4 /\ valid_network (fst e)) pre /\
  (net_version (fst e) = V4 /\ valid_network (fst e)).
Proof.
  intros Heq. pose proof descriptions_valid as H. rewrite Heq in H.
  apply Forall_app in H. destruct H as [H1 H2].
  inversion H2; subst. now split.
Qed.

Lemma subnet_of_bounds P Q :
  network_address Q <= network_address P ->
  broadcast_address P <= broadcast_address Q -> subnet_of P Q.
Proof. intros H1 H2 x Hx. unfold in_network in *. lia. Qed.

Lemma subnet_overlap P Q : valid_network P -> subnet_of P Q -> overlap P Q.
Proof.
  intros Hv H. pose proof (valid_network_bounds P Hv).
  exists (network_address P).
  assert (in_network (network_address P) P) by (unfold in_network; lia).
  split; [assumption|now apply H].
Qed.

(** ** What [get_netblock_description] answers *)

(** X6: a network that lies inside a block of the table gets the
    description and the reference of that block, with no prefix, whatever
    the place of the block in the table. *)
Theorem netblock_contained (n block : IPNetwork) (desc url : string) :
  net_version n = V4 -> valid_network n ->
  In (block, (desc, url)) descriptions ->
  subnet_of n block ->
  get_netblock_description n = Ok (Some desc, Some url).
Proof.
  intros H4 Hv Hin Hsub.
  apply in_split in Hin. destruct Hin as (pre & post & Heq).
  destruct (descriptions_split_apart _ _ _ Heq) as [Hpre _].
  destruct (descriptions_split_valid _ _ _ Heq) as [Hvpre [Hb4 Hbv]].
  cbn [fst] in *.
  unfold get_netblock_description. rewrite Heq.
  rewrite netblock_lookup_first.
  - destruct (is_subnet_of_iff n block Hv ltac:(congruence)) as (b & -> & Hb).
    cbn [rbind]. apply Hb in Hsub. now rewrite Hsub.
  - rewrite Forall_forall in Hpre, Hvpre |- *. intros e He.
    destruct (Hvpre e He) as [He4 Hev].
    apply overlaps_false_iff; [assumption | assumption | congruence|].
    specialize (Hpre e He). apply apart_iff in Hpre; [|assumption..].
    intros x [Hx1 Hx2]. apply (Hpre x). split; [assumption|now apply Hsub].
  - apply overlaps_iff; [assumption | assumption | congruence|].
    now apply subnet_overlap.
Qed.

Lemma netblock_contained_witness :
  get_netblock_description (mkNet V4 (dotted 172 20 5 0) 24)
  = Ok (Some "Private Internet"%string,
        Some "http://www.ietf.org/rfc/rfc1918.txt"%string).
Proof.
  apply (netblock_contained (mkNet V4 (dotted 172 20 5 0) 24)
           (mkNet V4 (dotted 172 16 0 0) 12)).
  - reflexivity.
  - concrete_network.
  - simpl. right. left. reflexivity.
  - apply subnet_of_bounds; vm_compute; congruence.
Defined.

(** X7: the answer is (None, None) exactly when the network has no address
    in common with any block of the table. *)
Theorem netblock_none (n : IPNetwork) :
  net_version n = V4 -> valid_network n ->
  get_netblock_description n = Ok (None, None)
  <-> forall e, In e descriptions -> disjoint_networks n (fst e).
Proof.
  intros H4 Hv. unfold get_netblock_description. split.
  - intros Hrun e He.
    pose proof descriptions_valid as Hval. rewrite Forall_forall in Hval.
    destruct (Hval e ltac:(now apply list_elem_of_In)) as [He4 Hev].
    apply overlaps_false_iff; [assumption | assumption | congruence|].
    destruct (overlaps n (fst e)) eqn:E; [exfalso|reflexivity].
    apply in_split in He. destruct He as (pre & post & Heq).
    rewrite Heq in Hrun. clear Heq Hval.
    induction pre as [|[b [d u]] pre IH]; cbn [app netblock_lookup] in Hrun.
    + destruct e as [b [d u]]. cbn [fst] in *. rewrite E in Hrun.
      destruct (is_subnet_of n b) as [[|]|]; discriminate.
    + destruct (overlaps n b); [|now apply IH].
      destruct (is_subnet_of n b) as [[|]|]; discriminate.
  - intros Hdis. apply netblock_lookup_none.
    pose proof descriptions_valid as Hval.
    rewrite Forall_forall in Hval |- *. intros e He.
    destruct (Hval e He) as [He4 Hev].
    apply overlaps_false_iff; [assumption | assumption | congruence|].
    apply Hdis. now apply list_elem_of_In.
Qed.

Lemma netblock_none_witness :
  get_netblock_description (mkNet V4 (dotted 8 8 8 0) 24) = Ok (None, None)
  <-> forall e, In e descriptions ->
                disjoint_networks (mkNet V4 (dotted 8 8 8 0) 24) (fst e).
Proof.
  apply (netblock_none (mkNet V4 (dotted 8 8 8 0) 24)).
  - reflexivity.
  - concrete_network.
Defined.

(** X8: a network that reaches beyond a block of the table it contains is
    described as partially overlapping, and the block named is the first of
    the table, in its order, that the network contains. *)
Theorem netblock_partial (n block : IPNetwork) (desc url : string)
    (pre post : list (IPNetwork * (string * string))) :
  net_version n = V4 -> valid_network n ->
  descriptions = pre ++ (block, (desc, url)) :: post ->
  Forall (fun e => ~ subnet_of (fst e) n) pre ->
  subnet_of block n -> ~ subnet_of n block ->
  get_netblock_description n
  = Ok (Some ("Partially overlaps with " ++ desc)%string, Some url).
Proof.
  intros H4 Hv Heq Hnot Hinside Hbeyond.
  destruct (descriptions_split_apart _ _ _ Heq) as [Hpre _].
  destruct (descriptions_split_valid _ _ _ Heq) as [Hvpre [Hb4 Hbv]].
  cbn [fst] in *.
  assert (Hov : overlap n block).
  { destruct (subnet_overlap block n Hbv Hinside) as (x & H1 & H2).
    exists x. now split. }
  unfold get_netblock_description. rewrite Heq.
  rewrite netblock_lookup_first.
  - destruct (is_subnet_of_iff n block Hv ltac:(congruence)) as (b & -> & Hb).
    cbn [rbind]. destruct b; [|reflexivity].
    exfalso. apply Hbeyond, Hb. reflexivity.
  - rewrite Forall_forall in Hpre, Hvpre, Hnot |- *. intros e He.
    destruct (Hvpre e He) as [He4 Hev].
    apply overlaps_false_iff; [assumption | assumption | congruence|].
    apply disjoint_not_overlap. intros Hoe.
    destruct (Z_le_gt_dec (prefixlen n) (prefixlen (fst e))) as [Hle|Hgt].
    + apply (Hnot e He).
      assert (Hoe' : overlap (fst e) n).
      { destruct Hoe as (x & H1 & H2). exists x. now split. }
      destruct (laminar (fst e) n Hev Hv ltac:(congruence) Hle Hoe').
      now apply subnet_of_bounds.
    + destruct (laminar n (fst e) Hv Hev ltac:(congruence) ltac:(lia) Hoe).
      specialize (Hpre e He). apply apart_iff in Hpre; [|assumption..].
      destruct Hov as (x & H1 & H2). apply (Hpre x).
      split; [|assumption]. unfold in_network in *. lia.
  - apply overlaps_iff; [assumption | assumption | congruence | assumption].
Qed.

Lemma netblock_partial_witness :
  get_netblock_description (mkNet V4 (dotted 128 0 0 0) 1)
  = Ok (Some ("Partially overlaps with " ++ "Private Internet")%string,
        Some "http://www.ietf.org/rfc/rfc1918.txt"%string).
Proof.
  apply (netblock_partial (mkNet V4 (dotted 128 0 0 0) 1)
           (mkNet V4 (dotted 172 16 0 0) 12) _ _
           [(mkNet V4 (dotted 10 0 0 0) 8,
             ("Private Internet", "http://www.ietf.org/rfc/rfc1918.txt"))]%string
           (skipn 2 descriptions)).
  - reflexivity.
  - concrete_network.
  - reflexivity.
  - constructor; [|constructor].
    intros H. specialize (H (dotted 10 0 0 0)).
    unfold in_network in H. vm_compute in H.
    destruct H as [H _]; [split; congruence|]. now apply H.
  - apply subnet_of_bounds; vm_compute; congruence.
  - intros H. specialize (H (dotted 128 0 0 0)).
    unfold in_network in H. vm_compute in H.
    destruct H as [H _]; [split; congruence|]. now apply H.
Defined.

(** * The subnets and the supernet of a network *)

(** The list of subnets, by position. *)
Lemma subnets_list n q :
  valid_network n -> prefixlen n <= q <= max_prefixlen (net_version n) ->
  subnets n q =
  Ok (map (fun k => mkNet (net_version n)
                      (network_address n
                       + Z.of_nat k * 2 ^ (max_prefixlen (net_version n) - q)) q)
          (seq 0 (Z.to_nat (2 ^ (q - prefixlen n))))).
Proof.
  intros Hv Hq. pose proof Hv as ((Hp0 & Hp1) & _).
  destruct (Z.eq_dec (prefixlen n) (max_prefixlen (net_version n))) as [Heq|Hne].
  - assert (q = prefixlen n) by lia. subst q.
    rewrite subnets_same_prefix by assumption.
    rewrite Z.sub_diag. simpl. destruct n; simpl. do 3 f_equal. lia.
  - rewrite subnets_value by (assumption || lia).
    unfold py_range. rewrite map_map.
    rewrite broadcast_value by assumption.
    replace (network_address n + block_of n - 1 + 1 - network_address n
             + 2 ^ (max_prefixlen (net_version n) - q) - 1)
      with (2 ^ (max_prefixlen (net_version n) - prefixlen n)
            + 2 ^ (max_prefixlen (net_version n) - q) - 1)
      by (unfold block_of; lia).
    rewrite subnet_count by lia. reflexivity.
Qed.

(** Networks of one size placed side by side tile the stretch they fill. *)
Lemma tiles_side_by_side v q (N : nat) : forall c,
  (forall k : nat, (k < N)%nat ->
     valid_network (mkNet v (c + Z.of_nat k * 2 ^ (max_prefixlen v - q)) q)) ->
  tiles v c
    (map (fun k => mkNet v (c + Z.of_nat k * 2 ^ (max_prefixlen v - q)) q) (seq 0 N))
    (c + Z.of_nat N * 2 ^ (max_prefixlen v - q) - 1).
Proof.
  induction N as [|N IH]; intros c Hall.
  - cbn [seq map tiles]. lia.
  - cbn [seq map tiles].
    pose proof (Hall 0%nat ltac:(lia)) as Hv0.
    split; [reflexivity|]. split; [exact Hv0|]. split; [simpl; lia|].
    rewrite broadcast_value by assumption. unfold block_of. cbn [net_version network_address prefixlen].
    rewrite <- seq_shift, map_map.
    specialize (IH (c + 2 ^ (max_prefixlen v - q))).
    replace (c + Z.of_nat (S N) * 2 ^ (max_prefixlen v - q) - 1)
      with (c + 2 ^ (max_prefixlen v - q) + Z.of_nat N * 2 ^ (max_prefixlen v - q) - 1)
      by lia.
    replace (c + Z.of_nat 0 * 2 ^ (max_prefixlen v - q) + 2 ^ (max_prefixlen v - q) - 1 + 1)
      with (c + 2 ^ (max_prefixlen v - q)) by lia.
    erewrite map_ext; [apply IH|].
    + intros k Hk. specialize (Hall (S k) ltac:(lia)).
      replace (c + 2 ^ (max_prefixlen v - q) + Z.of_nat k * 2 ^ (max_prefixlen v - q))
        with (c + Z.of_nat (S k) * 2 ^ (max_prefixlen v - q)) by lia.
      exact Hall.
    + intros k. cbv beta. f_equal. lia.
Qed.

(** Every address block a network is cut into at a longer prefix is a
    network. *)
Lemma subnet_block_valid n q (k : Z) :
  valid_network n -> prefixlen n <= q <= max_prefixlen (net_version n) ->
  0 <= k < 2 ^ (q - prefixlen n) ->
  valid_network (mkNet (net_version n)
                   (network_address n + k * 2 ^ (max_prefixlen (net_version n) - q)) q).
Proof.
  intros Hv Hq Hk. pose proof Hv as Hv0.
  apply valid_network_aligned in Hv. destruct Hv as (Hp & Ha & Hal).
  pose proof (valid_network_top n Hv0) as Htop.
  set (w := max_prefixlen (net_version n)) in *.
  set (p := prefixlen n) in *.
  assert (Hs : 0 < 2 ^ (w - q)) by (apply Z.pow_pos_nonneg; lia).
  assert (Hblk : block_of n = 2 ^ (q - p) * 2 ^ (w - q)).
  { unfold block_of. fold w p. rewrite <- Z.pow_add_r by lia. f_equal. lia. }
  apply valid_network_aligned. simpl. fold w.
  assert (k * 2 ^ (w - q) < block_of n).
  { rewrite Hblk. apply Z.mul_lt_mono_pos_r; lia. }
  assert (0 <= k * 2 ^ (w - q)) by (apply Z.mul_nonneg_nonneg; lia).
  repeat split; try lia.
  - unfold ALL_ONES. fold w. lia.
  - unfold block_of. simpl. fold w.
    apply Z.mod_divide; [lia|].
    apply Z.divide_add_r; [|apply Z.divide_factor_r].
    apply Z.mod_divide in Hal; [|pose proof (block_of_pos n); lia].
    apply Z.divide_trans with (m := block_of n); [|assumption].
    rewrite Hblk. apply Z.divide_factor_r.
Qed.

(** X9: the subnets of a network at a longer prefix.  There are
    2^(q - p) of them, each of prefix q; they are listed in ascending
    order, each starting where the one before ends, from the first address
    of the network to its last: their union is the network and no two share
    an address. *)
Theorem subnets_partition (n : IPNetwork) (q : Z) :
  valid_network n -> prefixlen n <= q <= max_prefixlen (net_version n) ->
  exists l,
    subnets n q = Ok l /\
    Z.of_nat (length l) = 2 ^ (q - prefixlen n) /\
    Forall (fun s => prefixlen s = q) l /\
    tiles (net_version n) (network_address n) l (broadcast_address n) /\
    exact_cover l (network_address n) (broadcast_address n) /\
    pairwise_disjoint l.
Proof.
  intros Hv Hq. pose proof Hv as ((Hp0 & Hp1) & _).
  assert (Hpow : 0 < 2 ^ (q - prefixlen n)) by (apply Z.pow_pos_nonneg; lia).
  eexists. split; [now apply subnets_list|].
  assert (Htiles : tiles (net_version n) (network_address n)
            (map (fun k => mkNet (net_version n)
                      (network_address n
                       + Z.of_nat k * 2 ^ (max_prefixlen (net_version n) - q)) q)
                 (seq 0 (Z.to_nat (2 ^ (q - prefixlen n)))))
            (broadcast_address n)).
  { replace (broadcast_address n)
      with (network_address n
            + Z.of_nat (Z.to_nat (2 ^ (q - prefixlen n)))
              * 2 ^ (max_prefixlen (net_version n) - q) - 1).
    - apply tiles_side_by_side. intros k Hk.
      apply subnet_block_valid; [assumption | assumption | lia].
    - rewrite broadcast_value by assumption. unfold block_of.
      rewrite Z2Nat.id by lia. rewrite <- Z.pow_add_r by lia.
      do 2 f_equal. f_equal. lia. }
  split; [rewrite length_map, length_seq; lia|].
  split.
  - rewrite Forall_forall. intros s Hs. apply list_elem_of_In, in_map_iff in Hs.
    destruct Hs as (k & <- & _). reflexivity.
  - split; [exact Htiles|].
    split; [eapply tiles_cover; exact Htiles | eapply tiles_disjoint; exact Htiles].
Qed.

Lemma subnets_partition_witness :
  exists l,
    subnets (mkNet V4 3232235520 24) 27 = Ok l /\
    Z.of_nat (length l) = 2 ^ (27 - prefixlen (mkNet V4 3232235520 24)) /\
    Forall (fun s => prefixlen s = 27) l /\
    tiles (net_version (mkNet V4 3232235520 24))
          (network_address (mkNet V4 3232235520 24)) l
          (broadcast_address (mkNet V4 3232235520 24)) /\
    exact_cover l (network_address (mkNet V4 3232235520 24))
                (broadcast_address (mkNet V4 3232235520 24)) /\
    pairwise_disjoint l.
Proof.
  apply (subnets_partition (mkNet V4 3232235520 24) 27).
  - concrete_network.
  - simpl. lia.
Defined.

(** X10: the supernet of a network at a shorter prefix is the one network
    of that prefix that holds it: it is a network of the family with the
    prefix asked for, every address of the network belongs to it, and any
    network of the family with that prefix that shares an address with the
    network is the supernet. *)
Theorem supernet_contains (n : IPNetwork) (q : Z) :
  valid_network n -> 0 <= q <= prefixlen n ->
  exists s,
    supernet n q = Ok s /\
    of_family (net_version n) s /\ prefixlen s = q /\
    subnet_of n s /\
    forall s', of_family (net_version n) s' -> prefixlen s' = q ->
               overlap n s' -> s' = s.
Proof.
  intros Hv Hq.
  assert (Hex : exists s, supernet n q = Ok s /\ of_family (net_version n) s
                          /\ prefixlen s = q /\ in_network (network_address n) s).
  { destruct (Z.eq_dec q (prefixlen n)) as [->|Hne].
    - exists n. split; [now apply supernet_same_prefix|].
      split; [now split|]. split; [reflexivity|].
      pose proof (valid_network_top n Hv).
      pose proof (network_nonempty n Hv). unfold in_network. lia.
    - pose proof (supernet_value n q Hv ltac:(lia)) as Hs.
      destruct (supernet_valid n q _ Hv ltac:(lia) Hs) as [Hvs Hver].
      eexists. split; [exact Hs|]. split; [now split|]. split; [reflexivity|].
      apply in_network_iff; [assumption|].
      unfold block_of. cbn [network_address net_version prefixlen].
      pose proof Hv as ((Hp0 & Hp1) & _).
      pose proof (Z.mod_pos_bound (network_address n)
                    (2 ^ (max_prefixlen (net_version n) - q))
                    ltac:(apply Z.pow_pos_nonneg; lia)).
      lia. }
  destruct Hex as (s & Hs & [Hver Hvs] & Hpq & Hin).
  assert (Hself : in_network (network_address n) n).
  { pose proof (network_nonempty n Hv). unfold in_network. lia. }
  assert (Hns : subnet_of n s).
  { destruct (laminar n s Hv Hvs (eq_sym Hver) ltac:(lia)) as [H1 H2].
    - exists (network_address n). now split.
    - intros x Hx. unfold in_network in *. lia. }
  exists s. split; [exact Hs|]. split; [now split|]. split; [exact Hpq|].
  split; [exact Hns|].
  intros s' [Hver' Hvs'] Hpq' Hov.
  destruct (laminar n s' Hv Hvs' (eq_sym Hver') ltac:(lia) Hov) as [H1 H2].
  assert (Hss : overlap s s').
  { exists (network_address n). split; [exact Hin|].
    unfold in_network in *. lia. }
  assert (Hss' : overlap s' s).
  { destruct Hss as (x & Hx1 & Hx2). exists x. now split. }
  destruct (laminar s s' Hvs Hvs' ltac:(congruence) ltac:(lia) Hss).
  destruct (laminar s' s Hvs' Hvs ltac:(congruence) ltac:(lia) Hss').
  apply same_addresses_same_network; [assumption | assumption | congruence | lia | lia].
Qed.

Lemma supernet_contains_witness :
  exists s,
    supernet (mkNet V4 3232235776 24) 22 = Ok s /\
    of_family (net_version (mkNet V4 3232235776 24)) s /\ prefixlen s = 22 /\
    subnet_of (mkNet V4 3232235776 24) s /\
    forall s', of_family (net_version (mkNet V4 3232235776 24)) s' ->
               prefixlen s' = 22 ->
               overlap (mkNet V4 3232235776 24) s' -> s' = s.
Proof.
  apply (supernet_contains (mkNet V4 3232235776 24) 22).
  - concrete_network.
  - simpl. lia.
Defined.

(** * The listing of subnets *)

Lemma print_subnets_content l : forall i shown stopped,
  print_subnets i l = Ok (shown, stopped) ->
  forall (k : nat) num info, shown !! k = Some (num, info) ->
    num = Z.of_nat (i + k) + 1 /\
    exists s, l !! k = Some s /\ print_network_info s = Ok info.
Proof.
  induction l as [|n l IH]; intros i shown stopped Hrun k num info Hk.
  - cbn [print_subnets] in Hrun. injection Hrun as <- _. now destruct k.
  - cbn [print_subnets] in Hrun.
    destruct (1000 <=? i)%nat.
    + injection Hrun as <- _. now destruct k.
    + destruct (print_network_info n) as [info0|] eqn:Einfo; [|discriminate].
      cbn [rbind] in Hrun.
      destruct (print_subnets (S i) l) as [[shown' stopped']|] eqn:Erest; [|discriminate].
      cbn [rbind fst snd] in Hrun. injection Hrun as <- _.
      destruct k as [|k].
      * injection Hk as <- <-. split; [f_equal; lia|]. now exists n.
      * cbn in Hk. destruct (IH _ _ _ Erest k num info Hk) as (Hnum & s & Hs & Hi).
        split; [lia|]. now exists s.
Qed.

(** The run of the second-netmask code on a longer prefix. *)
Lemma subnet_listing_run n q :
  net_version n = V4 -> valid_network n -> prefixlen n < q <= 32 ->
  let l := map (fun k => mkNet V4 (network_address n + Z.of_nat k * 2 ^ (32 - q)) q)
               (seq 0 (Z.to_nat (2 ^ (q - prefixlen n)))) in
  exists shown,
    print_subnets 0 l = Ok (shown, (1000 <? 0 + length l)%nat) /\
    length shown = Nat.min (1000 - 0) (length l) /\
    second_netmask n (Ok q) = Ok (SubnetListing shown (1000 <? 0 + length l)%nat).
Proof.
  intros H4 Hv Hq l. pose proof Hv as ((Hp0 & Hp1) & _).
  pose proof (subnets_list n q Hv ltac:(rewrite H4; simpl; lia)) as Hsub.
  rewrite H4 in Hsub. cbn [max_prefixlen] in Hsub. fold l in Hsub.
  assert (Hall : Forall (fun s => net_version s = V4 /\ valid_network s) l).
  { rewrite Forall_forall. intros s Hs. apply list_elem_of_In, in_map_iff in Hs.
    destruct Hs as (k & <- & Hk). apply in_seq in Hk.
    split; [reflexivity|].
    pose proof (subnet_block_valid n q (Z.of_nat k) Hv) as H.
    rewrite H4 in H. apply H; simpl; lia. }
  destruct (print_subnets_ok l 0 ltac:(lia) Hall) as (shown & Hshown & Hlsh).
  exists shown. split; [exact Hshown|]. split; [exact Hlsh|].
  unfold second_netmask, transition_body. cbn [rbind].
  destruct (Z.leb_spec 0 q), (Z.leb_spec q 32); try lia. simpl.
  destruct (Z.ltb_spec (prefixlen n) q); [|lia].
  rewrite Hsub. cbn [rbind]. rewrite Hshown. reflexivity.
Qed.

(** X11: the listing a longer second prefix produces.  For an IPv4 network
    of prefix p and a second prefix q with p < q <= 32, and a span q - p of
    at most [max_listed_span] bits, so that the list of all 2^(q-p)
    subnets the program builds first fits in memory, the listing shows
    the first min(1000, 2^(q-p)) subnets, says that it stopped exactly
    when there are more than 1000, and its entry number k + 1 is the
    network information of the subnet that starts k blocks of 2^(32-q)
    addresses above the base. *)
Theorem subnet_listing (n : IPNetwork) (q : Z) :
  net_version n = V4 -> valid_network n -> prefixlen n < q <= 32 ->
  q - prefixlen n <= max_listed_span ->
  exists shown,
    second_netmask n (Ok q)
    = Ok (SubnetListing shown (1000 <? 2 ^ (q - prefixlen n))) /\
    Z.of_nat (length shown) = Z.min 1000 (2 ^ (q - prefixlen n)) /\
    forall (k : nat) num info, shown !! k = Some (num, info) ->
      num = Z.of_nat k + 1 /\
      print_network_info (mkNet V4 (network_address n + Z.of_nat k * 2 ^ (32 - q)) q)
      = Ok info.
Proof.
  intros H4 Hv Hq Hspan. pose proof Hv as ((Hp0 & Hp1) & _).
  assert (Hpow : 0 < 2 ^ (q - prefixlen n)) by (apply Z.pow_pos_nonneg; lia).
  destruct (subnet_listing_run n q H4 Hv Hq) as (shown & Hshown & Hlsh & Hrun).
  set (l := map (fun k => mkNet V4 (network_address n + Z.of_nat k * 2 ^ (32 - q)) q)
                (seq 0 (Z.to_nat (2 ^ (q - prefixlen n))))) in *.
  assert (Hlen : Z.of_nat (length l) = 2 ^ (q - prefixlen n))
    by (unfold l; rewrite length_map, length_seq; lia).
  exists shown. split; [|split].
  - rewrite Hrun. do 2 f_equal.
    destruct (Nat.ltb_spec 1000 (0 + length l)),
             (Z.ltb_spec 1000 (2 ^ (q - prefixlen n))); try reflexivity; lia.
  - rewrite Hlsh. lia.
  - intros k num info Hk.
    destruct (print_subnets_content l 0 shown _ Hshown k num info Hk)
      as (Hnum & s & Hs & Hinfo).
    split; [rewrite Hnum; f_equal|].
    unfold l in Hs. rewrite lookup_map in Hs.
    destruct (seq 0 (Z.to_nat (2 ^ (q - prefixlen n))) !! k) as [k'|] eqn:Ek;
      [|discriminate].
    apply lookup_seq in Ek. destruct Ek as [-> _]. simpl in Hs.
    injection Hs as <-. exact Hinfo.
Qed.

Lemma subnet_listing_witness :
  exists shown,
    second_netmask (mkNet V4 167772160 8) (Ok 20)
    = Ok (SubnetListing shown (1000 <? 2 ^ (20 - prefixlen (mkNet V4 167772160 8)))) /\
    Z.of_nat (length shown) = Z.min 1000 (2 ^ (20 - prefixlen (mkNet V4 167772160 8))) /\
    forall (k : nat) num info, shown !! k = Some (num, info) ->
      num = Z.of_nat k + 1 /\
      print_network_info
        (mkNet V4 (network_address (mkNet V4 167772160 8)
                   + Z.of_nat k * 2 ^ (32 - 20)) 20)
      = Ok info.
Proof.
  apply (subnet_listing (mkNet V4 167772160 8) 20).
  - reflexivity.
  - concrete_network.
  - simpl. lia.
  - vm_compute. congruence.
Defined.

(** * The modes of [main] *)

(** ** Range mode *)

(** The summary of a well-formed range exists and tiles the range. *)
Lemma summarize_tiles first last :
  addr_version first = addr_version last ->
  0 <= ip first -> ip first <= ip last -> ip last <= ALL_ONES (addr_version first) ->
  exists l,
    summarize_address_range first last = Ok l /\
    tiles (addr_version first) (ip first) l (ip last).
Proof.
  intros Hver H0 Hle Htop.
  pose proof (max_prefixlen_nonneg (addr_version first)) as Hw.
  destruct (summarize_loop_spec (addr_version first) (ip first) (ip last) H0 Htop
              (Z.to_nat (2 * (max_prefixlen (addr_version first) + 1))) (ip first)
              ltac:(lia)
              ltac:(intros _;
                    pose proof (potential_bound (addr_version first) (ip last) Htop
                                  (ip first) ltac:(lia)); lia)
              (no_straddle_start _ _ _))
    as (l & Hrun & Htiles & _).
  exists l. split; [|exact Htiles].
  unfold summarize_address_range.
  rewrite (proj2 (version_eqb_eq _ _) Hver). cbn [negb].
  destruct (Z.ltb_spec (ip last) (ip first)); [lia|]. exact Hrun.
Qed.

Lemma main_range_mode T args p0 rest :
  version_flag args = false -> params args = p0 :: "-"%string :: rest ->
  main T args = range_mode T (p0 :: "-"%string :: rest).
Proof.
  intros Hver Hps. unfold main. rewrite Hver, Hps. reflexivity.
Qed.

(** X12: range mode, whatever the other options are.  A first or last
    address that does not parse, a missing last address and a last address
    below the first are reported as an invalid range; two addresses of
    different families end the program with the TypeError of the
    summariser, which no handler catches; and a well-formed range is listed
    as networks that follow one another from the first address to the last,
    covering exactly the range. *)
Theorem range_mode_outcomes (T : text_layer) (args : Args)
    (p0 : string) (rest : list string) :
  version_flag args = false ->
  params args = p0 :: "-"%string :: rest ->
  (ip_address T p0 = None -> main T args = Ok (InvalidRange TextParseError)) /\
  (forall first, ip_address T p0 = Some first -> rest = [] ->
     main T args = Ok (InvalidRange IndexError)) /\
  (forall first e rest', ip_address T p0 = Some first -> rest = e :: rest' ->
     ip_address T e = None -> main T args = Ok (InvalidRange TextParseError)) /\
  (forall first last e rest',
     ip_address T p0 = Some first -> rest = e :: rest' ->
     ip_address T e = Some last ->
     (addr_version first <> addr_version last ->
        main T args = Raise VersionMismatch) /\
     (addr_version first = addr_version last -> ip last < ip first ->
        main T args = Ok (InvalidRange LastBeforeFirst)) /\
     (addr_version first = addr_version last ->
      0 <= ip first -> ip first <= ip last ->
      ip last <= ALL_ONES (addr_version first) ->
        exists l,
          main T args = Ok (RangeListing first last l) /\
          tiles (addr_version first) (ip first) l (ip last) /\
          exact_cover l (ip first) (ip last))).
Proof.
  intros Hver Hps. rewrite (main_range_mode T args p0 rest Hver Hps).
  unfold range_mode. change (nth 0 (p0 :: "-"%string :: rest) EmptyString) with p0.
  change ((p0 :: "-"%string :: rest) !! 2%nat) with (rest !! 0%nat).
  split; [|split; [|split]].
  - intros ->. reflexivity.
  - intros first -> ->. reflexivity.
  - intros first e rest' -> -> He. cbn [parsed rbind lookup list_lookup].
    rewrite He. reflexivity.
  - intros first last e rest' -> -> He. cbn [parsed rbind lookup list_lookup].
    rewrite He. cbn [parsed rbind].
    split; [|split].
    + intros Hne. unfold summarize_address_range.
      destruct (version_eqb (addr_version first) (addr_version last)) eqn:E;
        [apply version_eqb_eq in E; contradiction|]. reflexivity.
    + intros Heq Hlt. unfold summarize_address_range.
      rewrite (proj2 (version_eqb_eq _ _) Heq). cbn [negb].
      destruct (Z.ltb_spec (ip last) (ip first)); [reflexivity|lia].
    + intros Heq H0 Hle Htop.
      destruct (summarize_tiles first last Heq H0 Hle Htop) as (l & Hrun & Htiles).
      exists l. rewrite Hrun. split; [reflexivity|].
      split; [exact Htiles | eapply tiles_cover; exact Htiles].
Qed.

Lemma range_mode_outcomes_witness :
  let args := mkArgs ["10.0.0.1"; "-"; "10.0.0.1"]%string false false true (Some [5]) in
  let T := text_layer_example in
  (ip_address T "10.0.0.1" = None -> main T args = Ok (InvalidRange TextParseError)) /\
  (forall first, ip_address T "10.0.0.1" = Some first -> ["10.0.0.1"%string] = [] ->
     main T args = Ok (InvalidRange IndexError)) /\
  (forall first e rest', ip_address T "10.0.0.1" = Some first ->
     ["10.0.0.1"%string] = e :: rest' ->
     ip_address T e = None -> main T args = Ok (InvalidRange TextParseError)) /\
  (forall first last e rest',
     ip_address T "10.0.0.1" = Some first -> ["10.0.0.1"%string] = e :: rest' ->
     ip_address T e = Some last ->
     (addr_version first <> addr_version last ->
        main T args = Raise VersionMismatch) /\
     (addr_version first = addr_version last -> ip last < ip first ->
        main T args = Ok (InvalidRange LastBeforeFirst)) /\
     (addr_version first = addr_version last ->
      0 <= ip first -> ip first <= ip last ->
      ip last <= ALL_ONES (addr_version first) ->
        exists l,
          main T args = Ok (RangeListing first last l) /\
          tiles (addr_version first) (ip first) l (ip last) /\
          exact_cover l (ip first) (ip last))).
Proof.
  intros args T.
  apply (range_mode_outcomes T args "10.0.0.1"%string ["10.0.0.1"%string]).
  - reflexivity.
  - reflexivity.
Defined.

(** ** Default mode *)

Lemma second_netmask_total n (o : option Z) :
  net_version n = V4 -> valid_network n ->
  exists tr, second_netmask n (parsed IntParseError o) = Ok tr.
Proof.
  intros H4 Hv. pose proof Hv as ((Hp0 & Hp1) & _).
  rewrite H4 in Hp1. cbn [max_prefixlen] in Hp1.
  destruct o as [q|]; [|eexists; reflexivity].
  cbn [parsed].
  destruct (Z_lt_le_dec q 0) as [Hneg|Hnn];
    [|destruct (Z_lt_le_dec 32 q) as [Hbig|Hsmall]].
  - eexists. unfold second_netmask, transition_body. cbn [rbind].
    destruct (Z.leb_spec 0 q); [lia|]. reflexivity.
  - eexists. unfold second_netmask, transition_body. cbn [rbind].
    destruct (Z.leb_spec 0 q), (Z.leb_spec q 32); try lia. reflexivity.
  - destruct (Z.lt_total (prefixlen n) q) as [Hlt|[Heq|Hgt]].
    + destruct (subnet_listing_run n q H4 Hv ltac:(lia)) as (shown & _ & _ & H).
      eexists. exact H.
    + eexists. unfold second_netmask, transition_body. cbn [rbind].
      destruct (Z.leb_spec 0 q), (Z.leb_spec q 32); try lia. simpl.
      rewrite Heq, Z.ltb_irrefl. reflexivity.
    + pose proof (supernet_value n q Hv ltac:(lia)) as Hs.
      destruct (supernet_valid n q _ Hv ltac:(lia) Hs) as [Hvs H4s].
      destruct (print_network_info_total _ ltac:(rewrite H4s; exact H4) Hvs)
        as [info Hinfo].
      eexists. unfold second_netmask, transition_body. cbn [rbind].
      destruct (Z.leb_spec 0 q), (Z.leb_spec q 32); try lia. simpl.
      destruct (Z.ltb_spec (prefixlen n) q); [lia|].
      destruct (Z.ltb_spec q (prefixlen n)); [|lia].
      rewrite Hs. cbn [rbind]. rewrite Hinfo. reflexivity.
Qed.

(** X13: default mode ends in no uncaught exception, as long as the list
    of subnets fits in memory.  When the parameters resolve to a valid IPv4
    network, neither the class nor a split is asked for, and a second
    netmask that is an integer asks for a span of at most [max_listed_span]
    bits, [main] prints the information of the network, and the second
    netmask is either acted upon or reported as invalid; no second netmask,
    or an empty one, produces no transition. *)
Theorem default_mode_never_raises (T : text_layer) (args : Args)
    (n : IPNetwork) (a : IPAddress) (m : option string) :
  version_flag args = false -> print_class args = false ->
  split args = None \/ split args = Some [] ->
  params args <> [] ->
  params args !! 1%nat <> Some "-"%string ->
  resolve_address T (params args) = Ok (Resolved4 n a m) ->
  net_version n = V4 -> valid_network n ->
  (forall s q, m = Some s -> int_of_text T s = Some q ->
               q - prefixlen n <= max_listed_span) ->
  exists info tr,
    main T args = Ok (DefaultMode a n info tr) /\
    print_network_info n = Ok info /\
    (tr = None <-> m = None \/ m = Some EmptyString).
Proof.
  intros Hver Hcls Hsplit Hne Hdash Hres H4 Hv Hspan.
  destruct (print_network_info_total n H4 Hv) as [info Hinfo].
  assert (Hm : exists tr,
    match m with
    | Some (String c t) =>
        tr <- second_netmask n (parsed IntParseError (int_of_text T (String c t))) ;;
        Ok (DefaultMode a n info (Some tr))
    | _ => Ok (DefaultMode a n info None)
    end = Ok (DefaultMode a n info tr)
    /\ (tr = None <-> m = None \/ m = Some EmptyString)).
  { destruct m as [[|c t]|].
    - exists None. split; [reflexivity|]. split; [now right|reflexivity].
    - destruct (second_netmask_total n (int_of_text T (String c t)) H4 Hv) as [tr Htr].
      exists (Some tr). rewrite Htr. split; [reflexivity|].
      split; [discriminate|]. intros [H|H]; discriminate.
    - exists None. split; [reflexivity|]. split; [now left|reflexivity]. }
  destruct Hm as (tr & Hrun & Htr).
  exists info, tr. split; [|split; [exact Hinfo|exact Htr]].
  unfold main. rewrite Hver.
  destruct (params args) as [|p0 ps] eqn:Eps; [congruence|].
  assert (Hno : match (p0 :: ps) !! 1%nat with
                | Some p1 => String.eqb p1 "-"
                | None => false
                end = false).
  { destruct ((p0 :: ps) !! 1%nat) as [p1|]; [|reflexivity].
    destruct (String.eqb_spec p1 "-") as [E|E]; [congruence|reflexivity]. }
  rewrite Hno, Hres, Hcls.
  destruct Hsplit as [-> | ->]; rewrite Hinfo; cbn [rbind]; exact Hrun.
Qed.

Lemma default_mode_never_raises_witness :
  exists info tr,
    main text_layer_prefix_12
         (mkArgs ["10.0.0.1"; "255.0.0.0"; "12"]%string false false false None)
    = Ok (DefaultMode (mkAddr V4 167772161) (mkNet V4 167772160 8) info tr) /\
    print_network_info (mkNet V4 167772160 8) = Ok info /\
    (tr = None <-> Some "12"%string = None \/ Some "12"%string = Some EmptyString).
Proof.
  apply (default_mode_never_raises text_layer_prefix_12
           (mkArgs ["10.0.0.1"; "255.0.0.0"; "12"]%string false false false None)
           (mkNet V4 167772160 8) (mkAddr V4 167772161) (Some "12"%string)).
  - reflexivity.
  - reflexivity.
  - left. reflexivity.
  - discriminate.
  - simpl. discriminate.
  - reflexivity.
  - reflexivity.
  - concrete_network.
  - intros s q _ H. injection H as <-. vm_compute. congruence.
Defined.

(** ** The two ways of giving the mask *)

Lemma has_slash_append p0 s :
  has_slash (p0 ++ "/" ++ s) = true.
Proof.
  change ("/" ++ s)%string with (String "/" s).
  induction p0 as [|c p0 IH]; cbn [append has_slash]; [reflexivity|].
  now destruct (Ascii.eqb c "/").
Qed.

Lemma before_slash_append p0 s :
  has_slash p0 = false -> before_slash (p0 ++ "/" ++ s) = p0.
Proof.
  change ("/" ++ s)%string with (String "/" s).
  induction p0 as [|c p0 IH]; cbn [append has_slash before_slash]; [reflexivity|].
  destruct (Ascii.eqb c "/"); [discriminate|]. intros H. now rewrite IH.
Qed.

Lemma resolve_address_joined T p0 p1 rest :
  has_slash p0 = false ->
  resolve_address T (p0 :: p1 :: rest)
  = resolve_address T ((p0 ++ "/" ++ p1)%string :: rest).
Proof.
  intros Hs. unfold resolve_address. cbv zeta.
  change (nth 0 (p0 :: p1 :: rest) EmptyString) with p0.
  change (nth 0 ((p0 ++ "/" ++ p1)%string :: rest) EmptyString)
    with (p0 ++ "/" ++ p1)%string.
  rewrite before_slash_append, has_slash_append, Hs by assumption.
  rewrite before_slash_no_slash by assumption.
  destruct (ip_address T p0) as [a|]; [|reflexivity]. cbn [parsed rbind].
  destruct (addr_version a); reflexivity.
Qed.

(** X14: a mask given as a parameter of its own and a mask joined to the
    address by a slash are one request: [ADDRESS MASK rest...] and
    [ADDRESS/MASK rest...] produce the same outcome, for both families and
    in every mode, as long as neither reading is a range (the mask is not
    [-], nor the parameter after it). *)
Theorem mask_forms_agree (T : text_layer) (args : Args)
    (p0 p1 : string) (rest : list string) :
  has_slash p0 = false ->
  p1 <> "-"%string -> rest !! 0%nat <> Some "-"%string ->
  main T (with_params (p0 :: p1 :: rest) args)
  = main T (with_params ((p0 ++ "/" ++ p1)%string :: rest) args).
Proof.
  intros Hs Hp1 Hrest. unfold main, with_params.
  cbn [version_flag params print_class split].
  destruct (version_flag args); [reflexivity|].
  change ((p0 :: p1 :: rest) !! 1%nat) with (Some p1).
  change (((p0 ++ "/" ++ p1)%string :: rest) !! 1%nat) with (rest !! 0%nat).
  assert (Hp : String.eqb p1 "-" = false)
    by (destruct (String.eqb_spec p1 "-") as [E|E]; [contradiction|reflexivity]).
  assert (Hno : match rest !! 0%nat with
                | Some p => String.eqb p "-"
                | None => false
                end = false).
  { destruct (rest !! 0%nat) as [p|]; [|reflexivity].
    destruct (String.eqb_spec p "-") as [E|E]; [congruence|reflexivity]. }
  rewrite Hno, Hp. now rewrite resolve_address_joined.
Qed.

Lemma mask_forms_agree_witness :
  main text_layer_example
    (with_params ["10.0.0.1"; "255.0.0.0"; "12"]%string
       (mkArgs [] false false false None))
  = main text_layer_example
      (with_params [("10.0.0.1" ++ "/" ++ "255.0.0.0")%string; "12"%string]
         (mkArgs [] false false false None)).
Proof.
  apply (mask_forms_agree text_layer_example (mkArgs [] false false false None)
           "10.0.0.1"%string "255.0.0.0"%string ["12"%string]).
  - reflexivity.
  - discriminate.
  - discriminate.
Defined.

(** * Colours *)

Lemma set_color_same c g : CURRENT_COLOR g = c -> set_color c g = (EmptyString, g).
Proof. intros <-. unfold set_color. now rewrite String.eqb_refl. Qed.

Lemma set_color_mode c g : COLOR_MODE (snd (set_color c g)) = COLOR_MODE g.
Proof. unfold set_color. destruct (String.eqb c (CURRENT_COLOR g)); reflexivity. Qed.

Lemma set_color_current c g : CURRENT_COLOR (snd (set_color c g)) = c.
Proof.
  unfold set_color. destruct (String.eqb_spec c (CURRENT_COLOR g)); [|reflexivity].
  simpl. congruence.
Qed.

Lemma last_cons_default {A} (rest : list A) : forall c d,
  List.last (c :: rest) d = List.last rest c.
Proof.
  induction rest as [|x r IH]; intros c d; [reflexivity|].
  change (List.last (c :: x :: r) d) with (List.last (x :: r) d).
  now rewrite !IH.
Qed.

(** X15: the colour tracker over a run of calls.  A call with the colour
    that is current returns nothing; any other call returns the new code,
    and in HTML mode, when a colour was current, the closing tag before it.
    The run leaves the last code asked for as the current colour and
    changes nothing else of the state. *)
Theorem set_color_run (codes : list string) (g : globals) :
  set_colors codes g =
  (changes (closing_of g) (CURRENT_COLOR g) codes,
   mkGlobals (COLOR_MODE g) (List.last codes (CURRENT_COLOR g)) (Colors g) (Html g)).
Proof.
  revert g. induction codes as [|c rest IH]; intros g.
  - destruct g; reflexivity.
  - cbn [set_colors changes]. unfold pbind at 1.
    destruct (set_color c g) as [o g'] eqn:E.
    unfold pbind. rewrite IH. unfold pret.
    assert (Hg' : g' = mkGlobals (COLOR_MODE g) c (Colors g) (Html g)
                  /\ o = if String.eqb c (CURRENT_COLOR g) then EmptyString
                         else (closing_of g (CURRENT_COLOR g) ++ c)%string).
    { unfold set_color in E.
      destruct (String.eqb_spec c (CURRENT_COLOR g)) as [Heq|Hne].
      - injection E as <- <-. split; [|reflexivity]. destruct g; simpl in *. congruence.
      - injection E as <- <-. split; [reflexivity|]. unfold closing_of.
        destruct (is_html (COLOR_MODE g) && negb (String.eqb (CURRENT_COLOR g) "")%string);
          reflexivity. }
    destruct Hg' as [-> ->]. cbn [COLOR_MODE CURRENT_COLOR Colors Html].
    now rewrite last_cons_default.
Qed.

(** * Binary text *)

(** ** Strings *)

Lemma length_append (s1 s2 : string) :
  String.length (s1 ++ s2) = (String.length s1 + String.length s2)%nat.
Proof. induction s1 as [|c s1 IH]; simpl; [reflexivity|]. now rewrite IH. Qed.

Lemma append_nil_r (s : string) : (s ++ "")%string = s.
Proof. induction s as [|c s IH]; simpl; [reflexivity|]. now rewrite IH. Qed.

Lemma append_assoc (s1 s2 s3 : string) :
  ((s1 ++ s2) ++ s3)%string = (s1 ++ s2 ++ s3)%string.
Proof. induction s1 as [|c s1 IH]; simpl; [reflexivity|]. now rewrite IH. Qed.

Lemma substring_zero_zero (s : string) : substring 0 0 s = EmptyString.
Proof. now destruct s. Qed.

Lemma substring_append_left (s1 s2 : string) :
  substring 0 (String.length s1) (s1 ++ s2) = s1.
Proof.
  induction s1 as [|c s1 IH]; simpl; [apply substring_zero_zero|]. now rewrite IH.
Qed.

Lemma substring_append_right (s1 s2 : string) (m : nat) :
  substring (String.length s1) m (s1 ++ s2) = substring 0 m s2.
Proof. induction s1 as [|c s1 IH]; simpl; [reflexivity|]. exact IH. Qed.

Lemma substring_whole (s : string) : substring 0 (String.length s) s = s.
Proof. induction s as [|c s IH]; simpl; [reflexivity|]. now rewrite IH. Qed.

(** A text cut in two at any index is the two parts put together. *)
Lemma substring_cut (s : string) (p : nat) :
  (substring 0 p s ++ substring p (String.length s - p) s)%string = s.
Proof.
  revert p. induction s as [|c s IH]; intros p.
  - destruct p; reflexivity.
  - destruct p as [|p].
    + simpl. now rewrite substring_whole.
    + simpl. now rewrite IH.
Qed.

Lemma length_repeated c n : String.length (repeated c n) = n.
Proof. induction n; simpl; congruence. Qed.

Lemma length_spaces n : String.length (spaces n) = n.
Proof. induction n; simpl; congruence. Qed.

(** ** Digits *)

Lemma length_binary_digits n a : String.length (binary_digits n a) = n.
Proof. induction n; simpl; congruence. Qed.

Lemma binary_digits_split (k m : nat) a :
  binary_digits (k + m) a
  = (binary_digits k (Z.shiftr a (Z.of_nat m)) ++ binary_digits m a)%string.
Proof.
  induction k as [|k IH]; [reflexivity|].
  cbn [Nat.add binary_digits append]. rewrite IH.
  rewrite Z.shiftr_spec by lia.
  replace (Z.of_nat k + Z.of_nat m) with (Z.of_nat (k + m)) by lia. reflexivity.
Qed.

Lemma binary_digits_ext n a b :
  (forall i, 0 <= i < Z.of_nat n -> Z.testbit a i = Z.testbit b i) ->
  binary_digits n a = binary_digits n b.
Proof.
  induction n as [|n IH]; intros H; [reflexivity|].
  cbn [binary_digits]. rewrite (H (Z.of_nat n)) by lia.
  rewrite IH; [reflexivity|]. intros i Hi. apply H. lia.
Qed.

Lemma binary_digits_all n a (b : bool) :
  (forall i, 0 <= i < Z.of_nat n -> Z.testbit a i = b) ->
  binary_digits n a = repeated (if b then "1" else "0")%char n.
Proof.
  induction n as [|n IH]; intros H; [reflexivity|].
  cbn [binary_digits repeated]. rewrite (H (Z.of_nat n)) by lia.
  rewrite IH; [reflexivity|]. intros i Hi. apply H. lia.
Qed.

Lemma bit_length_bound a (w : nat) :
  0 <= a < 2 ^ Z.of_nat w -> (Z.to_nat (bit_length a) <= w)%nat.
Proof.
  intros Ha. unfold bit_length.
  destruct (Z.eqb_spec a 0); [simpl; lia|].
  rewrite Z.abs_eq by lia.
  assert (Z.log2 a < Z.of_nat w) by (apply Z.log2_lt_pow2; lia). lia.
Qed.

Lemma format_b_small (w : nat) a :
  (1 <= w)%nat -> 0 <= a < 2 ^ Z.of_nat w -> format_b w a = binary_digits w a.
Proof.
  intros Hw Ha. unfold format_b.
  pose proof (bit_length_bound a w Ha).
  f_equal. lia.
Qed.

Lemma slice_to_digits (n : nat) (p : Z) a :
  0 <= p <= Z.of_nat n ->
  slice_to p (binary_digits n a)
  = binary_digits (Z.to_nat p) (Z.shiftr a (Z.of_nat n - p)).
Proof.
  intros Hp. unfold slice_to.
  replace n with (Z.to_nat p + (n - Z.to_nat p))%nat at 1 by lia.
  rewrite binary_digits_split.
  rewrite <- (length_binary_digits (Z.to_nat p)
                (Z.shiftr a (Z.of_nat (n - Z.to_nat p)))) at 1.
  rewrite substring_append_left. do 2 f_equal. lia.
Qed.

Lemma slice_from_digits (n : nat) (p : Z) a :
  0 <= p <= Z.of_nat n ->
  slice_from p (binary_digits n a) = binary_digits (n - Z.to_nat p) a.
Proof.
  intros Hp. unfold slice_from. rewrite length_binary_digits.
  replace n with (Z.to_nat p + (n - Z.to_nat p))%nat at 2 by lia.
  rewrite binary_digits_split.
  rewrite <- (length_binary_digits (Z.to_nat p)
                (Z.shiftr a (Z.of_nat (n - Z.to_nat p)))) at 1.
  rewrite substring_append_right.
  rewrite <- (length_binary_digits (n - Z.to_nat p) a) at 1.
  apply substring_whole.
Qed.

(** ** Reading digits back *)

Lemma read_binary_from_append acc s1 s2 :
  read_binary_from acc (s1 ++ s2) = read_binary_from (read_binary_from acc s1) s2.
Proof.
  revert acc. induction s1 as [|c s1 IH]; intros acc; [reflexivity|].
  cbn [append read_binary_from]. apply IH.
Qed.

Lemma read_binary_from_digits_only acc s :
  read_binary_from acc (digits_only s) = read_binary_from acc s.
Proof.
  revert acc. induction s as [|c s IH]; intros acc; [reflexivity|].
  cbn [digits_only read_binary_from].
  destruct (Ascii.eqb c "0") eqn:E0; cbn [orb].
  - cbn [read_binary_from]. rewrite E0. apply IH.
  - destruct (Ascii.eqb c "1") eqn:E1.
    + cbn [read_binary_from]. rewrite E0, E1. apply IH.
    + apply IH.
Qed.

Lemma read_binary_from_digits n a acc :
  0 <= a ->
  read_binary_from acc (binary_digits n a)
  = acc * 2 ^ Z.of_nat n + a mod 2 ^ Z.of_nat n.
Proof.
  intros Ha. revert acc. induction n as [|n IH]; intros acc.
  - cbn [binary_digits read_binary_from]. rewrite Z.mod_1_r. simpl. lia.
  - cbn [binary_digits read_binary_from].
    assert (Hpow : 2 ^ Z.of_nat (S n) = 2 * 2 ^ Z.of_nat n)
      by (rewrite Nat2Z.inj_succ, Z.pow_succ_r by lia; reflexivity).
    assert (H2 : 0 < 2 ^ Z.of_nat n) by (apply Z.pow_pos_nonneg; lia).
    assert (Hmod : a mod 2 ^ Z.of_nat (S n)
                   = Z.b2z (Z.testbit a (Z.of_nat n)) * 2 ^ Z.of_nat n
                     + a mod 2 ^ Z.of_nat n).
    { rewrite Z.testbit_spec' by lia.
      rewrite Hpow, Z.mul_comm.
      rewrite Z.rem_mul_r by lia. lia. }
    rewrite Hmod, Hpow.
    destruct (Z.testbit a (Z.of_nat n)); cbn [Z.b2z].
    + change (Ascii.eqb "1" "0") with false. change (Ascii.eqb "1" "1") with true.
      cbv iota. rewrite IH. lia.
    + change (Ascii.eqb "0" "0") with true. cbv iota. rewrite IH. lia.
Qed.

(** * The lines [print_line] prints *)

(** ** Text mode *)

Lemma setup_text_ready nocolor isatty :
  isatty && negb nocolor = false ->
  text_ready (setup_output_mode false false nocolor isatty globals_initial).
Proof.
  intros H. unfold setup_output_mode. cbn [orb]. rewrite H.
  repeat split.
Qed.

Lemma netmask_testbit n i :
  0 <= prefixlen n <= max_prefixlen (net_version n) -> 0 <= i ->
  Z.testbit (netmask n) i
  = ((max_prefixlen (net_version n) - prefixlen n <=? i)
     && (i <? max_prefixlen (net_version n)))%bool.
Proof.
  intros Hp Hi. unfold netmask, ip_int_from_prefix. rewrite ALL_ONES_ones.
  now apply testbit_prefix_mask.
Qed.

Lemma netmask_range n :
  0 <= prefixlen n <= max_prefixlen (net_version n) ->
  0 <= netmask n < 2 ^ max_prefixlen (net_version n).
Proof.
  intros Hp. unfold netmask. rewrite ip_int_from_prefix_value by assumption.
  assert (0 < 2 ^ (max_prefixlen (net_version n) - prefixlen n))
    by (apply Z.pow_pos_nonneg; lia).
  assert (2 ^ (max_prefixlen (net_version n) - prefixlen n)
          <= 2 ^ max_prefixlen (net_version n))
    by (apply Z.pow_le_mono_r; lia).
  lia.
Qed.

(** The digits of a netmask: ones up to the prefix, zeros after it. *)
Lemma netmask_digits n (w : nat) :
  Z.of_nat w = max_prefixlen (net_version n) ->
  0 <= prefixlen n <= max_prefixlen (net_version n) ->
  binary_digits w (netmask n)
  = (repeated "1" (Z.to_nat (prefixlen n))
     ++ repeated "0" (w - Z.to_nat (prefixlen n)))%string.
Proof.
  intros Hw Hp.
  replace w with (Z.to_nat (prefixlen n) + (w - Z.to_nat (prefixlen n)))%nat at 1 by lia.
  rewrite binary_digits_split. f_equal.
  - apply (binary_digits_all _ _ true). intros i Hi.
    rewrite Z.shiftr_spec, netmask_testbit by lia.
    destruct (Z.leb_spec (max_prefixlen (net_version n) - prefixlen n)
                (i + Z.of_nat (w - Z.to_nat (prefixlen n)))); [|lia].
    destruct (Z.ltb_spec (i + Z.of_nat (w - Z.to_nat (prefixlen n)))
                (max_prefixlen (net_version n))); [reflexivity|lia].
  - apply (binary_digits_all _ _ false). intros i Hi.
    rewrite netmask_testbit by lia.
    destruct (Z.leb_spec (max_prefixlen (net_version n) - prefixlen n) i);
      [lia|reflexivity].
Qed.

Lemma text_ready_colors g :
  text_ready g ->
  set_color (Colors_NORMAL (Colors g)) g = (EmptyString, g) /\
  set_color (Colors_BLUE (Colors g)) g = (EmptyString, g).
Proof.
  intros (_ & Hc & Hcol). rewrite Hcol. cbn [Colors_NORMAL Colors_BLUE].
  split; now apply set_color_same.
Qed.

(** The text of a line in text mode, with the binary shown. *)
Lemma print_line_text label addr network old scb g :
  text_ready g ->
  print_line label addr network old scb true g =
  (let is_netmask := String.eqb (lower label) "netmask" in
   let addr_str := str_ipv4 addr in
   let addr_str :=
     if is_netmask then (addr_str ++ " = " ++ str_int (prefixlen network))%string
     else addr_str in
   let addr_str :=
     if String.eqb (lower label) "network"
     then (addr_str ++ "/" ++ str_int (prefixlen network))%string
     else addr_str in
   (ljust 11 (label ++ ":") ++ " " ++ ljust 21 addr_str ++ " "
    ++ slice_to (prefixlen network) (format_b 32 addr) ++ " "
    ++ slice_from (prefixlen network) (format_b 32 addr) ++ NEWLINE)%string, g).
Proof.
  intros Hg. destruct g as [m cur col h]. unfold text_ready in Hg.
  cbn [COLOR_MODE CURRENT_COLOR Colors] in Hg. destruct Hg as (-> & -> & ->).
  unfold print_line.
  generalize (String.eqb (lower label) "netmask"), (String.eqb (lower label) "network").
  intros b1 b2.
  cbv [bits_out pbind get_globals pret set_color COLOR_MODE CURRENT_COLOR Colors Html
       Colors_NORMAL Colors_BLUE is_html String.eqb andb negb join foldr piece_text].
  rewrite !append_nil_r. cbn [append]. rewrite !append_assoc. cbn [append].
  reflexivity.
Qed.

Lemma ipv4_netmask_digits n :
  net_version n = V4 -> valid_network n ->
  format_b 32 (netmask n)
  = (repeated "1" (Z.to_nat (prefixlen n))
     ++ repeated "0" (32 - Z.to_nat (prefixlen n)))%string.
Proof.
  intros H4 ((Hp0 & Hp1) & _).
  pose proof (netmask_range n ltac:(lia)) as Hr.
  rewrite H4 in Hr, Hp1. cbn [max_prefixlen] in Hr, Hp1.
  rewrite format_b_small by (simpl; lia).
  apply netmask_digits; rewrite H4; simpl; lia.
Qed.

Lemma slice_to_append p s1 s2 :
  Z.to_nat p = String.length s1 -> slice_to p (s1 ++ s2) = s1.
Proof. intros H. unfold slice_to. rewrite H. apply substring_append_left. Qed.

Lemma slice_from_append p s1 s2 :
  Z.to_nat p = String.length s1 -> slice_from p (s1 ++ s2) = s2.
Proof.
  intros H. unfold slice_from. rewrite H, length_append, substring_append_right.
  replace (String.length s1 + String.length s2 - String.length s1)%nat
    with (String.length s2) by lia.
  apply substring_whole.
Qed.

(** X16: the Netmask line in text mode.  For an IPv4 network of prefix p
    the line carries no colour code and leaves the state as it is; it reads
    the label, the dotted mask with [ = p] in a field of 21 characters, and
    in binary p ones, a space and 32 - p zeros. *)
Theorem netmask_line_text (n : IPNetwork) (old : option IPNetwork)
    (show_class_bits : bool) (g : globals) :
  text_ready g -> net_version n = V4 -> valid_network n ->
  print_line "Netmask" (netmask n) n old show_class_bits true g =
  (("Netmask:    "
    ++ ljust 21 (str_ipv4 (netmask n) ++ " = " ++ str_int (prefixlen n)) ++ " "
    ++ repeated "1" (Z.to_nat (prefixlen n)) ++ " "
    ++ repeated "0" (32 - Z.to_nat (prefixlen n)) ++ NEWLINE)%string, g).
Proof.
  intros Hg H4 Hv. rewrite print_line_text by assumption.
  change (String.eqb (lower "Netmask") "netmask") with true.
  change (String.eqb (lower "Netmask") "network") with false.
  cbv zeta iota.
  rewrite ipv4_netmask_digits by assumption.
  rewrite slice_to_append, slice_from_append by (now rewrite length_repeated).
  reflexivity.
Qed.

Lemma netmask_line_text_witness :
  print_line "Netmask" (netmask (mkNet V4 3232235520 24)) (mkNet V4 3232235520 24)
    None false true (setup_output_mode false false true false globals_initial) =
  (("Netmask:    "
    ++ ljust 21 (str_ipv4 (netmask (mkNet V4 3232235520 24)) ++ " = "
                 ++ str_int (prefixlen (mkNet V4 3232235520 24))) ++ " "
    ++ repeated "1" (Z.to_nat (prefixlen (mkNet V4 3232235520 24))) ++ " "
    ++ repeated "0" (32 - Z.to_nat (prefixlen (mkNet V4 3232235520 24)))
    ++ NEWLINE)%string,
   setup_output_mode false false true false globals_initial).
Proof.
  apply (netmask_line_text (mkNet V4 3232235520 24) None false
           (setup_output_mode false false true false globals_initial)).
  - apply setup_text_ready. reflexivity.
  - reflexivity.
  - concrete_network.
Defined.

Lemma hostmask_digits n (w : nat) :
  Z.of_nat w = max_prefixlen (net_version n) ->
  0 <= prefixlen n <= max_prefixlen (net_version n) ->
  binary_digits w (hostmask n)
  = (repeated "0" (Z.to_nat (prefixlen n))
     ++ repeated "1" (w - Z.to_nat (prefixlen n)))%string.
Proof.
  intros Hw Hp. rewrite hostmask_value by assumption.
  replace (2 ^ (max_prefixlen (net_version n) - prefixlen n) - 1)
    with (Z.ones (max_prefixlen (net_version n) - prefixlen n))
    by (rewrite Z.ones_equiv; lia).
  replace w with (Z.to_nat (prefixlen n) + (w - Z.to_nat (prefixlen n)))%nat at 1 by lia.
  rewrite binary_digits_split. f_equal.
  - apply (binary_digits_all _ _ false). intros i Hi.
    rewrite Z.shiftr_spec by lia. apply Z.ones_spec_high. lia.
  - apply (binary_digits_all _ _ true). intros i Hi.
    apply Z.ones_spec_low. lia.
Qed.

(** X17: the Wildcard line in text mode.  For an IPv4 network of prefix p
    the line carries no colour code and leaves the state as it is; it reads
    the label, the dotted hostmask in a field of 21 characters, and in
    binary p zeros, a space and 32 - p ones: digit for digit the complement
    of the Netmask line. *)
Theorem wildcard_line_text (n : IPNetwork) (old : option IPNetwork)
    (show_class_bits : bool) (g : globals) :
  text_ready g -> net_version n = V4 -> valid_network n ->
  print_line "Wildcard" (hostmask n) n old show_class_bits true g =
  (("Wildcard:   "
    ++ ljust 21 (str_ipv4 (hostmask n)) ++ " "
    ++ repeated "0" (Z.to_nat (prefixlen n)) ++ " "
    ++ repeated "1" (32 - Z.to_nat (prefixlen n)) ++ NEWLINE)%string, g).
Proof.
  intros Hg H4 Hv. pose proof Hv as ((Hp0 & Hp1) & _).
  rewrite H4 in Hp1. cbn [max_prefixlen] in Hp1.
  rewrite print_line_text by assumption.
  change (String.eqb (lower "Wildcard") "netmask") with false.
  change (String.eqb (lower "Wildcard") "network") with false.
  cbv zeta iota.
  assert (Hh : 0 <= hostmask n < 2 ^ 32).
  { rewrite hostmask_value by (rewrite H4; simpl; lia).
    rewrite H4. cbn [max_prefixlen].
    assert (0 < 2 ^ (32 - prefixlen n)) by (apply Z.pow_pos_nonneg; lia).
    assert (2 ^ (32 - prefixlen n) <= 2 ^ 32) by (apply Z.pow_le_mono_r; lia).
    lia. }
  rewrite format_b_small by (simpl; lia).
  rewrite (hostmask_digits n 32) by (rewrite H4; simpl; lia).
  rewrite slice_to_append, slice_from_append by (now rewrite length_repeated).
  reflexivity.
Qed.

Lemma wildcard_line_text_witness :
  print_line "Wildcard" (hostmask (mkNet V4 3232235520 24)) (mkNet V4 3232235520 24)
    None false true (setup_output_mode false false true false globals_initial) =
  (("Wildcard:   "
    ++ ljust 21 (str_ipv4 (hostmask (mkNet V4 3232235520 24))) ++ " "
    ++ repeated "0" (Z.to_nat (prefixlen (mkNet V4 3232235520 24))) ++ " "
    ++ repeated "1" (32 - Z.to_nat (prefixlen (mkNet V4 3232235520 24)))
    ++ NEWLINE)%string,
   setup_output_mode false false true false globals_initial).
Proof.
  apply (wildcard_line_text (mkNet V4 3232235520 24) None false
           (setup_output_mode false false true false globals_initial)).
  - apply setup_text_ready. reflexivity.
  - reflexivity.
  - concrete_network.
Defined.

(** ** The digits of the addresses of a network *)

Lemma binary_digits_mod (m : nat) a :
  binary_digits m a = binary_digits m (a mod 2 ^ Z.of_nat m).
Proof.
  apply binary_digits_ext. intros i Hi.
  now rewrite Z.mod_pow2_bits_low by lia.
Qed.

Lemma shiftr_in_block a B x :
  0 < B -> a mod B = 0 -> a <= x < a + B -> x / B = a / B.
Proof.
  intros HB Ha Hx. apply Z.mod_divide in Ha; [|lia]. destruct Ha as [k ->].
  rewrite Z.div_mul by lia. symmetry.
  apply (Z.div_unique_pos x B k (x - k * B)); lia.
Qed.

(** X18: the binary column of the addresses of a network, in text mode.
    Every address of an IPv4 network of prefix p shows the same p digits
    before the space; after it the address shows its 32 - p low bits, which
    are all zeros for the network address and all ones for the broadcast
    address. *)
Theorem host_bits_text (n : IPNetwork) (g : globals) :
  text_ready g -> net_version n = V4 -> valid_network n ->
  exists net_bits,
    String.length net_bits = Z.to_nat (prefixlen n) /\
    (forall x old is_netmask show_class_bits, in_network x n ->
       bits_out is_netmask x n old show_class_bits g
       = ([Plain net_bits; Plain " ";
           Plain (binary_digits (32 - Z.to_nat (prefixlen n)) x)], g)) /\
    binary_digits (32 - Z.to_nat (prefixlen n)) (network_address n)
    = repeated "0" (32 - Z.to_nat (prefixlen n)) /\
    binary_digits (32 - Z.to_nat (prefixlen n)) (broadcast_address n)
    = repeated "1" (32 - Z.to_nat (prefixlen n)).
Proof.
  intros Hg H4 Hv. pose proof Hv as Hv0.
  apply valid_network_aligned in Hv. destruct Hv as (Hp & Ha & Hal).
  pose proof (valid_network_top n Hv0) as Htop.
  rewrite H4 in Hp, Ha, Htop. cbn [max_prefixlen] in Hp, Htop.
  unfold block_of in *. rewrite H4 in *. cbn [max_prefixlen] in *.
  set (p := prefixlen n) in *.
  assert (HB : 0 < 2 ^ (32 - p)) by (apply Z.pow_pos_nonneg; lia).
  assert (Hm : Z.of_nat (32 - Z.to_nat p) = 32 - p) by lia.
  exists (binary_digits (Z.to_nat p) (Z.shiftr (network_address n) (32 - p))).
  split; [apply length_binary_digits|]. split; [|split].
  - intros x old is_nm scb Hx.
    apply in_network_iff in Hx; [|assumption].
    unfold block_of in Hx. rewrite H4 in Hx. cbn [max_prefixlen] in Hx. fold p in Hx.
    destruct Hg as (Hmode & _).
    unfold bits_out, pbind, get_globals, pret. rewrite Hmode.
    rewrite format_b_small by (simpl; lia).
    fold p. rewrite slice_to_digits, slice_from_digits by lia.
    do 3 f_equal. f_equal. change (Z.of_nat 32) with 32.
    rewrite !Z.shiftr_div_pow2 by lia.
    now apply shiftr_in_block.
  - rewrite binary_digits_mod, Hm, Hal.
    apply (binary_digits_all _ _ false). intros i _. apply Z.bits_0.
  - rewrite binary_digits_mod, Hm.
    rewrite broadcast_value by assumption.
    unfold block_of. rewrite H4. cbn [max_prefixlen]. fold p.
    replace ((network_address n + 2 ^ (32 - p) - 1) mod 2 ^ (32 - p))
      with (Z.ones (32 - p)).
    + apply (binary_digits_all _ _ true). intros i Hi.
      apply Z.ones_spec_low. lia.
    + rewrite Z.ones_equiv.
      apply Z.mod_divide in Hal; [|lia]. destruct Hal as [k Hk].
      apply (Z.mod_unique_pos _ _ k); lia.
Qed.

Lemma host_bits_text_witness :
  exists net_bits,
    String.length net_bits = Z.to_nat (prefixlen (mkNet V4 3232235520 24)) /\
    (forall x old is_netmask show_class_bits,
       in_network x (mkNet V4 3232235520 24) ->
       bits_out is_netmask x (mkNet V4 3232235520 24) old show_class_bits
         (setup_output_mode false false true false globals_initial)
       = ([Plain net_bits; Plain " ";
           Plain (binary_digits (32 - Z.to_nat (prefixlen (mkNet V4 3232235520 24))) x)],
          setup_output_mode false false true false globals_initial)) /\
    binary_digits (32 - Z.to_nat (prefixlen (mkNet V4 3232235520 24)))
      (network_address (mkNet V4 3232235520 24))
    = repeated "0" (32 - Z.to_nat (prefixlen (mkNet V4 3232235520 24))) /\
    binary_digits (32 - Z.to_nat (prefixlen (mkNet V4 3232235520 24)))
      (broadcast_address (mkNet V4 3232235520 24))
    = repeated "1" (32 - Z.to_nat (prefixlen (mkNet V4 3232235520 24))).
Proof.
  apply (host_bits_text (mkNet V4 3232235520 24)
           (setup_output_mode false false true false globals_initial)).
  - apply setup_text_ready. reflexivity.
  - reflexivity.
  - concrete_network.
Defined.

(** ** Colour and HTML modes *)

Lemma plain_app l1 l2 : plain (l1 ++ l2) = (plain l1 ++ plain l2)%string.
Proof.
  induction l1 as [|[c|t] l1 IH]; cbn [app plain foldr]; [reflexivity|exact IH|].
  fold (plain (l1 ++ l2)). fold (plain l1). rewrite IH. now rewrite append_assoc.
Qed.

Lemma plain_markup c l : plain (Markup c :: l) = plain l.
Proof. reflexivity. Qed.

Lemma plain_text t l : plain (Plain t :: l) = (t ++ plain l)%string.
Proof. reflexivity. Qed.

(** The colours the loop sets leave the digits and the separators as they
    are. *)
Lemma color_bits_plain is_netmask network old c_normal c_binary c_subnet current_color
    rest : forall i previous show_class_bits g,
  plain (fst (color_bits rest i previous show_class_bits is_netmask network old
                c_normal c_binary c_subnet current_color g))
  = grouped rest i (prefix_boundary network old).
Proof.
  induction rest as [|bit rest IH]; intros i previous scb g; [reflexivity|].
  cbn [color_bits grouped]. unfold prefix_boundary at 1.
  set (bd := (i =? prefixlen network) || at_prefix i old).
  set (dt := ((i + 1) mod 8 =? 0) && (i <? 31)).
  unfold pbind, pret.
  destruct (scb && (0 <? i) && Ascii.eqb previous "1" && Ascii.eqb bit "0").
  - destruct (set_color c_binary g) as [c1 g1]. cbn [fst snd].
    destruct bd, dt;
      repeat match goal with
             | |- context [set_color ?c ?g] => destruct (set_color c g) as [? ?]
             | |- context [if ?b then _ else _] => destruct b
             end;
      match goal with
      | |- context [color_bits rest ?a ?b ?c ?d ?e ?f ?g ?h ?k ?l ?m] =>
          specialize (IH a b c m);
          destruct (color_bits rest a b c d e f g h k l m) as [others g']
      end;
      cbn [fst] in IH |- *;
      rewrite ?plain_app, ?plain_markup, ?plain_text; cbn [app];
      rewrite ?plain_app, ?plain_markup, ?plain_text;
      cbn [plain foldr append]; fold (plain others); rewrite IH; reflexivity.
  - cbn [fst snd].
    destruct bd, dt;
      repeat match goal with
             | |- context [set_color ?c ?g] => destruct (set_color c g) as [? ?]
             | |- context [if ?b then _ else _] => destruct b
             end;
      match goal with
      | |- context [color_bits rest ?a ?b ?c ?d ?e ?f ?g ?h ?k ?l ?m] =>
          specialize (IH a b c m);
          destruct (color_bits rest a b c d e f g h k l m) as [others g']
      end;
      cbn [fst] in IH |- *;
      rewrite ?plain_app, ?plain_markup, ?plain_text; cbn [app];
      rewrite ?plain_app, ?plain_markup, ?plain_text;
      cbn [plain foldr append]; fold (plain others); rewrite IH; reflexivity.
Qed.

Lemma digits_only_append s1 s2 :
  digits_only (s1 ++ s2) = (digits_only s1 ++ digits_only s2)%string.
Proof.
  induction s1 as [|c s1 IH]; [reflexivity|].
  cbn [append digits_only]. destruct (Ascii.eqb c "0" || Ascii.eqb c "1");
    cbn [append]; now rewrite IH.
Qed.

Lemma digits_only_binary_digits n a : digits_only (binary_digits n a) = binary_digits n a.
Proof.
  induction n as [|n IH]; [reflexivity|].
  cbn [binary_digits digits_only]. rewrite IH.
  now destruct (Z.testbit a (Z.of_nat n)).
Qed.

Lemma digits_only_grouped boundary s : forall i,
  digits_only (grouped s i boundary) = digits_only s.
Proof.
  induction s as [|c s IH]; intros i; [reflexivity|].
  cbn [grouped]. cbv zeta.
  rewrite !digits_only_append, IH.
  destruct (boundary i), (((i + 1) mod 8 =? 0) && (i <? 31));
    cbn [digits_only append orb Ascii.eqb Bool.eqb];
    destruct (Ascii.eqb c "0" || Ascii.eqb c "1"); reflexivity.
Qed.

Lemma read_binary_digits_only s : read_binary (digits_only s) = read_binary s.
Proof. apply read_binary_from_digits_only. Qed.

(** The plain text of the column, in the three modes. *)
Lemma bits_out_plain is_netmask addr network old show_class_bits g :
  plain (fst (bits_out is_netmask addr network old show_class_bits g))
  = match COLOR_MODE g with
    | ModeText =>
        (slice_to (prefixlen network) (format_b 32 addr) ++ " "
         ++ slice_from (prefixlen network) (format_b 32 addr))%string
    | _ => grouped (format_b 32 addr) 0 (prefix_boundary network old)
    end.
Proof.
  unfold bits_out, pbind, get_globals, pret.
  destruct (COLOR_MODE g) eqn:Emode.
  - cbn [fst plain foldr]. now rewrite append_nil_r.
  - cbv zeta. cbn [is_html].
    destruct (set_color _ g) as [first g1].
    match goal with
    | |- context [color_bits ?r ?a ?b ?c ?d ?e ?f ?g ?h ?k ?l ?m] =>
        pose proof (color_bits_plain d e f g h k l r a b c m) as Hp;
        destruct (color_bits r a b c d e f g h k l m) as [digits g2]
    end.
    destruct (set_color _ g2) as [last g3]. cbn [fst] in Hp |- *.
    rewrite plain_markup, plain_app, Hp. cbn [plain foldr]. apply append_nil_r.
  - cbv zeta. cbn [is_html].
    destruct (set_color _ g) as [first g1].
    match goal with
    | |- context [color_bits ?r ?a ?b ?c ?d ?e ?f ?g ?h ?k ?l ?m] =>
        pose proof (color_bits_plain d e f g h k l r a b c m) as Hp;
        destruct (color_bits r a b c d e f g h k l m) as [digits g2]
    end.
    destruct (set_color _ g2) as [last g3]. cbn [fst] in Hp |- *.
    rewrite plain_markup, plain_app, Hp. cbn [plain foldr]. apply append_nil_r.
Qed.

(** X19: the digits of the binary column spell the address, in every mode.
    Whatever the mode, the palette, the current colour, the old network and
    the class-bit option are, the column holds the 32 binary digits of the
    address in order, and reading them back gives the address. *)
Theorem binary_column_digits (is_netmask : bool) (addr : Z) (network : IPNetwork)
    (old : option IPNetwork) (show_class_bits : bool) (g : globals) :
  0 <= addr < 2 ^ 32 ->
  let column := fst (bits_out is_netmask addr network old show_class_bits g) in
  digits_only (plain column) = binary_digits 32 addr /\
  read_binary (plain column) = addr.
Proof.
  intros Ha column.
  assert (Hd : digits_only (plain column) = binary_digits 32 addr).
  { subst column. rewrite bits_out_plain.
    rewrite format_b_small by (simpl; lia).
    destruct (COLOR_MODE g).
    - rewrite !digits_only_append.
      change (digits_only " ") with EmptyString. cbn [append].
      rewrite <- digits_only_append. unfold slice_to, slice_from.
      rewrite substring_cut. apply digits_only_binary_digits.
    - rewrite digits_only_grouped. apply digits_only_binary_digits.
    - rewrite digits_only_grouped. apply digits_only_binary_digits. }
  split; [exact Hd|].
  rewrite <- read_binary_digits_only, Hd. unfold read_binary.
  rewrite read_binary_from_digits by lia.
  change (Z.of_nat 32) with 32. rewrite Z.mod_small by lia. lia.
Qed.

Lemma binary_column_digits_witness :
  let column :=
    fst (bits_out false 3232235521 (mkNet V4 3232235520 24)
           (Some (mkNet V4 3232235520 16)) true
           (setup_output_mode true false false false globals_initial)) in
  digits_only (plain column) = binary_digits 32 3232235521 /\
  read_binary (plain column) = 3232235521.
Proof.
  apply (binary_column_digits false 3232235521 (mkNet V4 3232235520 24)
           (Some (mkNet V4 3232235520 16)) true
           (setup_output_mode true false false false globals_initial)).
  lia.
Defined.

(** X20: the layout of the binary column in colour and HTML modes.
    Without its colour codes the column is the 32 digits of the address
    with a dot after every eighth digit but the last, and a space before
    the digit at the prefix of the network and before the one at the prefix
    of the old network; a prefix of 32 puts no space. *)
Theorem colour_column_layout (is_netmask : bool) (addr : Z) (network : IPNetwork)
    (old : option IPNetwork) (show_class_bits : bool) (g : globals) :
  COLOR_MODE g <> ModeText -> 0 <= addr < 2 ^ 32 ->
  plain (fst (bits_out is_netmask addr network old show_class_bits g))
  = grouped (binary_digits 32 addr) 0 (prefix_boundary network old).
Proof.
  intros Hmode Ha. rewrite bits_out_plain.
  rewrite format_b_small by (simpl; lia).
  destruct (COLOR_MODE g); [contradiction|reflexivity..].
Qed.

Lemma colour_column_layout_witness :
  plain (fst (bits_out false 3232235521 (mkNet V4 3232235520 24) None true
                (setup_output_mode false true false false globals_initial)))
  = grouped (binary_digits 32 3232235521) 0
            (prefix_boundary (mkNet V4 3232235520 24) None).
Proof.
  apply (colour_column_layout false 3232235521 (mkNet V4 3232235520 24) None true
           (setup_output_mode false true false false globals_initial)).
  - discriminate.
  - lia.
Defined.

(** ** The width of a line in text mode *)

Lemma length_ljust w s :
  (String.length s <= w)%nat -> String.length (ljust w s) = w.
Proof. intros H. unfold ljust. rewrite length_append, length_spaces. lia. Qed.

Lemma octet_text_short :
  forallb (fun k => (String.length (str_int (Z.of_nat k)) <=? 3)%nat) (seq 0 256) = true.
Proof. vm_compute. reflexivity. Qed.

Lemma length_str_octet o : 0 <= o < 256 -> (String.length (str_int o) <= 3)%nat.
Proof.
  intros Ho. pose proof octet_text_short as H. rewrite forallb_forall in H.
  specialize (H (Z.to_nat o) ltac:(apply in_seq; lia)).
  rewrite Z2Nat.id in H by lia. now apply Nat.leb_le.
Qed.

Lemma length_str_prefix p : 0 <= p <= 32 -> (String.length (str_int p) <= 2)%nat.
Proof.
  intros Hp.
  assert (H : forallb (fun k => (String.length (str_int (Z.of_nat k)) <=? 2)%nat)
                (seq 0 33) = true) by (vm_compute; reflexivity).
  rewrite forallb_forall in H.
  specialize (H (Z.to_nat p) ltac:(apply in_seq; lia)).
  rewrite Z2Nat.id in H by lia. now apply Nat.leb_le.
Qed.

Lemma octet_range a k : 0 <= Z.land (Z.shiftr a (8 * k)) 255 < 256.
Proof.
  change 255 with (Z.ones 8). rewrite Z.land_ones by lia.
  apply Z.mod_pos_bound. lia.
Qed.

Lemma length_str_ipv4 a : (String.length (str_ipv4 a) <= 15)%nat.
Proof.
  unfold str_ipv4. cbn [map String.concat].
  rewrite !length_append. cbn [String.length].
  pose proof (length_str_octet _ (octet_range a 3)).
  pose proof (length_str_octet _ (octet_range a 2)).
  pose proof (length_str_octet _ (octet_range a 1)).
  pose proof (length_str_octet _ (octet_range a 0)).
  lia.
Qed.

Lemma length_slices p s :
  (String.length (slice_to p s) + String.length (slice_from p s))%nat
  = String.length s.
Proof.
  rewrite <- length_append. unfold slice_to, slice_from. now rewrite substring_cut.
Qed.

(** X21: the columns of the text-mode output line up.  For a label of at
    most ten characters, an IPv4 address and an IPv4 network, a line with
    the binary shown is 67 characters and the end of line: the label in 11
    columns, the address text in 21, and the 32 digits with their space,
    each after one space; the state is left as it is. *)
Theorem text_line_width (label : string) (addr : Z) (network : IPNetwork)
    (old : option IPNetwork) (show_class_bits : bool) (g : globals) :
  text_ready g ->
  (String.length label <= 10)%nat ->
  0 <= addr < 2 ^ 32 -> 0 <= prefixlen network <= 32 ->
  exists address_text,
    String.length address_text = 21%nat /\
    print_line label addr network old show_class_bits true g
    = ((ljust 11 (label ++ ":") ++ " " ++ address_text ++ " "
        ++ slice_to (prefixlen network) (binary_digits 32 addr) ++ " "
        ++ slice_from (prefixlen network) (binary_digits 32 addr)
        ++ NEWLINE)%string, g) /\
    String.length (ljust 11 (label ++ ":")) = 11%nat /\
    String.length (fst (print_line label addr network old show_class_bits true g))
    = 68%nat.
Proof.
  intros Hg Hl Ha Hp. rewrite print_line_text by assumption. cbv zeta.
  rewrite format_b_small by (simpl; lia).
  set (addr_str := if String.eqb (lower label) "network" then _ else _).
  assert (Hs : (String.length addr_str <= 21)%nat).
  { subst addr_str.
    pose proof (length_str_ipv4 addr). pose proof (length_str_prefix _ Hp).
    destruct (String.eqb_spec (lower label) "network") as [E1|E1],
             (String.eqb_spec (lower label) "netmask") as [E2|E2];
      [rewrite E1 in E2; discriminate|..];
      rewrite ?length_append; cbn [String.length]; rewrite ?length_append;
      cbn [String.length]; lia. }
  assert (Hlab : String.length (ljust 11 (label ++ ":")) = 11%nat).
  { apply length_ljust. rewrite length_append. simpl. lia. }
  exists (ljust 21 addr_str).
  split; [now apply length_ljust|]. split; [reflexivity|]. split; [exact Hlab|].
  cbn [fst]. rewrite !length_append, Hlab, length_ljust by assumption.
  cbn [String.length NEWLINE].
  pose proof (length_slices (prefixlen network) (binary_digits 32 addr)) as Hsl.
  rewrite length_binary_digits in Hsl. rewrite ?length_append. cbn [String.length].
  rewrite ?length_append. cbn [String.length]. lia.
Qed.

Lemma text_line_width_witness :
  exists address_text,
    String.length address_text = 21%nat /\
    print_line "Broadcast" 3232235775 (mkNet V4 3232235520 24) None false true
      (setup_output_mode false false true false globals_initial)
    = ((ljust 11 ("Broadcast" ++ ":") ++ " " ++ address_text ++ " "
        ++ slice_to (prefixlen (mkNet V4 3232235520 24)) (binary_digits 32 3232235775)
        ++ " "
        ++ slice_from (prefixlen (mkNet V4 3232235520 24)) (binary_digits 32 3232235775)
        ++ NEWLINE)%string,
       setup_output_mode false false true false globals_initial) /\
    String.length (ljust 11 ("Broadcast" ++ ":")) = 11%nat /\
    String.length
      (fst (print_line "Broadcast" 3232235775 (mkNet V4 3232235520 24) None false true
              (setup_output_mode false false true false globals_initial)))
    = 68%nat.
Proof.
  apply (text_line_width "Broadcast" 3232235775 (mkNet V4 3232235520 24) None false
           (setup_output_mode false false true false globals_initial)).
  - apply setup_text_ready. reflexivity.
  - simpl. lia.
  - lia.
  - simpl. lia.
Defined.

(** * IPv6 binary text *)

(** A stretch of the digits of a number is the digits of the number
    shifted. *)
Lemma substring_digits (n i m : nat) a :
  (i + m <= n)%nat ->
  substring i m (binary_digits n a)
  = binary_digits m (Z.shiftr a (Z.of_nat (n - i - m))).
Proof.
  intros H.
  replace n with (i + (m + (n - i - m)))%nat at 1 by lia.
  rewrite binary_digits_split.
  rewrite <- (length_binary_digits i (Z.shiftr a (Z.of_nat (m + (n - i - m))))) at 1.
  rewrite substring_append_right, binary_digits_split.
  rewrite <- (length_binary_digits m (Z.shiftr a (Z.of_nat (n - i - m)))) at 1.
  apply substring_append_left.
Qed.

Lemma colon_groups_digits a :
  colon_groups (binary_digits 128 a)
  = String.concat ":"
      (map (fun s => binary_digits 16 (Z.shiftr a s))
           [112; 96; 80; 64; 48; 32; 16; 0]).
Proof.
  unfold colon_groups.
  change (py_range 0 128 16) with [0; 16; 32; 48; 64; 80; 96; 112].
  cbn [map]. rewrite !substring_digits by (simpl; lia). reflexivity.
Qed.

Lemma digits_only_colon s1 s2 :
  digits_only (s1 ++ ":" ++ s2) = (digits_only s1 ++ digits_only s2)%string.
Proof. now rewrite !digits_only_append. Qed.

Lemma length_colon s1 s2 :
  String.length (s1 ++ ":" ++ s2) = (String.length s1 + 1 + String.length s2)%nat.
Proof. rewrite !length_append. simpl. lia. Qed.

(** The 128 digits, 16 at a time. *)
Lemma digits_128_words a :
  binary_digits 128 a
  = (binary_digits 16 (Z.shiftr a 112) ++ binary_digits 16 (Z.shiftr a 96)
     ++ binary_digits 16 (Z.shiftr a 80) ++ binary_digits 16 (Z.shiftr a 64)
     ++ binary_digits 16 (Z.shiftr a 48) ++ binary_digits 16 (Z.shiftr a 32)
     ++ binary_digits 16 (Z.shiftr a 16) ++ binary_digits 16 (Z.shiftr a 0))%string.
Proof.
  change 128%nat with (16 + 112)%nat. rewrite (binary_digits_split 16 112 a). f_equal.
  change 112%nat with (16 + 96)%nat. rewrite (binary_digits_split 16 96 a). f_equal.
  change 96%nat with (16 + 80)%nat. rewrite (binary_digits_split 16 80 a). f_equal.
  change 80%nat with (16 + 64)%nat. rewrite (binary_digits_split 16 64 a). f_equal.
  change 64%nat with (16 + 48)%nat. rewrite (binary_digits_split 16 48 a). f_equal.
  change 48%nat with (16 + 32)%nat. rewrite (binary_digits_split 16 32 a). f_equal.
  change 32%nat with (16 + 16)%nat. rewrite (binary_digits_split 16 16 a). reflexivity.
Qed.

Lemma digits_of_groups a :
  digits_only (colon_groups (binary_digits 128 a)) = binary_digits 128 a.
Proof.
  rewrite colon_groups_digits, digits_128_words.
  cbn [map String.concat].
  rewrite !digits_only_colon, !digits_only_binary_digits. reflexivity.
Qed.

Lemma length_groups a : String.length (colon_groups (binary_digits 128 a)) = 135%nat.
Proof.
  rewrite colon_groups_digits. cbn [map String.concat].
  rewrite !length_colon, !length_binary_digits. reflexivity.
Qed.

(** X22: the binary text of an IPv6 address.  It is 135 characters: eight
    groups of 16 digits, the eight 16-bit words of the address from the most
    significant down, with a colon between two groups; its digits are the
    128 binary digits of the address, and reading them back gives the
    address. *)
Theorem format_ipv6_binary_groups (address : Z) :
  0 <= address < 2 ^ 128 ->
  format_ipv6_binary address
  = String.concat ":"
      (map (fun s => binary_digits 16 (Z.shiftr address s))
           [112; 96; 80; 64; 48; 32; 16; 0]) /\
  String.length (format_ipv6_binary address) = 135%nat /\
  digits_only (format_ipv6_binary address) = binary_digits 128 address /\
  read_binary (format_ipv6_binary address) = address.
Proof.
  intros Ha. unfold format_ipv6_binary.
  rewrite format_b_small by (simpl; lia).
  split; [apply colon_groups_digits|]. split; [apply length_groups|].
  split; [apply digits_of_groups|].
  rewrite <- read_binary_digits_only, digits_of_groups. unfold read_binary.
  rewrite read_binary_from_digits by lia.
  change (Z.of_nat 128) with 128. rewrite Z.mod_small by lia. lia.
Qed.

Lemma format_ipv6_binary_groups_witness :
  format_ipv6_binary 42540766411282592856903984951653826561
  = String.concat ":"
      (map (fun s => binary_digits 16
                       (Z.shiftr 42540766411282592856903984951653826561 s))
           [112; 96; 80; 64; 48; 32; 16; 0]) /\
  String.length (format_ipv6_binary 42540766411282592856903984951653826561) = 135%nat /\
  digits_only (format_ipv6_binary 42540766411282592856903984951653826561)
  = binary_digits 128 42540766411282592856903984951653826561 /\
  read_binary (format_ipv6_binary 42540766411282592856903984951653826561)
  = 42540766411282592856903984951653826561.
Proof.
  apply (format_ipv6_binary_groups 42540766411282592856903984951653826561). lia.
Defined.

(** X23: the binary netmask of an IPv6 network of prefix p has, colons
    apart, p ones followed by 128 - p zeros. *)
Theorem ipv6_netmask_binary (n : IPNetwork) :
  net_version n = V6 -> valid_network n ->
  String.length (netmask_bin_formatted n) = 135%nat /\
  digits_only (netmask_bin_formatted n)
  = (repeated "1" (Z.to_nat (prefixlen n))
     ++ repeated "0" (128 - Z.to_nat (prefixlen n)))%string.
Proof.
  intros H6 ((Hp0 & Hp1) & _).
  pose proof (netmask_range n ltac:(lia)) as Hr.
  rewrite H6 in Hr, Hp1. cbn [max_prefixlen] in Hr, Hp1.
  unfold netmask_bin_formatted. rewrite format_b_small by (simpl; lia).
  split; [apply length_groups|].
  rewrite digits_of_groups. apply netmask_digits; rewrite H6; simpl; lia.
Qed.

Lemma ipv6_netmask_binary_witness :
  String.length (netmask_bin_formatted (mkNet V6 0 64)) = 135%nat /\
  digits_only (netmask_bin_formatted (mkNet V6 0 64))
  = (repeated "1" (Z.to_nat (prefixlen (mkNet V6 0 64)))
     ++ repeated "0" (128 - Z.to_nat (prefixlen (mkNet V6 0 64))))%string.
Proof.
  apply (ipv6_netmask_binary (mkNet V6 0 64)).
  - reflexivity.
  - concrete_network.
Defined.

(** * Text mode emits no colour code *)

(** X24: without [--html] and [--color], and with the output not on a
    terminal or [--nocolor] given, the program is in text mode with every
    attribute of [Colors] emptied, and from then on any run of calls of
    [set_color] on attributes of [Colors] returns empty texts only and
    leaves the state as it is. *)
Theorem text_mode_silent (nocolor isatty : bool) (codes : list string) :
  isatty && negb nocolor = false ->
  let g := setup_output_mode false false nocolor isatty globals_initial in
  Forall (fun c => In c (Colors_codes (Colors g))) codes ->
  COLOR_MODE g = ModeText /\
  Forall (fun c => c = EmptyString) (Colors_codes (Colors g)) /\
  set_colors codes g = (map (fun _ => EmptyString) codes, g).
Proof.
  intros Htty g Hcodes.
  pose proof (setup_text_ready nocolor isatty Htty) as Hready.
  fold g in Hready. destruct Hready as (Hmode & Hcur & Hcol).
  split; [exact Hmode|]. split.
  - rewrite Hcol. repeat constructor.
  - assert (Hall : Forall (fun c => c = EmptyString) codes).
    { eapply Forall_impl; [exact Hcodes|]. intros c Hc. cbv beta in Hc.
      rewrite Hcol in Hc. cbn in Hc. intuition congruence. }
    clear Hcodes. induction Hall as [|c rest -> _ IH]; [reflexivity|].
    cbn [set_colors map]. unfold pbind at 1.
    rewrite (set_color_same EmptyString g Hcur).
    unfold pbind. rewrite IH. reflexivity.
Qed.

Lemma text_mode_silent_witness :
  let g := setup_output_mode false false true true globals_initial in
  COLOR_MODE g = ModeText /\
  Forall (fun c => c = EmptyString) (Colors_codes (Colors g)) /\
  set_colors [Colors_NORMAL (Colors g); Colors_BLUE (Colors g); Colors_ERROR (Colors g)] g
  = (map (fun _ => EmptyString)
         [Colors_NORMAL (Colors g); Colors_BLUE (Colors g); Colors_ERROR (Colors g)], g).
Proof.
  intros g.
  apply (text_mode_silent true true
           [Colors_NORMAL (Colors g); Colors_BLUE (Colors g); Colors_ERROR (Colors g)]).
  - reflexivity.
  - repeat constructor; simpl; tauto.
Defined.
